(** * seo_audit: crawl / audit / scoring engine

    A shallow embedding of [seo_audit.py] and the properties of its URL
    normaliser, page signal extractor, page scorer, site aggregator and
    crawl loop.

    Conventions of the embedding.
    - A Python [str] is a [string]; a character stands for a code point
      below 256.
    - A Python [int] is a [Z].
    - A Python [float] is an IEEE-754 binary64 value, a [spec_float] with
      precision 53 and maximal exponent 1024, and float arithmetic is the
      correctly rounded arithmetic of [SpecFloat].
    - A call that can raise returns an [option]: a raised exception is a
      [None], and the bind of the option monad hands it on, as an
      exception that nobody catches leaves every enclosing call.
    - [urllib.parse], [json], BeautifulSoup and Playwright are outside the
      program: what the program asks of them is a field of a class or of a
      record ([UrlLib], [JsonLib], [Soup], [Browser]). [urlparse] and
      [urljoin] raise [ValueError] on a malformed URL, and the program
      calls them outside any [try]. *)

From Stdlib Require Import ZArith Lia Bool List Ascii String SpecFloat FMapPositive.
From stdpp Require Import base option list sorting gmap strings.

Set Warnings "-register-all".

Local Open Scope string_scope.
Local Open Scope Z_scope.

(* ===================================================================== *)
(** * Python strings *)
(* ===================================================================== *)

Module PyStr.

(** [str.isspace] on one character: TAB..CR, FS..US, space, NEL, NBSP. *)
Definition py_isspace (c : ascii) : bool :=
  let n := nat_of_ascii c in
  ((9 <=? n) && (n <=? 13) || (28 <=? n) && (n <=? 32)
   || (n =? 133) || (n =? 160))%nat.

Fixpoint lstrip (s : string) : string :=
  match s with
  | EmptyString => EmptyString
  | String c s' => if py_isspace c then lstrip s' else s
  end.

Fixpoint rstrip (s : string) : string :=
  match s with
  | EmptyString => EmptyString
  | String c s' =>
      match rstrip s' with
      | EmptyString => if py_isspace c then EmptyString else String c EmptyString
      | r => String c r
      end
  end.

(** [s.strip()] *)
Definition strip (s : string) : string := rstrip (lstrip s).

(** [s.startswith(p)] *)
Definition startswith (s p : string) : bool := String.prefix p s.

(** [c in s] for a single character [c]. *)
Fixpoint has_char (c : ascii) (s : string) : bool :=
  match s with
  | EmptyString => false
  | String d s' => Ascii.eqb c d || has_char c s'
  end.

(** [sub in s] *)
Fixpoint contains (sub s : string) : bool :=
  String.prefix sub s ||
  match s with
  | EmptyString => false
  | String _ s' => contains sub s'
  end.

(** [str.lower] on one character: A..Z, and the Latin-1 capitals
    U+00C0..U+00DE without the multiplication sign. *)
Definition lower_char (c : ascii) : ascii :=
  let n := nat_of_ascii c in
  if ((65 <=? n) && (n <=? 90)
      || (192 <=? n) && (n <=? 222) && negb (n =? 215))%nat
  then ascii_of_nat (n + 32) else c.

Fixpoint lower (s : string) : string :=
  match s with
  | EmptyString => EmptyString
  | String c s' => String (lower_char c) (lower s')
  end.

(** [len(s.split())]: the number of maximal runs of non-space
    characters. [in_word] tells whether the previous character was part
    of a token. *)
Fixpoint count_words (in_word : bool) (s : string) : nat :=
  match s with
  | EmptyString => 0%nat
  | String c s' =>
      if py_isspace c then count_words false s'
      else if in_word then count_words true s'
           else S (count_words true s')
  end.

(** [re.sub(r"\s+", " ", s)] *)
Fixpoint collapse_ws (in_ws : bool) (s : string) : string :=
  match s with
  | EmptyString => EmptyString
  | String c s' =>
      if py_isspace c
      then if in_ws then collapse_ws true s'
           else String " "%char (collapse_ws true s')
      else String c (collapse_ws false s')
  end.

(** Truthiness of a string: [bool(s)]. *)
Definition truthy (s : string) : bool :=
  match s with EmptyString => false | _ => true end.

End PyStr.
Import PyStr.

(* ===================================================================== *)
(** * URL normaliser *)
(* ===================================================================== *)

(** The six parts [urlparse] splits a URL into. *)
Module ParseResult.
Record t : Type := mk {
  scheme : string;
  netloc : string;
  path : string;
  params : string;
  query : string;
  fragment : string
}.
End ParseResult.

(** What the program asks of [urllib.parse]. *)
Class UrlLib : Type := {
  (** [urlparse(url)]; [None] when it raises [ValueError] *)
  urlparse : string -> option ParseResult.t;
  (** [urlunparse(parts)] *)
  urlunparse : ParseResult.t -> string;
  (** [urljoin(base, ref)]; [None] when it raises [ValueError] *)
  urljoin : string -> string -> option string;
  (** [urlparse] cuts the fragment off at the first [#], and [urlunparse]
      writes a [#] only in front of a fragment that is not empty: a parsed
      URL put together again without its fragment holds no [#]. *)
  urlunparse_no_hash :
    forall (url : string) (r : ParseResult.t),
      urlparse url = Some r ->
      has_char "#"
        (urlunparse
           (ParseResult.mk (ParseResult.scheme r) (ParseResult.netloc r)
              (ParseResult.path r) (ParseResult.params r)
              (ParseResult.query r) "")) = false
}.

(** [urllib.parse.urldefrag(url)]: the URL without its fragment, and the
    fragment. A URL without any [#] is returned as it stands; any other
    is parsed and put together again without its fragment. *)
Definition urldefrag `{UrlLib} (url : string) : option (string * string) :=
  if has_char "#" url then
    r ← urlparse url;
    let defrag :=
      urlunparse
        (ParseResult.mk (ParseResult.scheme r) (ParseResult.netloc r)
           (ParseResult.path r) (ParseResult.params r)
           (ParseResult.query r) "") in
    Some (defrag, ParseResult.fragment r)
  else Some (url, "").

(** [norm_url] *)
Definition norm_url `{UrlLib} (u : string) : option string :=
  let u := strip u in
  '(u, _) ← urldefrag u;
  Some u.

(* ===================================================================== *)
(** * Python floats and dictionaries *)
(* ===================================================================== *)

Module PyFloat.

Definition prec : Z := 53.
Definition emax : Z := 1024.

Definition float : Type := spec_float.

(** [float(z)] for an [int] [z], rounded to nearest even. *)
Definition of_int (z : Z) : float := binary_normalize prec emax z 0 false.

Definition fadd : float -> float -> float := SFadd prec emax.
Definition fmul : float -> float -> float := SFmul prec emax.
Definition fdiv : float -> float -> float := SFdiv prec emax.
Definition flt : float -> float -> bool := SFltb.
Definition fle : float -> float -> bool := SFleb.
Definition feq : float -> float -> bool := SFeqb.

(** The exact quotient of two [int]s, [b] not 0, rounded once to the
    nearest float, ties to even: an infinity when it is too large for a
    float. CPython divides two [int]s this way, whatever their size; a
    zero quotient has the sign of the divisor. *)
Definition quotient (a b : Z) : float :=
  match a with
  | Z0 => S754_zero (b <? 0)
  | _ =>
      let '(q, e, l) := SFdiv_core_binary prec emax (Z.abs a) 0 (Z.abs b) 0 in
      binary_round_aux prec emax (xorb (a <? 0) (b <? 0)) q e l
  end.

(** [a / b] on two [int]s. It raises [ZeroDivisionError] when [b] is 0
    and [OverflowError] when the quotient is too large for a float. *)
Definition truediv (a b : Z) : option float :=
  if b =? 0 then None
  else match quotient a b with
       | S754_infinity _ => None
       | q => Some q
       end.

(** Float literals of the source, each the double nearest to the
    decimal. *)
Definition f0_0 : float := S754_zero false.
Definition f2_0 : float := of_int 2.
Definition f4_0 : float := of_int 4.
Definition f6_0 : float := of_int 6.
Definition f0_25 : float := quotient 25 100.
Definition f0_20 : float := quotient 20 100.
Definition f0_15 : float := quotient 15 100.
Definition f0_10 : float := quotient 10 100.

(** The magnitude [m * 2^e] cut to an integer, toward zero. *)
Definition trunc_mag (m : positive) (e : Z) : Z :=
  match e with
  | Z0 => Zpos m
  | Zpos _ => Zpos m * 2 ^ e
  | Zneg k => Zpos m / 2 ^ Zpos k
  end.

(** [int(x)]. CPython raises on NaN and on the infinities; the program
    only converts sums of products of quotients of counts, which are
    finite, and the model answers 0 there. *)
Definition to_int (x : float) : Z :=
  match x with
  | S754_finite s m e => cond_Zopp s (trunc_mag m e)
  | _ => 0
  end.

(** The magnitude [m * 2^e] rounded to the nearest integer, ties to the
    even one. *)
Definition round_mag (m : positive) (e : Z) : Z :=
  match e with
  | Z0 => Zpos m
  | Zpos _ => Zpos m * 2 ^ e
  | Zneg k =>
      let d := 2 ^ Zpos k in
      let q := Zpos m / d in
      let r := Zpos m mod d in
      match 2 * r ?= d with
      | Lt => q
      | Gt => q + 1
      | Eq => if Z.even q then q else q + 1
      end
  end.

(** [round(x)] with one argument: an [int]. As for [to_int], NaN and the
    infinities raise in CPython and give 0 here. *)
Definition round (x : float) : Z :=
  match x with
  | S754_finite s m e => cond_Zopp s (round_mag m e)
  | _ => 0
  end.

(** [sum(xs)] over floats: starts from the [int] 0 and adds from the
    left. *)
Definition fsum (xs : list float) : float :=
  fold_left fadd xs f0_0.

End PyFloat.
Import PyFloat.

(** A [dict] with string keys keeps the insertion order of its keys;
    assigning to a present key replaces the value in place. *)
Module PyDict.

Definition dict (V : Type) : Type := list (string * V).

Fixpoint set {V} (d : dict V) (k : string) (v : V) : dict V :=
  match d with
  | [] => [(k, v)]
  | (k', v') :: d' =>
      if String.eqb k' k then (k', v) :: d' else (k', v') :: set d' k v
  end.

Fixpoint get {V} (d : dict V) (k : string) : option V :=
  match d with
  | [] => None
  | (k', v') :: d' => if String.eqb k' k then Some v' else get d' k
  end.

Definition keys {V} (d : dict V) : list string := map fst d.
Definition values {V} (d : dict V) : list V := map snd d.

(** [bool(d)] *)
Definition truthy {V} (d : dict V) : bool :=
  match d with [] => false | _ => true end.

End PyDict.

(** [clamp] *)
Definition clamp (n lo hi : Z) : Z := Z.max lo (Z.min hi n).

(** [sum] over a list of [int]s. *)
Definition zsum (l : list Z) : Z := fold_left Z.add l 0.

(** [len] *)
Definition len {A} (l : list A) : Z := Z.of_nat (length l).
Definition slen (s : string) : Z := Z.of_nat (String.length s).

(** [grade]: the letter only; the label is fixed by the letter. *)
Inductive letter : Type := A | B | C | D | E.

Definition grade (score : Z) : letter :=
  if 90 <=? score then A
  else if 80 <=? score then B
  else if 70 <=? score then C
  else if 55 <=? score then D
  else E.

(* ===================================================================== *)
(** * Models *)
(* ===================================================================== *)

(** The findings. The program stores each as a fixed sentence; the
    constructors name the sentences, wins first, in the order of the
    rule list of [audit_from_dom]. *)
Inductive finding : Type :=
  | win_title_set
  | issue_title_missing
  | win_description_set
  | issue_description_missing
  | win_canonical_set
  | issue_canonical_missing
  | win_single_h1
  | issue_h1_missing
  | issue_h1_multiple
  | win_schema_found
  | issue_schema_missing
  | issue_no_internal_links
  | issue_few_internal_links
  | issue_images_missing_alt
  | win_images_alt_ok
  | win_social_present
  | issue_social_missing
  | issue_short_content
  | issue_noindex
  | issue_page_not_loaded.

Module PageAudit.
Record t : Type := mk {
  url : string;
  final_url : string;
  status : option Z;
  load_time_sec : float;
  title : string;
  meta_description : string;
  meta_robots : string;
  canonical : string;
  lang : string;
  viewport : bool;
  og : PyDict.dict string;
  twitter : PyDict.dict string;
  h1 : list string;
  h2 : list string;
  h3 : list string;
  word_count : Z;
  internal_links : Z;
  external_links : Z;
  anchor_links : Z;
  nofollow_links : Z;
  images : Z;
  images_missing_alt : Z;
  schema_types : list string;
  issues : list finding;
  wins : list finding
}.

(** [PageAudit(url=.., final_url=.., status=.., load_time_sec=..)]:
    every other field at its default. *)
Definition new (url final_url : string) (status : option Z)
    (load_time_sec : float) : t :=
  {| url := url; final_url := final_url; status := status;
     load_time_sec := load_time_sec;
     title := ""; meta_description := ""; meta_robots := "";
     canonical := ""; lang := ""; viewport := false;
     og := []; twitter := [];
     h1 := []; h2 := []; h3 := [];
     word_count := 0;
     internal_links := 0; external_links := 0; anchor_links := 0;
     nofollow_links := 0;
     images := 0; images_missing_alt := 0;
     schema_types := [];
     issues := []; wins := [] |}.
End PageAudit.

Module SiteAudit.
Record t : Type := mk {
  start_url : string;
  host : string;
  pages : list PageAudit.t;
  robots_url : string;
  sitemap_url : string;
  llms_url : string;
  robots_ok : option bool;
  sitemap_ok : option bool;
  llms_ok : option bool
}.

(** [SiteAudit(start_url=.., host=..)] *)
Definition new (start_url host : string) : t :=
  {| start_url := start_url; host := host; pages := [];
     robots_url := ""; sitemap_url := ""; llms_url := "";
     robots_ok := None; sitemap_ok := None; llms_ok := None |}.
End SiteAudit.

(** Truthiness of an [Optional[bool]] and of an [Optional[int]]. *)
Definition truthy_flag (b : option bool) : bool :=
  match b with Some true => true | _ => false end.

Definition truthy_int (z : option Z) : bool :=
  match z with Some n => negb (n =? 0) | None => false end.

(* ===================================================================== *)
(** * Structured-data types *)
(* ===================================================================== *)

(** What [json.loads] returns. A [dict] is listed in key order, each key
    once. *)
Inductive json : Type :=
  | JNull
  | JBool (b : bool)
  | JInt (n : Z)
  | JFloat (x : float)
  | JStr (s : string)
  | JList (items : list json)
  | JDict (fields : list (string * json)).

(** The strict parser: [None] when [json.loads] raises. *)
Class JsonLib : Type := { json_loads : string -> option json }.

(** The double quote, and a string between double quotes. *)
Definition dquote : ascii := "034"%char.

Definition quoted (s : string) : string :=
  String dquote (s ++ String dquote EmptyString).

(** The key [@type], as a dictionary key. *)
Definition at_type : string := "@type".

(** The strings of a list [t] found under the key [@type]. *)
Fixpoint type_strings (t : list json) : gset string :=
  match t with
  | [] => ∅
  | JStr x :: t' => {[ x ]} ∪ type_strings t'
  | _ :: t' => type_strings t'
  end.

(** What one [dict] adds through its own [@type] entry. *)
Definition own_types (fields : list (string * json)) : gset string :=
  match PyDict.get fields at_type with
  | Some (JStr t) => {[ t ]}
  | Some (JList t) => type_strings t
  | _ => ∅
  end.

(** [walk]: the type names added to [types] by one parsed value. *)
Fixpoint walk (obj : json) : gset string :=
  match obj with
  | JDict fields =>
      own_types fields ∪
      (fix walk_values (fs : list (string * json)) : gset string :=
         match fs with
         | [] => ∅
         | (_, v) :: fs' => walk v ∪ walk_values fs'
         end) fields
  | JList items =>
      (fix walk_items (l : list json) : gset string :=
         match l with
         | [] => ∅
         | it :: l' => walk it ∪ walk_items l'
         end) items
  | _ => ∅
  end.

(** ** The fallback pattern

    [JSONLD_TYPE_RE] reads: the quoted key [@type] (letters in either
    case), [\s*], a colon, [\s*], then either a quote, one or more
    characters other than a quote, and a quote (group 2 is what lies
    between the quotes), or an opening bracket, one or more characters
    other than a closing bracket, and a closing bracket (group 3 is what
    lies between the brackets). No step of it can succeed in two ways, so
    matching at a position is a function. *)

(** The longest prefix free of [stop], and what follows it. *)
Fixpoint span_not (stop : ascii) (s : string) : string * string :=
  match s with
  | EmptyString => (EmptyString, EmptyString)
  | String c s' =>
      if Ascii.eqb c stop then (EmptyString, s)
      else let '(a, b) := span_not stop s' in (String c a, b)
  end.

(** [\s*]: the number of characters skipped, and what follows. *)
Fixpoint skip_ws (s : string) : nat * string :=
  match s with
  | EmptyString => (0%nat, s)
  | String c s' =>
      if py_isspace c then let '(n, r) := skip_ws s' in (S n, r) else (0%nat, s)
  end.

(** A literal, letters compared without case. *)
Fixpoint ci_prefix (pat s : string) : option string :=
  match pat, s with
  | EmptyString, _ => Some s
  | String p pat', String c s' =>
      if Ascii.eqb (lower_char c) p then ci_prefix pat' s' else None
  | String _ _, EmptyString => None
  end.

(** One delimited group: [open], one or more characters other than
    [close], [close]. Gives the group and the number of characters
    consumed. *)
Definition delimited (open close : ascii) (s : string) : option (string * nat) :=
  match s with
  | String c s' =>
      if Ascii.eqb c open then
        let '(body, rest) := span_not close s' in
        match body, rest with
        | String _ _, String _ _ => Some (body, (2 + String.length body)%nat)
        | _, _ => None
        end
      else None
  | EmptyString => None
  end.

(** The groups 2 and 3 of a match. *)
Inductive type_match : Type :=
  | single (g2 : string)
  | bracketed (g3 : string).

(** A match of [JSONLD_TYPE_RE] starting at the first character of [s]:
    its groups and its length. *)
Definition match_type_at (s : string) : option (type_match * nat) :=
  match ci_prefix (quoted at_type) s with
  | None => None
  | Some s1 =>
      let '(n1, s2) := skip_ws s1 in
      match s2 with
      | String ":" s3 =>
          let '(n2, s4) := skip_ws s3 in
          match delimited dquote dquote s4 with
          | Some (g, n) => Some (single g, (7 + n1 + 1 + n2 + n)%nat)
          | None =>
              match delimited "[" "]" s4 with
              | Some (g, n) => Some (bracketed g, (7 + n1 + 1 + n2 + n)%nat)
              | None => None
              end
          end
      | _ => None
      end
  end.

(** [JSONLD_TYPE_RE.finditer(raw)]: the matches from left to right, none
    overlapping. [skip] counts the characters still covered by the last
    match. *)
Fixpoint finditer (skip : nat) (s : string) : list type_match :=
  match s with
  | EmptyString => []
  | String _ s' =>
      match skip with
      | S k => finditer k s'
      | O =>
          match match_type_at s with
          | Some (m, n) => m :: finditer (n - 1) s'
          | None => finditer 0 s'
          end
      end
  end.

(** [re.findall] of a quote, one or more characters other than a quote,
    and a quote: the texts between the quotes. *)
Fixpoint findall_quoted (skip : nat) (s : string) : list string :=
  match s with
  | EmptyString => []
  | String _ s' =>
      match skip with
      | S k => findall_quoted k s'
      | O =>
          match delimited dquote dquote s with
          | Some (g, n) => g :: findall_quoted (n - 1) s'
          | None => findall_quoted 0 s'
          end
      end
  end.

(** The type names the fallback adds for one block. *)
Definition fallback_types (raw : string) : gset string :=
  foldr (fun m acc =>
           match m with
           | single g2 => {[ g2 ]} ∪ acc
           | bracketed g3 => list_to_set (findall_quoted 0 g3) ∪ acc
           end) ∅ (finditer 0 raw).

(** The body of the loop of [extract_schema_types_from_jsonld_blocks]:
    what one block adds to [types]. *)
Definition block_types `{JsonLib} (raw : string) : gset string :=
  let raw := strip raw in
  if negb (truthy raw) then ∅
  else match json_loads raw with
       | Some data => walk data
       | None => fallback_types raw
       end.

(** [sorted(types)] *)
Definition sorted (types : gset string) : list string :=
  merge_sort String.le (elements types).

(** [extract_schema_types_from_jsonld_blocks] *)
Definition extract_schema_types_from_jsonld_blocks `{JsonLib}
    (jsonld_blocks : list string) : list string :=
  sorted (fold_left (fun types raw => types ∪ block_types raw) jsonld_blocks ∅).

(* ===================================================================== *)
(** * Page signal extractor *)
(* ===================================================================== *)

(** A [for] loop whose body can raise: the state after the last round, or
    [None] as soon as a round raises. *)
Fixpoint for_each {S X : Type} (body : S -> X -> option S) (xs : list X) (s : S)
    : option S :=
  match xs with
  | [] => Some s
  | x :: xs' => s' ← body s x; for_each body xs' s'
  end.

(** [host] *)
Definition host `{UrlLib} (url : string) : option string :=
  r ← urlparse url;
  Some (lower (ParseResult.netloc r)).

(** [same_host] *)
Definition same_host `{UrlLib} (a b : string) : option bool :=
  ha ← host a;
  hb ← host b;
  Some (String.eqb ha hb).

(** A [meta] element: its [property], [name] and [content] attributes. *)
Record MetaTag : Type := {
  meta_property : option string;
  meta_name : option string;
  meta_content : option string
}.

(** What the program reads in the parsed document [BeautifulSoup(html)].
    An attribute that is absent, or whose element is absent, is a
    [None]. *)
Record Soup : Type := {
  (** [lang] of the first [html] element *)
  html_lang : option string;
  (** is there a [meta] named [viewport] *)
  has_viewport : bool;
  (** [get_text(strip=True)] of the first [title] element *)
  title_text : option string;
  (** [content] of the first [meta] named [description] *)
  description_content : option string;
  (** [content] of the first [meta] whose name matches [robots] *)
  robots_content : option string;
  (** [href] of the first [link] whose [rel] matches [canonical] *)
  canonical_href : option string;
  (** every [meta] element, in document order *)
  metas : list MetaTag;
  (** the texts of the headings, in document order *)
  h1_texts : list string;
  h2_texts : list string;
  h3_texts : list string;
  (** [get_text(" ", strip=True)] once the script, style and noscript
      elements are removed *)
  visible_text : string;
  (** the [alt] attribute of every [img] element left after that removal *)
  img_alts : list (option string);
  (** [href] of every [a] element that has one, in document order *)
  anchor_hrefs : list string
}.

(** The HTML parser: [BeautifulSoup(html, "lxml")]. *)
Class HtmlLib : Type := { parse_html : string -> Soup }.

(** Truthiness of an attribute value: present and not empty. *)
Definition attr_truthy (a : option string) : bool :=
  match a with Some s => truthy s | None => false end.

(** [a or ""] *)
Definition attr_or_empty (a : option string) : string :=
  match a with Some s => s | None => "" end.

(** [extract_visible_text] *)
Definition extract_visible_text (soup : Soup) : string :=
  strip (collapse_ws false (visible_text soup)).

(** [is_anchor_link] *)
Definition is_anchor_link (href : string) : bool :=
  if negb (truthy href) then false
  else
    let href := strip href in
    if startswith href "#" then true
    else if startswith href "/#" then true
    else false.

(** [href.startswith(("mailto:", "tel:", "javascript:"))] *)
Definition is_skippable (href : string) : bool :=
  startswith href "mailto:" || startswith href "tel:"
  || startswith href "javascript:".

(** The four counters of the link loops. *)
Record link_counts : Type := {
  internal : Z;
  external : Z;
  nofollow : Z;
  anchors : Z
}.

(** One round of the loop over [hrefs]. [same_host] is asked only about
    a URL that begins with [http]. *)
Definition count_href `{UrlLib} (final_url : string) (c : link_counts)
    (href : string) : option link_counts :=
  let href := strip href in
  if negb (truthy href) then Some c
  else if is_skippable href then Some c
  else if is_anchor_link href then
    Some {| internal := internal c + 1; external := external c;
            nofollow := nofollow c; anchors := anchors c + 1 |}
  else
    joined ← urljoin final_url href;
    absu ← norm_url joined;
    same ← (if startswith absu "http" then same_host final_url absu
            else Some false);
    if (same : bool) then
      Some {| internal := internal c + 1; external := external c;
              nofollow := nofollow c; anchors := anchors c |}
    else if negb (startswith absu "http") then
      Some {| internal := internal c + 1; external := external c;
              nofollow := nofollow c; anchors := anchors c |}
    else
      Some {| internal := internal c; external := external c + 1;
              nofollow := nofollow c; anchors := anchors c |}.

(** [x in rels] *)
Definition in_list (x : string) (l : list string) : bool :=
  existsb (String.eqb x) l.

(** One round of the loop over [link_rel_data]. *)
Definition count_rel (c : link_counts) (hr : string * list string)
    : link_counts :=
  let '(href, rels) := hr in
  if negb (truthy href) then c
  else
    let href := strip href in
    if is_skippable href then c
    else if in_list "nofollow" rels then
      {| internal := internal c; external := external c;
         nofollow := nofollow c + 1; anchors := anchors c |}
    else c.

(** Both link loops, from counters at zero. *)
Definition count_links `{UrlLib} (final_url : string) (hrefs : list string)
    (link_rel_data : list (string * list string)) : option link_counts :=
  let c0 := {| internal := 0; external := 0; nofollow := 0; anchors := 0 |} in
  c ← for_each (count_href final_url) hrefs c0;
  Some (fold_left count_rel link_rel_data c).

(** One round of the loop over the [meta] elements: the [og] and
    [twitter] dictionaries. *)
Definition social_meta (acc : PyDict.dict string * PyDict.dict string)
    (m : MetaTag) : PyDict.dict string * PyDict.dict string :=
  let '(og, twitter) := acc in
  let prop := if attr_truthy (meta_property m) then meta_property m
              else meta_name m in
  let content := meta_content m in
  if negb (attr_truthy prop) || negb (attr_truthy content) then acc
  else
    let prop := strip (attr_or_empty prop) in
    let content := strip (attr_or_empty content) in
    let og := if startswith prop "og:" then PyDict.set og prop content else og in
    let twitter := if startswith prop "twitter:"
                   then PyDict.set twitter prop content else twitter in
    (og, twitter).

(** [alt is None or not alt.strip()] *)
Definition alt_missing (alt : option string) : bool :=
  match alt with
  | None => true
  | Some a => negb (truthy (strip a))
  end.

(** ["noindex" in p.meta_robots.lower()], guarded by [p.meta_robots]. *)
Definition has_noindex (meta_robots : string) : bool :=
  truthy meta_robots && contains "noindex" (lower meta_robots).

(** The rule list at the end of [audit_from_dom]: the wins and the issues
    a record with these fields receives, each in the order of the
    rules. *)
Definition page_wins (p : PageAudit.t) : list finding :=
  (if truthy (PageAudit.title p) then [win_title_set] else [])
  ++ (if truthy (PageAudit.meta_description p) then [win_description_set] else [])
  ++ (if truthy (PageAudit.canonical p) then [win_canonical_set] else [])
  ++ (if len (PageAudit.h1 p) =? 1 then [win_single_h1] else [])
  ++ (if negb (bool_decide (PageAudit.schema_types p = []))
      then [win_schema_found] else [])
  ++ (if (0 <? PageAudit.images p) && (0 <? PageAudit.images_missing_alt p)
      then [] else [win_images_alt_ok])
  ++ (if PyDict.truthy (PageAudit.og p) || PyDict.truthy (PageAudit.twitter p)
      then [win_social_present] else []).

Definition page_issues (p : PageAudit.t) : list finding :=
  (if truthy (PageAudit.title p) then [] else [issue_title_missing])
  ++ (if truthy (PageAudit.meta_description p) then []
      else [issue_description_missing])
  ++ (if truthy (PageAudit.canonical p) then [] else [issue_canonical_missing])
  ++ (if len (PageAudit.h1 p) =? 1 then []
      else if len (PageAudit.h1 p) =? 0 then [issue_h1_missing]
      else [issue_h1_multiple])
  ++ (if negb (bool_decide (PageAudit.schema_types p = [])) then []
      else [issue_schema_missing])
  ++ (if PageAudit.internal_links p =? 0 then [issue_no_internal_links]
      else if PageAudit.internal_links p <? 3 then [issue_few_internal_links]
      else [])
  ++ (if (0 <? PageAudit.images p) && (0 <? PageAudit.images_missing_alt p)
      then [issue_images_missing_alt] else [])
  ++ (if PyDict.truthy (PageAudit.og p) || PyDict.truthy (PageAudit.twitter p)
      then [] else [issue_social_missing])
  ++ (if PageAudit.word_count p <? 80 then [issue_short_content] else [])
  ++ (if has_noindex (PageAudit.meta_robots p) then [issue_noindex] else []).

(** [audit_from_dom]. The two places that call [urljoin], the canonical
    link and the loop over [hrefs], can raise. *)
Definition audit_from_dom `{UrlLib} `{JsonLib} `{HtmlLib}
    (url final_url : string) (status : Z) (load_time_sec : float)
    (html : string) (jsonld_blocks hrefs : list string)
    (link_rel_data : list (string * list string)) : option PageAudit.t :=
  let soup := parse_html html in
  let lang := if attr_truthy (html_lang soup)
              then strip (attr_or_empty (html_lang soup)) else "" in
  let title := match title_text soup with
               | Some t => strip t
               | None => ""
               end in
  let meta_description :=
    if attr_truthy (description_content soup)
    then strip (attr_or_empty (description_content soup)) else "" in
  let meta_robots :=
    if attr_truthy (robots_content soup)
    then strip (attr_or_empty (robots_content soup)) else "" in
  canonical ←
    (if attr_truthy (canonical_href soup)
     then urljoin final_url (strip (attr_or_empty (canonical_href soup)))
     else Some "");
  let '(og, twitter) := fold_left social_meta (metas soup) ([], []) in
  let text := extract_visible_text soup in
  let word_count := if truthy text then Z.of_nat (count_words false text) else 0 in
  let imgs := img_alts soup in
  let missing_alt := len (filter (fun a => Is_true (alt_missing a)) imgs) in
  c ← count_links final_url hrefs link_rel_data;
  let p :=
    {| PageAudit.url := url; PageAudit.final_url := final_url;
       PageAudit.status := Some status;
       PageAudit.load_time_sec := load_time_sec;
       PageAudit.title := title;
       PageAudit.meta_description := meta_description;
       PageAudit.meta_robots := meta_robots;
       PageAudit.canonical := canonical;
       PageAudit.lang := lang;
       PageAudit.viewport := has_viewport soup;
       PageAudit.og := og; PageAudit.twitter := twitter;
       PageAudit.h1 := h1_texts soup;
       PageAudit.h2 := h2_texts soup;
       PageAudit.h3 := h3_texts soup;
       PageAudit.word_count := word_count;
       PageAudit.internal_links := internal c;
       PageAudit.external_links := external c;
       PageAudit.anchor_links := anchors c;
       PageAudit.nofollow_links := nofollow c;
       PageAudit.images := len imgs;
       PageAudit.images_missing_alt := missing_alt;
       PageAudit.schema_types :=
         extract_schema_types_from_jsonld_blocks jsonld_blocks;
       PageAudit.issues := []; PageAudit.wins := [] |} in
  Some
    {| PageAudit.url := PageAudit.url p;
       PageAudit.final_url := PageAudit.final_url p;
       PageAudit.status := PageAudit.status p;
       PageAudit.load_time_sec := PageAudit.load_time_sec p;
       PageAudit.title := PageAudit.title p;
       PageAudit.meta_description := PageAudit.meta_description p;
       PageAudit.meta_robots := PageAudit.meta_robots p;
       PageAudit.canonical := PageAudit.canonical p;
       PageAudit.lang := PageAudit.lang p;
       PageAudit.viewport := PageAudit.viewport p;
       PageAudit.og := PageAudit.og p; PageAudit.twitter := PageAudit.twitter p;
       PageAudit.h1 := PageAudit.h1 p;
       PageAudit.h2 := PageAudit.h2 p;
       PageAudit.h3 := PageAudit.h3 p;
       PageAudit.word_count := PageAudit.word_count p;
       PageAudit.internal_links := PageAudit.internal_links p;
       PageAudit.external_links := PageAudit.external_links p;
       PageAudit.anchor_links := PageAudit.anchor_links p;
       PageAudit.nofollow_links := PageAudit.nofollow_links p;
       PageAudit.images := PageAudit.images p;
       PageAudit.images_missing_alt := PageAudit.images_missing_alt p;
       PageAudit.schema_types := PageAudit.schema_types p;
       PageAudit.issues := page_issues p;
       PageAudit.wins := page_wins p |}.

(* ===================================================================== *)
(** * Page scorer *)
(* ===================================================================== *)

Definition TITLE_MIN : Z := 15.
Definition TITLE_MAX : Z := 65.
Definition DESC_MIN : Z := 70.
Definition DESC_MAX : Z := 160.
Definition MIN_WORDS_OK : Z := 250.

(** The six keys of the breakdown, in the order the dictionary is built. *)
Definition categories : list string :=
  ["meta"; "content"; "structure"; "schema"; "links_media"; "basics_perf"].

(** The ceilings of the six categories, in the order of [categories]. *)
Definition ceilings : list Z := [25; 25; 15; 15; 10; 10].

(** The preferred structured-data types. *)
Definition preferred : list string :=
  ["Organization"; "LocalBusiness"; "ProfessionalService"; "Person"; "WebSite"].

Definition meta_points (p : PageAudit.t) : Z :=
  let meta := 0 in
  let meta :=
    if truthy (PageAudit.title p) then
      meta + (if (TITLE_MIN <=? slen (PageAudit.title p))
                 && (slen (PageAudit.title p) <=? TITLE_MAX) then 10 else 6)
    else meta in
  let meta :=
    if truthy (PageAudit.meta_description p) then
      meta + (if (DESC_MIN <=? slen (PageAudit.meta_description p))
                 && (slen (PageAudit.meta_description p) <=? DESC_MAX)
              then 10 else 6)
    else meta in
  if truthy (PageAudit.canonical p) then meta + 5 else meta.

Definition content_points (p : PageAudit.t) : Z :=
  let content := 0 in
  let content :=
    if MIN_WORDS_OK <=? PageAudit.word_count p then content + 12
    else if 150 <=? PageAudit.word_count p then content + 8
    else if 80 <=? PageAudit.word_count p then content + 4
    else content in
  let content := if 1 <=? len (PageAudit.h2 p) then content + 6 else content in
  let content := if 1 <=? len (PageAudit.h3 p) then content + 3 else content in
  if truthy (PageAudit.lang p) then content + 4 else content.

Definition structure_points (p : PageAudit.t) : Z :=
  let struct := 0 in
  let struct :=
    if len (PageAudit.h1 p) =? 1 then struct + 10
    else if 1 <? len (PageAudit.h1 p) then struct + 6
    else struct in
  if PageAudit.viewport p then struct + 5 else struct.

Definition schema_points (p : PageAudit.t) : Z :=
  match PageAudit.schema_types p with
  | [] => 0
  | _ => if existsb (fun t => in_list t preferred) (PageAudit.schema_types p)
         then 15 else 12
  end.

(** The links and media points. The ratio of images without [alt] is a
    quotient of two [int]s, which raises when it is too large for a
    float. *)
Definition links_media_points (p : PageAudit.t) : option Z :=
  let lm := 0 in
  lm ←
    (if PageAudit.images p =? 0 then Some (lm + 2)
     else
       missing_ratio ←
         truediv (PageAudit.images_missing_alt p) (Z.max 1 (PageAudit.images p));
       Some (lm + (if feq missing_ratio (of_int 0) then 5
                   else if fle missing_ratio f0_25 then 3 else 1)));
  let lm := lm + (if 3 <=? PageAudit.internal_links p then 3
                  else if 1 <=? PageAudit.internal_links p then 2 else 0) in
  Some (lm + (if 1 <=? PageAudit.external_links p then 2 else 0)).

(** The load-time term of [basics_perf]. *)
Definition load_points (load_time_sec : float) : Z :=
  if flt load_time_sec f2_0 then 6
  else if flt load_time_sec f4_0 then 4
  else if flt load_time_sec f6_0 then 2
  else 0.

Definition basics_perf_points (p : PageAudit.t) : Z :=
  let bp := 0 in
  let bp :=
    if truthy_int (PageAudit.status p)
       && match PageAudit.status p with
          | Some s => (200 <=? s) && (s <? 300)
          | None => false
          end
    then bp + 4 else bp in
  let bp := if has_noindex (PageAudit.meta_robots p) then bp - 4 else bp in
  bp + load_points (PageAudit.load_time_sec p).

(** [score_page] *)
Definition score_page (p : PageAudit.t) : option (Z * PyDict.dict Z) :=
  let breakdown := map (fun k => (k, 0)) categories in
  let breakdown := PyDict.set breakdown "meta" (clamp (meta_points p) 0 25) in
  let breakdown := PyDict.set breakdown "content" (clamp (content_points p) 0 25) in
  let breakdown :=
    PyDict.set breakdown "structure" (clamp (structure_points p) 0 15) in
  let breakdown := PyDict.set breakdown "schema" (clamp (schema_points p) 0 15) in
  lm ← links_media_points p;
  let breakdown := PyDict.set breakdown "links_media" (clamp lm 0 10) in
  let breakdown :=
    PyDict.set breakdown "basics_perf" (clamp (basics_perf_points p) 0 10) in
  Some (zsum (PyDict.values breakdown), breakdown).

(* ===================================================================== *)
(** * Site aggregator *)
(* ===================================================================== *)

(** The dictionary [sector_scores] returns has six fixed keys; a field
    stands for each, named after the local variable stored under it:
    crawlability and indexing, content and structure, structured data,
    links and media, basic performance, social sharing. *)
Record sectors : Type := {
  rast : Z;
  content : Z;
  schema : Z;
  links_media : Z;
  perf : Z;
  social : Z
}.

(** [sum(1 for p in pages if cond(p))] *)
Definition count_if (cond : PageAudit.t -> bool) (pages : list PageAudit.t) : Z :=
  zsum (map (fun _ => 1) (filter (fun p => Is_true (cond p)) pages)).

(** [sum(1 for p in pages if cond(p)) / len(pages)] *)
Definition share (cond : PageAudit.t -> bool) (pages : list PageAudit.t)
    : option float :=
  truediv (count_if cond pages) (len pages).

(** [x * n] for a float [x] and an [int] [n] *)
Definition scale (x : float) (n : Z) : float := fmul x (of_int n).

(** [sector_scores] *)
Definition sector_scores (site : SiteAudit.t) : option sectors :=
  let pages := SiteAudit.pages site in
  match pages with
  | [] => Some {| rast := 0; content := 0; schema := 0; links_media := 0;
                  perf := 0; social := 0 |}
  | _ =>
    let rast := 0 in
    let rast := rast + (if truthy_flag (SiteAudit.robots_ok site) then 34 else 0) in
    let rast := rast + (if truthy_flag (SiteAudit.sitemap_ok site) then 33 else 0) in
    let rast := rast + (if truthy_flag (SiteAudit.llms_ok site) then 33 else 0) in
    let rast := clamp rast 0 100 in
    ok_h1 ← share (fun p => len (PageAudit.h1 p) =? 1) pages;
    ok_desc ← share (fun p => truthy (PageAudit.meta_description p)) pages;
    ok_title ← share (fun p => truthy (PageAudit.title p)) pages;
    ok_words ← share (fun p => 150 <=? PageAudit.word_count p) pages;
    ok_lang ← share (fun p => truthy (PageAudit.lang p)) pages;
    let content :=
      to_int (fadd (fadd (fadd (fadd (scale ok_h1 25) (scale ok_title 25))
                               (scale ok_desc 20))
                         (scale ok_words 20))
                   (scale ok_lang 10)) in
    let content := clamp content 0 100 in
    ok_schema ← share (fun p =>
                  negb (bool_decide (PageAudit.schema_types p = []))) pages;
    let schema := to_int (scale ok_schema 100) in
    let schema := clamp schema 0 100 in
    ok_alt ← share (fun p => (PageAudit.images p =? 0)
                             || (PageAudit.images_missing_alt p =? 0)) pages;
    ok_internal ← share (fun p => 1 <=? PageAudit.internal_links p) pages;
    let links_media := to_int (fadd (scale ok_alt 50) (scale ok_internal 50)) in
    let links_media := clamp links_media 0 100 in
    let avg := fdiv (fsum (map PageAudit.load_time_sec pages)) (of_int (len pages)) in
    let perf :=
      if flt avg f2_0 then 95
      else if flt avg f4_0 then 85
      else if flt avg f6_0 then 70
      else 55 in
    ok_social ← share (fun p => PyDict.truthy (PageAudit.og p)
                                || PyDict.truthy (PageAudit.twitter p)) pages;
    let social := to_int (scale ok_social 100) in
    Some {| rast := rast; content := content; schema := schema;
            links_media := links_media; perf := perf; social := social |}
  end.

(** The float [score] of [overall_score], before rounding. *)
Definition weighted_sum (sec : sectors) : float :=
  fadd (fadd (fadd (fadd (fadd (fmul (of_int (rast sec)) f0_20)
                               (fmul (of_int (content sec)) f0_25))
                         (fmul (of_int (schema sec)) f0_20))
                   (fmul (of_int (links_media sec)) f0_15))
             (fmul (of_int (perf sec)) f0_10))
       (fmul (of_int (social sec)) f0_10).


(** [overall_score] *)
Definition overall_score (site : SiteAudit.t) : option Z :=
  sec ← sector_scores site;
  Some (PyFloat.round (weighted_sum sec)).

(* ===================================================================== *)
(** * Crawl *)
(* ===================================================================== *)

(** [discover_internal_links], as a loop over the [href]s of the [a]
    elements with [links] as the list built so far. *)
Fixpoint discover_loop `{UrlLib} (final_url : string) (max_new : Z)
    (hrefs : list string) (links : list string) : option (list string) :=
  match hrefs with
  | [] => Some links
  | a :: rest =>
      let href := strip a in
      if negb (truthy href) || is_skippable href || startswith href "#"
      then discover_loop final_url max_new rest links
      else
        joined ← urljoin final_url href;
        absu ← norm_url joined;
        same ← same_host final_url absu;
        let links := if (same : bool) then (links ++ [absu])%list else links in
        if max_new <=? len links then Some links
        else discover_loop final_url max_new rest links
  end.

Definition discover_internal_links `{UrlLib} (final_url : string) (soup : Soup)
    (max_new : Z) : option (list string) :=
  discover_loop final_url max_new (anchor_hrefs soup) [].

(** What [fetch_page_dom] returns. *)
Record Fetched : Type := {
  f_status : Z;
  f_final_url : string;
  f_load_time : float;
  f_html : string;
  f_jsonld_blocks : list string;
  f_hrefs : list string;
  f_link_rel_data : list (string * list string)
}.

(** The browser session. A [world] is all the state outside the program
    that a call may read and change. *)
Class Browser (world : Type) : Type := {
  (** [fetch_page_dom(page, url, timeout_ms, cookie_accept_text)];
      [None] when it raises. *)
  fetch_page_dom : world -> string -> Z -> string -> world * option Fetched;
  (** [(await page.request.get(url, timeout=timeout_ms)).ok]; [None] when
      the request raises. *)
  request_get_ok : world -> string -> Z -> world * option bool
}.

(** [check_endpoint_ok] *)
Definition check_endpoint_ok `{Browser world} (w : world) (url : string)
    (timeout_ms : Z) : world * bool :=
  match request_get_ok w url timeout_ms with
  | (w', Some ok) => (w', ok)
  | (w', None) => (w', false)
  end.

(** The record appended when the fetch raises. *)
Definition degraded (url : string) : PageAudit.t :=
  let pd := PageAudit.new url url (Some 0) f0_0 in
  {| PageAudit.url := PageAudit.url pd;
     PageAudit.final_url := PageAudit.final_url pd;
     PageAudit.status := PageAudit.status pd;
     PageAudit.load_time_sec := PageAudit.load_time_sec pd;
     PageAudit.title := PageAudit.title pd;
     PageAudit.meta_description := PageAudit.meta_description pd;
     PageAudit.meta_robots := PageAudit.meta_robots pd;
     PageAudit.canonical := PageAudit.canonical pd;
     PageAudit.lang := PageAudit.lang pd;
     PageAudit.viewport := PageAudit.viewport pd;
     PageAudit.og := PageAudit.og pd; PageAudit.twitter := PageAudit.twitter pd;
     PageAudit.h1 := PageAudit.h1 pd;
     PageAudit.h2 := PageAudit.h2 pd;
     PageAudit.h3 := PageAudit.h3 pd;
     PageAudit.word_count := PageAudit.word_count pd;
     PageAudit.internal_links := PageAudit.internal_links pd;
     PageAudit.external_links := PageAudit.external_links pd;
     PageAudit.anchor_links := PageAudit.anchor_links pd;
     PageAudit.nofollow_links := PageAudit.nofollow_links pd;
     PageAudit.images := PageAudit.images pd;
     PageAudit.images_missing_alt := PageAudit.images_missing_alt pd;
     PageAudit.schema_types := PageAudit.schema_types pd;
     PageAudit.issues := (PageAudit.issues pd ++ [issue_page_not_loaded])%list;
     PageAudit.wins := PageAudit.wins pd |}.

(** [site.pages.append(pd)] *)
Definition append_page (site : SiteAudit.t) (pd : PageAudit.t) : SiteAudit.t :=
  {| SiteAudit.start_url := SiteAudit.start_url site;
     SiteAudit.host := SiteAudit.host site;
     SiteAudit.pages := (SiteAudit.pages site ++ [pd])%list;
     SiteAudit.robots_url := SiteAudit.robots_url site;
     SiteAudit.sitemap_url := SiteAudit.sitemap_url site;
     SiteAudit.llms_url := SiteAudit.llms_url site;
     SiteAudit.robots_ok := SiteAudit.robots_ok site;
     SiteAudit.sitemap_ok := SiteAudit.sitemap_ok site;
     SiteAudit.llms_ok := SiteAudit.llms_ok site |}.

(** One round of the loop over [new_links] at the end of a round of the
    crawl: the queue after it. [same_host] is asked only about a link that
    is neither visited nor queued. *)
Definition enqueue `{UrlLib} (start_url : string) (visited : gset string)
    (queue : list string) (lk : string) : option (list string) :=
  if bool_decide (lk ∉ visited) && bool_decide (lk ∉ queue) then
    same ← same_host start_url lk;
    Some (if (same : bool) then (queue ++ [lk])%list else queue)
  else Some queue.

Definition enqueue_all `{UrlLib} (start_url : string) (visited : gset string)
    (queue : list string) (new_links : list string) : option (list string) :=
  for_each (enqueue start_url visited) new_links queue.

(** The variables of the loop of [run_audit]. *)
Record crawl (world : Type) : Type := {
  site : SiteAudit.t;
  visited : gset string;
  queue : list string;
  session : world
}.
Arguments site {world}.
Arguments visited {world}.
Arguments queue {world}.
Arguments session {world}.
Arguments Build_crawl {world}.

(** How a round of the [while] loop ends: the loop condition is false,
    the round is done and leaves the loop variables [st], or an exception
    leaves the loop. *)
Inductive round_end (world : Type) : Type :=
  | loop_exits
  | round_ends (st : crawl world)
  | round_raises.
Arguments loop_exits {world}.
Arguments round_ends {world}.
Arguments round_raises {world}.

(** How a call that loops ends: it returns, it raises, or the rounds
    granted to its loop do not suffice. *)
Inductive outcome (X : Type) : Type :=
  | returned (x : X)
  | raised
  | unfinished.
Arguments returned {X}.
Arguments raised {X}.
Arguments unfinished {X}.

Section Crawl.
Context `{UrlLib} `{JsonLib} `{HtmlLib} {world : Type} `{Browser world}.
Variables (max_pages timeout_ms : Z) (cookie_accept_text : string).

(** One round of the [while] loop. Only the fetch is inside the [try]:
    an exception of [norm_url], of [audit_from_dom], of
    [discover_internal_links] or of [same_host] leaves the loop. *)
Definition crawl_round (st : crawl world) : round_end world :=
  match queue st with
  | [] => loop_exits
  | q :: rest =>
      if len (SiteAudit.pages (site st)) <? max_pages then
        match norm_url q with
        | None => round_raises
        | Some url =>
            if bool_decide (url ∈ visited st) then
              round_ends (Build_crawl (site st) (visited st) rest (session st))
            else
              let visited' := {[ url ]} ∪ visited st in
              match fetch_page_dom (session st) url timeout_ms
                      cookie_accept_text with
              | (w', None) =>
                  round_ends (Build_crawl (append_page (site st) (degraded url))
                                visited' rest w')
              | (w', Some r) =>
                  match audit_from_dom url (f_final_url r) (f_status r)
                          (f_load_time r) (f_html r) (f_jsonld_blocks r)
                          (f_hrefs r) (f_link_rel_data r) with
                  | None => round_raises
                  | Some pd =>
                      let soup := parse_html (f_html r) in
                      match discover_internal_links (f_final_url r) soup 80 with
                      | None => round_raises
                      | Some new_links =>
                          match enqueue_all (SiteAudit.start_url (site st))
                                  visited' rest new_links with
                          | None => round_raises
                          | Some queue' =>
                              round_ends (Build_crawl (append_page (site st) pd)
                                            visited' queue' w')
                          end
                      end
                  end
              end
        end
      else loop_exits
  end.

(** The [while] loop, run for at most [fuel] rounds. *)
Fixpoint crawl_loop (fuel : nat) (st : crawl world) : outcome (crawl world) :=
  match crawl_round st with
  | loop_exits => returned st
  | round_raises => raised
  | round_ends st' =>
      match fuel with
      | O => unfinished
      | S fuel' => crawl_loop fuel' st'
      end
  end.
End Crawl.

(** The state of [run_audit] when it enters the loop; [None] when the
    start URL makes [norm_url] or [urlparse] raise. *)
Definition crawl_init `{UrlLib} {world : Type} `{Browser world} (w : world)
    (start_url : string) (timeout_sec : Z) : option (crawl world) :=
  start_url ← norm_url start_url;
  h ← host start_url;
  parts ← urlparse start_url;
  let base := ParseResult.scheme parts ++ "://" ++ h in
  let robots_url := base ++ "/robots.txt" in
  let sitemap_url := base ++ "/sitemap.xml" in
  let llms_url := base ++ "/llms.txt" in
  let timeout_ms := timeout_sec * 1000 in
  let '(w, robots_ok) := check_endpoint_ok w robots_url timeout_ms in
  let '(w, sitemap_ok) := check_endpoint_ok w sitemap_url timeout_ms in
  let '(w, llms_ok) := check_endpoint_ok w llms_url timeout_ms in
  Some {| site := {| SiteAudit.start_url := start_url; SiteAudit.host := h;
                     SiteAudit.pages := [];
                     SiteAudit.robots_url := robots_url;
                     SiteAudit.sitemap_url := sitemap_url;
                     SiteAudit.llms_url := llms_url;
                     SiteAudit.robots_ok := Some robots_ok;
                     SiteAudit.sitemap_ok := Some sitemap_ok;
                     SiteAudit.llms_ok := Some llms_ok |};
          visited := ∅;
          queue := [start_url];
          session := w |}.

(** [run_audit], its loop given [fuel] rounds: the site and the final
    state of the world. *)
Definition run_audit `{UrlLib} `{JsonLib} `{HtmlLib} {world : Type} `{Browser world}
    (fuel : nat) (w : world) (start_url : string) (max_pages timeout_sec : Z)
    (cookie_accept_text : string) : outcome (SiteAudit.t * world) :=
  match crawl_init w start_url timeout_sec with
  | None => raised
  | Some st0 =>
      match crawl_loop max_pages (timeout_sec * 1000) cookie_accept_text fuel
              st0 with
      | returned st => returned (site st, session st)
      | raised => raised
      | unfinished => unfinished
      end
  end.

(** Rounds that always suffice for [run_audit]: a round either appends a
    page, and at most 80 links with it, or only shortens the queue. *)
Definition enough_fuel (max_pages : Z) : nat :=
  Z.to_nat (1 + 81 * Z.max 0 max_pages).

(** What one reachability flag adds to the crawlability score: its weight
    when the flag is [True], nothing when it is [False] or [None]. *)
Definition flag_points (flag : option bool) (weight : Z) : Z :=
  match flag with
  | Some true => weight
  | Some false => 0
  | None => 0
  end.

(* ===================================================================== *)
(** * Collaborators of the examples *)
(* ===================================================================== *)

(** [urllib.parse] on the URLs of the examples, after CPython's
    [urlsplit], [urlunsplit] and [urljoin]. The examples hold no control
    character, no path parameters, no [.] or [..] segment and no host in
    brackets: a path keeps its parameters, relative paths are joined
    without resolving dot segments, and a bracketed host is accepted as
    soon as both brackets are there. *)
Module SimpleUrl.

Definition uses_relative : list string :=
  [""; "ftp"; "http"; "gopher"; "nntp"; "imap"; "wais"; "file"; "https";
   "shttp"; "mms"; "prospero"; "rtsp"; "rtspu"; "sftp"; "svn"; "svn+ssh";
   "ws"; "wss"].

Definition uses_netloc : list string :=
  [""; "ftp"; "http"; "gopher"; "nntp"; "telnet"; "imap"; "wais"; "file";
   "mms"; "https"; "shttp"; "snews"; "prospero"; "rtsp"; "rtspu"; "rsync";
   "svn"; "svn+ssh"; "sftp"; "nfs"; "git"; "git+ssh"; "ws"; "wss"].

Definition is_alpha (c : ascii) : bool :=
  let n := nat_of_ascii c in
  ((65 <=? n) && (n <=? 90) || (97 <=? n) && (n <=? 122))%nat.

(** The characters of a scheme: letters, digits, [+], [-] and [.]. *)
Definition scheme_char (c : ascii) : bool :=
  let n := nat_of_ascii c in
  (is_alpha c || (48 <=? n) && (n <=? 57)
   || (n =? 43) || (n =? 45) || (n =? 46))%nat.

Fixpoint all_of (test : ascii -> bool) (s : string) : bool :=
  match s with
  | EmptyString => true
  | String c s' => test c && all_of test s'
  end.

(** [s.split(c, 1)] when [c] occurs in [s]: the text before the first [c]
    and the text after it. *)
Fixpoint cut (c : ascii) (s : string) : option (string * string) :=
  match s with
  | EmptyString => None
  | String d s' =>
      if Ascii.eqb d c then Some (EmptyString, s')
      else match cut c s' with
           | Some (a, b) => Some (String d a, b)
           | None => None
           end
  end.

(** The longest prefix free of the characters [stop], and what follows. *)
Fixpoint span (stop : ascii -> bool) (s : string) : string * string :=
  match s with
  | EmptyString => (EmptyString, EmptyString)
  | String c s' =>
      if stop c then (EmptyString, s)
      else let '(a, b) := span stop s' in (String c a, b)
  end.

(** The scheme, in lower case, and the rest: the text before the first
    colon is a scheme when it begins with a letter and holds scheme
    characters only. *)
Definition split_scheme (url : string) : string * string :=
  match cut ":" url with
  | Some (String c0 pre, rest) =>
      if is_alpha c0 && all_of scheme_char (String c0 pre)
      then (lower (String c0 pre), rest)
      else (EmptyString, url)
  | _ => (EmptyString, url)
  end.

Definition netloc_end (c : ascii) : bool :=
  Ascii.eqb c "/" || Ascii.eqb c "?" || Ascii.eqb c "#".

(** The host part after [//], up to the first [/], [?] or [#]. *)
Definition split_netloc (url : string) : string * string :=
  match url with
  | String "/" (String "/" rest) => span netloc_end rest
  | _ => (EmptyString, url)
  end.

Definition or_whole (c : ascii) (s : string) : string * string :=
  match cut c s with
  | Some parts => parts
  | None => (s, EmptyString)
  end.

(** [urlparse]: a host with one bracket only is a [ValueError]. *)
Definition parse (url : string) : option ParseResult.t :=
  let '(scheme, url) := split_scheme url in
  let '(netloc, url) := split_netloc url in
  if xorb (has_char "[" netloc) (has_char "]" netloc) then None
  else
    let '(url, fragment) := or_whole "#" url in
    let '(url, query) := or_whole "?" url in
    Some (ParseResult.mk scheme netloc url "" query fragment).

(** [urlunparse] *)
Definition unparse (r : ParseResult.t) : string :=
  let url := if truthy (ParseResult.params r)
             then ParseResult.path r ++ ";" ++ ParseResult.params r
             else ParseResult.path r in
  let url :=
    if truthy (ParseResult.netloc r)
       || (truthy (ParseResult.scheme r)
           && in_list (ParseResult.scheme r) uses_netloc
           && negb (startswith url "//"))
    then "//" ++ ParseResult.netloc r
         ++ (if truthy url && negb (startswith url "/") then "/" ++ url
             else url)
    else url in
  let url := if truthy (ParseResult.scheme r)
             then ParseResult.scheme r ++ ":" ++ url else url in
  let url := if truthy (ParseResult.query r)
             then url ++ "?" ++ ParseResult.query r else url in
  if truthy (ParseResult.fragment r)
  then url ++ "#" ++ ParseResult.fragment r else url.

(** The text up to the last [/], the [/] included. *)
Fixpoint directory (path : string) : string :=
  match path with
  | EmptyString => EmptyString
  | String c rest =>
      if has_char "/" path then String c (directory rest) else EmptyString
  end.

(** [urljoin] *)
Definition join (base url : string) : option string :=
  if negb (truthy base) then Some url
  else if negb (truthy url) then Some base
  else
    b ← parse base;
    u ← parse url;
    let scheme := if truthy (ParseResult.scheme u) then ParseResult.scheme u
                  else ParseResult.scheme b in
    if negb (String.eqb scheme (ParseResult.scheme b))
       || negb (in_list scheme uses_relative)
    then Some url
    else if in_list scheme uses_netloc && truthy (ParseResult.netloc u) then
      Some (unparse (ParseResult.mk scheme (ParseResult.netloc u)
                       (ParseResult.path u) (ParseResult.params u)
                       (ParseResult.query u) (ParseResult.fragment u)))
    else
      let netloc := if in_list scheme uses_netloc then ParseResult.netloc b
                    else ParseResult.netloc u in
      if negb (truthy (ParseResult.path u))
         && negb (truthy (ParseResult.params u)) then
        Some (unparse (ParseResult.mk scheme netloc (ParseResult.path b)
                         (ParseResult.params b)
                         (if truthy (ParseResult.query u)
                          then ParseResult.query u else ParseResult.query b)
                         (ParseResult.fragment u)))
      else
        let path := if startswith (ParseResult.path u) "/"
                    then ParseResult.path u
                    else directory (ParseResult.path b) ++ ParseResult.path u in
        Some (unparse (ParseResult.mk scheme netloc
                         (if truthy path then path else "/")
                         (ParseResult.params u) (ParseResult.query u)
                         (ParseResult.fragment u))).

Lemma has_char_app (c : ascii) (s t : string) :
  has_char c (s ++ t) = has_char c s || has_char c t.
Proof.
  induction s as [|d s IH]; [done|].
  change (has_char c (String d (s ++ t))
          = has_char c (String d s) || has_char c t).
  cbn [has_char]. by rewrite IH, orb_assoc.
Qed.

Lemma cut_parts (c d : ascii) (s a b : string) :
  cut c s = Some (a, b) →
  has_char c a = false
  ∧ (has_char d s = false → has_char d a = false ∧ has_char d b = false).
Proof.
  revert a b. induction s as [|e s IH]; intros a b; cbn [cut]; [done|].
  destruct (Ascii.eqb e c) eqn:He.
  - intros [= <- <-]. split; [done|]. cbn [has_char].
    by intros [_ ?]%orb_false_elim.
  - destruct (cut c s) as [[a' b']|]; [|done]. intros [= <- <-].
    destruct (IH a' b' eq_refl) as [Ha Hd]. cbn [has_char]. split.
    + by rewrite Ascii.eqb_sym, He, Ha.
    + intros [He' Hs]%orb_false_elim. destruct (Hd Hs) as [-> ->].
      by rewrite He'.
Qed.

Lemma cut_none (c : ascii) (s : string) : cut c s = None → has_char c s = false.
Proof.
  induction s as [|e s IH]; cbn [cut has_char]; [done|].
  destruct (Ascii.eqb e c) eqn:He; [done|].
  destruct (cut c s) as [[a b]|]; [done|]. intros _.
  by rewrite Ascii.eqb_sym, He, IH.
Qed.

Lemma or_whole_parts (c d : ascii) (s : string) :
  has_char c (fst (or_whole c s)) = false
  ∧ (has_char d s = false →
     has_char d (fst (or_whole c s)) = false
     ∧ has_char d (snd (or_whole c s)) = false).
Proof.
  unfold or_whole. destruct (cut c s) as [[a b]|] eqn:Hcut; cbn [fst snd].
  - by apply (cut_parts c d s).
  - split; [by apply cut_none|]. by intros ->.
Qed.

Lemma span_stops (stop : ascii -> bool) (c : ascii) (s : string) :
  stop c = true → has_char c (fst (span stop s)) = false.
Proof.
  intros Hc. induction s as [|e s IH]; [done|]. cbn [span].
  destruct (stop e) eqn:He; [done|].
  destruct (span stop s) as [a b]. cbn [fst has_char] in *.
  rewrite IH, orb_false_r. apply Ascii.eqb_neq. intros ->. congruence.
Qed.

Lemma scheme_no_hash (s : string) :
  all_of scheme_char s = true → has_char "#" (lower s) = false.
Proof.
  induction s as [|c s IH]; [done|]. cbn [all_of lower has_char].
  intros [Hc Hs]%andb_prop. rewrite (IH Hs), orb_false_r.
  destruct c as [[] [] [] [] [] [] [] []]; by vm_compute in Hc |- *.
Qed.

Lemma split_netloc_clean (url : string) :
  has_char "#" (fst (split_netloc url)) = false.
Proof.
  destruct url as [|c1 [|c2 rest]].
  - done.
  - by destruct c1 as [[] [] [] [] [] [] [] []].
  - destruct c1 as [[] [] [] [] [] [] [] []]; try done;
      destruct c2 as [[] [] [] [] [] [] [] []]; try done.
    cbn [split_netloc]. by apply span_stops.
Qed.

(** The law of [UrlLib], for this library. *)
Lemma unparse_no_hash (url : string) (r : ParseResult.t) :
  parse url = Some r →
  has_char "#"
    (unparse (ParseResult.mk (ParseResult.scheme r) (ParseResult.netloc r)
                (ParseResult.path r) (ParseResult.params r)
                (ParseResult.query r) "")) = false.
Proof.
  unfold parse.
  destruct (split_scheme url) as [scheme url1] eqn:Hscheme.
  destruct (split_netloc url1) as [netloc url2] eqn:Hnetloc.
  destruct (xorb _ _); [done|].
  pose proof (or_whole_parts "#" "#" url2) as [Hpath _].
  destruct (or_whole "#" url2) as [url3 fragment]. cbn [fst] in Hpath.
  pose proof (or_whole_parts "?" "#" url3) as [_ Hquery].
  destruct (or_whole "?" url3) as [path query]. cbn [fst snd] in Hquery.
  destruct (Hquery Hpath) as [Hp Hq]. intros [= <-].
  assert (has_char "#" scheme = false) as Hs.
  { unfold split_scheme in Hscheme.
    destruct (cut ":" url) as [[[|c0 pre] rest]|]; try by injection Hscheme as <- _.
    destruct (is_alpha c0 && all_of scheme_char (String c0 pre)) eqn:Hok;
      [|by injection Hscheme as <- _].
    injection Hscheme as <- _. apply andb_prop in Hok as [_ Hok].
    exact (scheme_no_hash (String c0 pre) Hok). }
  assert (has_char "#" netloc = false) as Hn.
  { pose proof (split_netloc_clean url1) as Hclean.
    by rewrite Hnetloc in Hclean. }
  unfold unparse. cbn [ParseResult.scheme ParseResult.netloc ParseResult.path
    ParseResult.params ParseResult.query ParseResult.fragment truthy].
  repeat match goal with
         | |- context [if ?b then _ else _] => destruct b
         end;
    rewrite ?has_char_app, ?Hs, ?Hn, ?Hp, ?Hq; done.
Qed.

End SimpleUrl.

Definition simple_url : UrlLib :=
  {| urlparse := SimpleUrl.parse;
     urlunparse := SimpleUrl.unparse;
     urljoin := SimpleUrl.join;
     urlunparse_no_hash := SimpleUrl.unparse_no_hash |}.

(** A strict parser that knows the empty object and rejects every other
    text of the examples. *)
Definition tiny_json : JsonLib :=
  {| json_loads := λ s, if String.eqb s "{}" then Some (JDict []) else None |}.

(** A document without any element. *)
Definition empty_soup : Soup :=
  {| html_lang := None; has_viewport := false; title_text := None;
     description_content := None; robots_content := None;
     canonical_href := None; metas := [];
     h1_texts := []; h2_texts := []; h3_texts := [];
     visible_text := ""; img_alts := []; anchor_hrefs := [] |}.

(** The site of the examples: a home page and an about page on [a.com],
    and a thin page that has fifty words and a viewport and nothing
    else. *)
Definition home_html : string :=
  "<html lang='en'><head><title>Home of the example</title></head><body>"
  ++ "<h1>Home</h1><a href='/about'>About</a><a href='#top'>Top</a>"
  ++ "<a href='/#contact'>Contact</a><a href='https://b.org/'>B</a>"
  ++ "<a href='mailto:x@a.com'>Mail</a></body></html>".

Definition home_hrefs : list string :=
  ["/about"; "#top"; "/#contact"; "https://b.org/"; "mailto:x@a.com"].

Definition home_soup : Soup :=
  {| html_lang := Some "en"; has_viewport := false;
     title_text := Some "Home of the example";
     description_content := None; robots_content := None;
     canonical_href := None; metas := [];
     h1_texts := ["Home"]; h2_texts := []; h3_texts := [];
     visible_text := "Home of the example Home About Top Contact B Mail";
     img_alts := []; anchor_hrefs := home_hrefs |}.

Definition about_html : string :=
  "<html><body><h1>About</h1><a href='/'>Home</a>"
  ++ "<a href='/#top'>Top</a><a href='/about#team'>Team</a></body></html>".

Definition about_hrefs : list string := ["/"; "/#top"; "/about#team"].

Definition about_soup : Soup :=
  {| html_lang := None; has_viewport := false; title_text := None;
     description_content := None; robots_content := None;
     canonical_href := None; metas := [];
     h1_texts := ["About"]; h2_texts := []; h3_texts := [];
     visible_text := "About Home Top Team";
     img_alts := []; anchor_hrefs := about_hrefs |}.

Definition fifty_words : string := String.concat " " (repeat "word" 50).

Definition thin_html : string :=
  "<html><head><meta name='viewport' content='width=device-width'></head>"
  ++ "<body>" ++ fifty_words ++ "</body></html>".

Definition thin_soup : Soup :=
  {| html_lang := None; has_viewport := true; title_text := None;
     description_content := None; robots_content := None;
     canonical_href := None;
     metas := [{| meta_property := None; meta_name := Some "viewport";
                  meta_content := Some "width=device-width" |}];
     h1_texts := []; h2_texts := []; h3_texts := [];
     visible_text := fifty_words;
     img_alts := []; anchor_hrefs := [] |}.

(** The parser on the documents of the examples. *)
Definition example_html : HtmlLib :=
  {| parse_html := λ html,
       if String.eqb html home_html then home_soup
       else if String.eqb html about_html then about_soup
       else if String.eqb html thin_html then thin_soup
       else empty_soup |}.

(** A browser that serves the example site. Its world is the list of the
    URLs fetched so far, the last one first. Every URL but the two pages
    of [a.com] fails to load; [robots.txt] is the only endpoint that
    answers. *)
Definition example_fetch (url : string) : option Fetched :=
  if String.eqb url "https://a.com/" then
    Some {| f_status := 200; f_final_url := "https://a.com/";
            f_load_time := quotient 3 2; f_html := home_html;
            f_jsonld_blocks := []; f_hrefs := home_hrefs;
            f_link_rel_data := map (λ h, (h, [])) home_hrefs |}
  else if String.eqb url "https://a.com/about" then
    Some {| f_status := 200; f_final_url := "https://a.com/about";
            f_load_time := quotient 3 2; f_html := about_html;
            f_jsonld_blocks := []; f_hrefs := about_hrefs;
            f_link_rel_data := map (λ h, (h, [])) about_hrefs |}
  else None.

Definition example_browser : Browser (list string) :=
  {| fetch_page_dom := λ w url _ _, (url :: w, example_fetch url);
     request_get_ok := λ w url _,
       (w, if String.eqb url "https://a.com/robots.txt" then Some true
           else None) |}.


(** The truncated block of the specification: an opening brace, the
    quoted key [@type], a colon, a space and the quoted name
    [Organization], with no closing brace. *)
Definition truncated_block : string :=
  "{" ++ quoted at_type ++ ": " ++ quoted "Organization".

(** The page of the second end-to-end scenario: no title, no description,
    no canonical link, no H1, fifty words, no structured data, no internal
    link, status 0. *)
Definition bare_page (p : PageAudit.t) : Prop :=
  PageAudit.title p = "" ∧ PageAudit.meta_description p = ""
  ∧ PageAudit.canonical p = "" ∧ PageAudit.h1 p = []
  ∧ PageAudit.word_count p = 50 ∧ PageAudit.schema_types p = []
  ∧ PageAudit.internal_links p = 0 ∧ PageAudit.status p = Some 0.

(** What the extractor builds for the thin page, loaded in no time with
    status 0. *)
Definition thin_page : option PageAudit.t :=
  @audit_from_dom simple_url tiny_json example_html
    "https://a.com/thin" "https://a.com/thin" 0 f0_0 thin_html [] [] [].

(** A record with one image and [10^400] images without [alt]. *)
Definition huge_alt_page : PageAudit.t :=
  let p := PageAudit.new "https://a.com/" "https://a.com/" (Some 200) f0_0 in
  {| PageAudit.url := PageAudit.url p;
     PageAudit.final_url := PageAudit.final_url p;
     PageAudit.status := PageAudit.status p;
     PageAudit.load_time_sec := PageAudit.load_time_sec p;
     PageAudit.title := PageAudit.title p;
     PageAudit.meta_description := PageAudit.meta_description p;
     PageAudit.meta_robots := PageAudit.meta_robots p;
     PageAudit.canonical := PageAudit.canonical p;
     PageAudit.lang := PageAudit.lang p;
     PageAudit.viewport := PageAudit.viewport p;
     PageAudit.og := PageAudit.og p; PageAudit.twitter := PageAudit.twitter p;
     PageAudit.h1 := PageAudit.h1 p;
     PageAudit.h2 := PageAudit.h2 p;
     PageAudit.h3 := PageAudit.h3 p;
     PageAudit.word_count := PageAudit.word_count p;
     PageAudit.internal_links := PageAudit.internal_links p;
     PageAudit.external_links := PageAudit.external_links p;
     PageAudit.anchor_links := PageAudit.anchor_links p;
     PageAudit.nofollow_links := PageAudit.nofollow_links p;
     PageAudit.images := 1;
     PageAudit.images_missing_alt := 10 ^ 400;
     PageAudit.schema_types := PageAudit.schema_types p;
     PageAudit.issues := PageAudit.issues p;
     PageAudit.wins := PageAudit.wins p |}.


(** The URLs of the page records of a crawl, in crawl order. *)
Definition page_urls {world : Type} (st : crawl world) : list string :=
  map PageAudit.url (SiteAudit.pages (site st)).

(** What holds of the loop variables of [run_audit] before and after
    every round: no two records have the same URL, the URL of every record
    is in the visited set, every visited URL is its own normal form, every
    queued text is the normal form of some text, and the queue holds no
    text twice. *)
Definition crawl_ok `{UrlLib} {world : Type} (st : crawl world) : Prop :=
  NoDup (page_urls st)
  ∧ (∀ u, u ∈ page_urls st → u ∈ visited st)
  ∧ (∀ u, u ∈ visited st → norm_url u = Some u)
  ∧ (∀ q, q ∈ queue st → ∃ x, norm_url x = Some q)
  ∧ NoDup (queue st).

(** The rounds the loop can still make from [st], at most. *)
Definition rounds_left {world : Type} (max_pages : Z) (st : crawl world) : nat :=
  (length (queue st)
   + 81 * Z.to_nat (max_pages - len (SiteAudit.pages (site st))))%nat.

(** A page whose only link is the anchor [/#contact], and a browser that
    serves it at [https://a.com/faq] and nothing else. *)
Definition faq_html : string :=
  "<html><body><a href='/#contact'>Contact</a></body></html>".

Definition faq_soup : Soup :=
  {| html_lang := None; has_viewport := false; title_text := None;
     description_content := None; robots_content := None;
     canonical_href := None; metas := [];
     h1_texts := []; h2_texts := []; h3_texts := [];
     visible_text := "Contact";
     img_alts := []; anchor_hrefs := ["/#contact"] |}.

Definition faq_parser : HtmlLib :=
  {| parse_html := λ html,
       if String.eqb html faq_html then faq_soup else empty_soup |}.

Definition faq_browser : Browser (list string) :=
  {| fetch_page_dom := λ w url _ _,
       (url :: w,
        if String.eqb url "https://a.com/faq" then
          Some {| f_status := 200; f_final_url := "https://a.com/faq";
                  f_load_time := quotient 3 2; f_html := faq_html;
                  f_jsonld_blocks := []; f_hrefs := ["/#contact"];
                  f_link_rel_data := [("/#contact", [])] |}
        else None);
     request_get_ok := λ w _ _, (w, None) |}.

(** The reading of the specification under which no anchor link feeds the
    frontier: every discovered link is the normal form of an href that is
    not an anchor link. *)
Definition frontier_skips_anchor_links `{UrlLib} : Prop :=
  ∀ (final_url : string) (soup : Soup) (links : list string) (lk : string),
    discover_internal_links final_url soup 80 = Some links →
    lk ∈ links →
    ∃ href, href ∈ anchor_hrefs soup
            ∧ is_anchor_link (strip href) = false
            ∧ urljoin final_url (strip href) ≫= norm_url = Some lk.

(** A document whose only elements are links. *)
Definition links_soup (hrefs : list string) : Soup :=
  {| html_lang := None; has_viewport := false; title_text := None;
     description_content := None; robots_content := None;
     canonical_href := None; metas := [];
     h1_texts := []; h2_texts := []; h3_texts := [];
     visible_text := ""; img_alts := []; anchor_hrefs := hrefs |}.

(** A browser that serves one page of links at [https://a.com/] and
    nothing else, and the parser of that page. *)
Definition links_parser (html : string) (hrefs : list string) : HtmlLib :=
  {| parse_html := λ h, if String.eqb h html then links_soup hrefs
                        else empty_soup |}.

Definition links_browser (html : string) (hrefs : list string)
    : Browser (list string) :=
  {| fetch_page_dom := λ w url _ _,
       (url :: w,
        if String.eqb url "https://a.com/" then
          Some {| f_status := 200; f_final_url := "https://a.com/";
                  f_load_time := quotient 3 2; f_html := html;
                  f_jsonld_blocks := []; f_hrefs := hrefs;
                  f_link_rel_data := map (λ h, (h, [])) hrefs |}
        else None);
     request_get_ok := λ w _ _, (w, None) |}.

(** A page that links to [/x] twice, once with a fragment after a
    space. *)
Definition twice_html : string :=
  "<html><body><a href='/x'>X</a><a href='/x #y'>Y</a></body></html>".

Definition twice_hrefs : list string := ["/x"; "/x #y"].



(** The reading of the specification under which a queued URL is never
    added again: no two entries of the queue have the same normal
    form. *)
Definition queue_normal_forms_distinct `{UrlLib} {world : Type}
    (st : crawl world) : Prop :=
  ∀ (i j : nat) (a b : string),
    queue st !! i = Some a → queue st !! j = Some b →
    norm_url a = norm_url b → i = j.

(** An href the specification calls an anchor link: not empty once
    trimmed, no [mailto:], [tel:] or [javascript:] link, and beginning
    with [#] or [/#]. *)
Definition anchor_href (href : string) : bool :=
  truthy (strip href) && negb (is_skippable (strip href))
  && (startswith (strip href) "#" || startswith (strip href) "/#").


(* ===================================================================== *)
(** * The float sums [overall_score] can reach *)
(* ===================================================================== *)

(** The values the sector scores take: 0 to 100 for four of them, the
    sums of 34, 33 and 33 for the crawlability score, and the four steps
    of the performance score, or 0 on a site without pages. *)
Definition score_range : list Z := map Z.of_nat (seq 0 101).
Definition rast_values : list Z := [0; 34; 33; 67; 66; 100].
Definition perf_values : list Z := [0; 95; 85; 70; 55].

(** Equality of two floats, bit for bit. *)
Definition sf_eqb (x y : float) : bool :=
  match x, y with
  | S754_zero a, S754_zero b => Bool.eqb a b
  | S754_infinity a, S754_infinity b => Bool.eqb a b
  | S754_nan, S754_nan => true
  | S754_finite a m e, S754_finite b m' e' =>
      Bool.eqb a b && Pos.eqb m m' && Z.eqb e e'
  | _, _ => false
  end.

(** A set of partial sums: under the exact sum [N], in hundredths, the
    floats the program can hold for it. *)
Definition sums : Type := PositiveMap.t (list float).

Definition sum_key (N : Z) : positive := Z.to_pos (N + 1).

Definition has_sum (N : Z) (x : float) (M : sums) : Prop :=
  0 ≤ N ∧ ∃ l, PositiveMap.find (sum_key N) M = Some l ∧ In x l.

Definition add_sum (N : Z) (x : float) (M : sums) : sums :=
  match PositiveMap.find (sum_key N) M with
  | None => PositiveMap.add (sum_key N) [x] M
  | Some l =>
      if existsb (sf_eqb x) l then M
      else PositiveMap.add (sum_key N) (x :: l) M
  end.

(** The products [v * w] of one term of the sum, for the scores [vs]. *)
Definition weighted (w : float) (vs : list Z) : list (Z * float) :=
  map (λ v, (v, fmul (of_int v) w)) vs.

(** The sums after one more term, of exact weight [W] hundredths. *)
Definition add_term (W : Z) (ts : list (Z * float)) (M : sums) : sums :=
  PositiveMap.fold
    (λ k l acc,
       fold_left
         (λ acc x,
            fold_left
              (λ acc vt, add_sum (Z.pos k - 1 + W * fst vt) (fadd x (snd vt)) acc)
              ts acc)
         l acc)
    M (PositiveMap.empty (list float)).

Definition first_term (W : Z) (ts : list (Z * float)) : sums :=
  fold_left (λ acc vt, add_sum (W * fst vt) (snd vt) acc) ts
    (PositiveMap.empty (list float)).

(** [z] is an integer nearest to [N] hundredths. *)
Definition nearest_to (N : Z) (z : Z) : Prop := Z.abs (100 * z - N) ≤ 50.

Definition rounds_to_nearest (N : Z) (x : float) : bool :=
  Z.abs (100 * PyFloat.round x - N) <=? 50.

Definition all_round_to_nearest (M : sums) : bool :=
  PositiveMap.fold (λ k l acc, acc && forallb (rounds_to_nearest (Z.pos k - 1)) l)
    M true.

(** The sums of [weighted_sum], term after term. *)
Definition sums_1 : sums := first_term 20 (weighted f0_20 rast_values).
Definition sums_2 : sums := add_term 25 (weighted f0_25 score_range) sums_1.
Definition sums_3 : sums := add_term 20 (weighted f0_20 score_range) sums_2.
Definition sums_4 : sums := add_term 15 (weighted f0_15 score_range) sums_3.
Definition sums_5 : sums := add_term 10 (weighted f0_10 perf_values) sums_4.
Definition sums_6 : sums := add_term 10 (weighted f0_10 score_range) sums_5.

(** The exact weighted sum of the sector scores, in hundredths. *)
Definition weighted_hundredths (sec : sectors) : Z :=
  20 * rast sec + 25 * content sec + 20 * schema sec
  + 15 * links_media sec + 10 * perf sec + 10 * social sec.

(* ===================================================================== *)
(** * Rounding *)
(* ===================================================================== *)

(** Something was cut off the mantissa of [mrs] in earlier shifts. *)
Definition inexact (mrs : shr_record) : bool := shr_r mrs || shr_s mrs.

(** [mrs'] is [mrs] shifted right by the factor [k]. *)
Definition shifted (k : Z) (mrs mrs' : shr_record) : Prop :=
  0 ≤ shr_m mrs'
  ∧ shr_m mrs' * k ≤ shr_m mrs < (shr_m mrs' + 1) * k
  ∧ (inexact mrs' = true → inexact mrs = true ∨ shr_m mrs' * k < shr_m mrs).

(** A bound [mB * 2^eB] that is a float: its exponent is the one of its
    format. *)
Definition float_bound (mB eB : Z) : Prop :=
  0 < mB ∧ fexp prec emax (Zdigits2 mB + eB) = eB.

(** A float between 0 and the float [mB * 2^eB]. *)
Definition at_most (mB eB : Z) (x : float) : Prop :=
  x = S754_zero false
  ∨ ∃ m e, x = S754_finite false m e ∧ e ≤ eB ∧ Z.pos m ≤ mB * 2 ^ (eB - e).

(* ===================================================================== *)
(** * Further functions of the program *)
(* ===================================================================== *)

(** The place of a letter among the grades, best first. *)
Definition letter_rank (l : letter) : Z :=
  match l with A => 0 | B => 1 | C => 2 | D => 3 | E => 4 end.

(** What a site keeps from the moment [run_audit] enters its loop: every
    field but the pages. *)
Definition site_header (s : SiteAudit.t)
    : string * string * (string * string * string)
      * (option bool * option bool * option bool) :=
  (SiteAudit.start_url s, SiteAudit.host s,
   (SiteAudit.robots_url s, SiteAudit.sitemap_url s, SiteAudit.llms_url s),
   (SiteAudit.robots_ok s, SiteAudit.sitemap_ok s, SiteAudit.llms_ok s)).

(** An href the link loop of [audit_from_dom] counts: not empty once
    trimmed, and not a [mailto:], [tel:] or [javascript:] link. *)
Definition countable_href (href : string) : bool :=
  truthy (strip href) && negb (is_skippable (strip href)).

(** A pair of [link_rel_data] the nofollow loop counts. *)
Definition counted_nofollow (hr : string * list string) : bool :=
  truthy (fst hr) && negb (is_skippable (strip (fst hr)))
  && in_list "nofollow" (snd hr).

(** Two sets of link counters, added counter by counter. *)
Definition add_counts (c d : link_counts) : link_counts :=
  {| internal := internal c + internal d; external := external c + external d;
     nofollow := nofollow c + nofollow d; anchors := anchors c + anchors d |}.

(** What one anchor link adds to the counters. *)
Definition one_anchor : link_counts :=
  {| internal := 1; external := 0; nofollow := 0; anchors := 1 |}.

(** How many elements of a list pass a test. *)
Definition count_of {X : Type} (test : X → bool) (l : list X) : Z :=
  len (List.filter test l).

(** [s.replace("\n", " ")] *)
Fixpoint replace_newlines (s : string) : string :=
  match s with
  | EmptyString => EmptyString
  | String c s' =>
      String (if Ascii.eqb c "010" then " "%char else c) (replace_newlines s')
  end.

(** [md_escape]. The argument is a string or [None]. *)
Definition md_escape (s : option string) : string :=
  strip (replace_newlines (attr_or_empty s)).

(** The keys of the two social dictionaries carry their prefix, and no
    key is listed twice. *)
Definition social_keys_ok (acc : PyDict.dict string * PyDict.dict string) : Prop :=
  (∀ k, k ∈ PyDict.keys (fst acc) → startswith k "og:" = true)
  ∧ (∀ k, k ∈ PyDict.keys (snd acc) → startswith k "twitter:" = true)
  ∧ NoDup (PyDict.keys (fst acc)) ∧ NoDup (PyDict.keys (snd acc)).

(** [v] occurs in [obj]: it is [obj], or occurs in an item of the list
    [obj], or in a value of the dictionary [obj]. *)
Inductive inside (v : json) : json → Prop :=
  | inside_here : inside v v
  | inside_item (items : list json) (it : json) :
      In it items → inside v it → inside v (JList items)
  | inside_field (fields : list (string * json)) (k : string) (x : json) :
      In (k, x) fields → inside v x → inside v (JDict fields).

(** A type name the fallback pattern can give: not empty, and without a
    double quote. *)
Definition clean_name (t : string) : Prop :=
  t ≠ "" ∧ has_char dquote t = false.

(** The recommended actions. The program stores each as a fixed sentence;
    the constructors name the six sentences in the order of the checks of
    [build_site_actions]. *)
Inductive action : Type :=
  | act_robots
  | act_sitemap
  | act_llms
  | act_schema
  | act_internal_links
  | act_image_alt.

Definition action_rank (a : action) : Z :=
  match a with
  | act_robots => 0 | act_sitemap => 1 | act_llms => 2
  | act_schema => 3 | act_internal_links => 4 | act_image_alt => 5
  end.

(** [a in seen] *)
Definition action_in (a : action) (seen : list action) : bool :=
  existsb (λ b, action_rank a =? action_rank b) seen.

(** [flag is False] *)
Definition is_false (flag : option bool) : bool :=
  match flag with Some false => true | _ => false end.

(** The list [actions] of [build_site_actions], before duplicates are
    dropped. *)
Definition site_actions (site : SiteAudit.t) : list action :=
  let pages := SiteAudit.pages site in
  ((if is_false (SiteAudit.robots_ok site) then [act_robots] else [])
   ++ (if is_false (SiteAudit.sitemap_ok site) then [act_sitemap] else [])
   ++ (if is_false (SiteAudit.llms_ok site) then [act_llms] else [])
   ++ (if existsb (λ p, bool_decide (PageAudit.schema_types p = [])) pages
       then [act_schema] else [])
   ++ (if existsb (λ p, PageAudit.internal_links p <? 3) pages
       then [act_internal_links] else [])
   ++ (if existsb (λ p, (0 <? PageAudit.images p)
                        && (0 <? PageAudit.images_missing_alt p)) pages
       then [act_image_alt] else []))%list.

(** The loop that drops duplicates: [out] and [seen] after one action. *)
Definition keep_first (acc : list action * list action) (a : action)
    : list action * list action :=
  let '(out, seen) := acc in
  if action_in a seen then (out, seen) else ((out ++ [a])%list, a :: seen).

(** [build_site_actions] *)
Definition build_site_actions (site : SiteAudit.t) : list action :=
  fst (fold_left keep_first (site_actions site) ([], [])).

(** The six actions in the order of the checks. *)
Definition all_actions : list action :=
  [act_robots; act_sitemap; act_llms; act_schema; act_internal_links;
   act_image_alt].

(** The condition under which [build_site_actions] recommends an
    action. *)
Definition action_due (site : SiteAudit.t) (a : action) : bool :=
  let pages := SiteAudit.pages site in
  match a with
  | act_robots => is_false (SiteAudit.robots_ok site)
  | act_sitemap => is_false (SiteAudit.sitemap_ok site)
  | act_llms => is_false (SiteAudit.llms_ok site)
  | act_schema =>
      existsb (λ p, bool_decide (PageAudit.schema_types p = [])) pages
  | act_internal_links => existsb (λ p, PageAudit.internal_links p <? 3) pages
  | act_image_alt =>
      existsb (λ p, (0 <? PageAudit.images p)
                    && (0 <? PageAudit.images_missing_alt p)) pages
  end.

(* ===================================================================== *)
(** * Properties of the URL normaliser *)
(* ===================================================================== *)

Section StripFacts.

Lemma lstrip_head (s : string) :
  lstrip s = EmptyString ∨
  ∃ c t, lstrip s = String c t ∧ py_isspace c = false.
Proof.
  induction s as [|c s IH]; simpl; [by left|].
  destruct (py_isspace c) eqn:Hc; [done|]. right. by exists c, s.
Qed.

Lemma rstrip_cons_nonspace (c : ascii) (s : string) :
  py_isspace c = false → ∃ r, rstrip (String c s) = String c r.
Proof.
  intros Hc. simpl. destruct (rstrip s); rewrite ?Hc; eauto.
Qed.

Lemma rstrip_idem (s : string) : rstrip (rstrip s) = rstrip s.
Proof.
  induction s as [|c s IH]; simpl; [done|].
  destruct (rstrip s) as [|d r] eqn:Hr.
  - destruct (py_isspace c) eqn:Hc; simpl; by rewrite ?Hc.
  - change (rstrip (String c (String d r))) with
      (match rstrip (String d r) with
       | EmptyString =>
           if py_isspace c then EmptyString else String c EmptyString
       | r' => String c r'
       end).
    by rewrite IH.
Qed.

Lemma lstrip_rstrip_lstrip (s : string) :
  lstrip (rstrip (lstrip s)) = rstrip (lstrip s).
Proof.
  destruct (lstrip_head s) as [->|(c & t & -> & Hc)]; [done|].
  destruct (rstrip_cons_nonspace c t Hc) as [r ->]. simpl. by rewrite Hc.
Qed.

Lemma strip_idem (s : string) : strip (strip s) = strip s.
Proof.
  unfold strip. by rewrite lstrip_rstrip_lstrip, rstrip_idem.
Qed.

Lemma has_char_lstrip (c : ascii) (s : string) :
  has_char c s = false → has_char c (lstrip s) = false.
Proof.
  induction s as [|d s IH]; simpl; [done|].
  intros [Hd Hs]%orb_false_elim.
  destruct (py_isspace d); simpl; [auto|]. by rewrite Hd, Hs.
Qed.

Lemma has_char_rstrip (c : ascii) (s : string) :
  has_char c s = false → has_char c (rstrip s) = false.
Proof.
  induction s as [|d s IH]; simpl; [done|].
  intros [Hd Hs]%orb_false_elim. specialize (IH Hs).
  destruct (rstrip s) as [|e r].
  - destruct (py_isspace d); simpl; [done|]. by rewrite Hd.
  - simpl in *. by rewrite Hd, IH.
Qed.

Lemma has_char_strip (c : ascii) (s : string) :
  has_char c s = false → has_char c (strip s) = false.
Proof. intros. by apply has_char_rstrip, has_char_lstrip. Qed.

End StripFacts.

Section NormUrl.
Context `{UrlLib}.

Lemma urldefrag_plain (url : string) :
  has_char "#" url = false → urldefrag url = Some (url, "").
Proof. intros Hurl. unfold urldefrag. by rewrite Hurl. Qed.

Lemma urldefrag_no_hash (url v f : string) :
  urldefrag url = Some (v, f) → has_char "#" v = false.
Proof.
  unfold urldefrag. destruct (has_char "#" url) eqn:Hurl.
  - destruct (urlparse url) as [r|] eqn:Hparse; [|done].
    intros [= <- _]. by eapply urlunparse_no_hash.
  - by intros [= <- _].
Qed.

Lemma norm_url_unfold (u : string) :
  norm_url u = fst <$> urldefrag (strip u).
Proof.
  unfold norm_url. by destruct (urldefrag (strip u)) as [[v f]|].
Qed.

Lemma norm_url_plain (u : string) :
  has_char "#" (strip u) = false → norm_url u = Some (strip u).
Proof. intros Hu. by rewrite norm_url_unfold, urldefrag_plain. Qed.

Lemma norm_url_no_hash (u v : string) :
  norm_url u = Some v → has_char "#" v = false.
Proof.
  rewrite norm_url_unfold.
  destruct (urldefrag (strip u)) as [[v' f]|] eqn:Hd; [|done].
  intros [= <-]. by eapply urldefrag_no_hash.
Qed.

Lemma norm_url_again (u v : string) :
  norm_url u = Some v → norm_url v = Some (strip v).
Proof.
  intros Hv. by apply norm_url_plain, has_char_strip, (norm_url_no_hash u).
Qed.

(** A normal form, once trimmed, is its own normal form. *)
Lemma norm_url_fixed (u v : string) :
  norm_url u = Some v → norm_url (strip v) = Some (strip v).
Proof.
  intros Hv. rewrite norm_url_plain; rewrite strip_idem; [done|].
  by apply has_char_strip, (norm_url_no_hash u).
Qed.

(** C4, amended. [norm_url] trims its argument and hands it to
    [urldefrag]. A text without [#] is only trimmed. A text with a [#] is
    parsed and put together again without its fragment, which raises when
    [urlparse] does. The result holds no [#]. Normalising a result again
    only trims it, [norm_url v = Some (strip v)]; so [norm_url] is
    idempotent on every text without [#], on every text whose normal form
    has no white space at its ends, and from the second application on.
    The example of the specification holds as soon as [urlparse] splits
    it into [https], [a.com], [/x] and [y] and [urlunparse] joins the
    first three again. *)
Theorem norm_url_spec (u : string) :
  (has_char "#" (strip u) = false → norm_url u = Some (strip u))
  ∧ (has_char "#" (strip u) = true →
     norm_url u
     = r ← urlparse (strip u);
       Some (urlunparse
               (ParseResult.mk (ParseResult.scheme r) (ParseResult.netloc r)
                  (ParseResult.path r) (ParseResult.params r)
                  (ParseResult.query r) "")))
  ∧ (∀ v, norm_url u = Some v →
          has_char "#" v = false
          ∧ norm_url v = Some (strip v)
          ∧ (strip v = v → norm_url v = Some v)
          ∧ norm_url (strip v) = Some (strip v))
  ∧ (has_char "#" u = false →
     norm_url u = Some (strip u) ∧ norm_url (strip u) = Some (strip u))
  ∧ (urlparse "https://a.com/x#y"
     = Some (ParseResult.mk "https" "a.com" "/x" "" "" "y") →
     urlunparse (ParseResult.mk "https" "a.com" "/x" "" "" "")
     = "https://a.com/x" →
     norm_url "https://a.com/x#y" = Some "https://a.com/x").
Proof.
  split; [apply norm_url_plain|]. split.
  { intros Hu. rewrite norm_url_unfold. unfold urldefrag. rewrite Hu.
    by destruct (urlparse (strip u)). }
  split.
  { intros v Hv. split; [by eapply norm_url_no_hash|].
    split; [by eapply norm_url_again|].
    split; [|by eapply norm_url_fixed].
    intros Hfix. rewrite (norm_url_again u v Hv). by rewrite Hfix. }
  split.
  { intros Hu. apply (has_char_strip "#") in Hu.
    split; [by apply norm_url_plain|].
    rewrite norm_url_plain; rewrite strip_idem; done. }
  intros Hparse Hunparse. rewrite norm_url_unfold.
  change (strip "https://a.com/x#y") with "https://a.com/x#y".
  unfold urldefrag. change (has_char "#" "https://a.com/x#y") with true.
  cbv iota. rewrite Hparse. cbn. by rewrite Hunparse.
Qed.

End NormUrl.

(** C4, as the specification states it, fails: a space before the
    fragment survives the first normalisation and is trimmed by the
    second. Nor is the fragment all that goes: a text with a fragment is
    put together again from its parts, with its scheme in lower case and
    without an empty query. *)
Lemma norm_url_not_idempotent :
  @norm_url simple_url "https://a.com/x #y" = Some "https://a.com/x "
  ∧ @norm_url simple_url "https://a.com/x " = Some "https://a.com/x"
  ∧ ¬ (∀ u v : string,
         @norm_url simple_url u = Some v → @norm_url simple_url v = Some v)
  ∧ @norm_url simple_url "HTTP://a.com/x#y" = Some "http://a.com/x"
  ∧ @norm_url simple_url "https://a.com/x?#y" = Some "https://a.com/x".
Proof.
  split; [by vm_compute|]. split; [by vm_compute|].
  split; [|split; by vm_compute].
  intros Hidem.
  specialize (Hidem "https://a.com/x #y" "https://a.com/x " ltac:(by vm_compute)).
  vm_compute in Hidem. discriminate Hidem.
Qed.

Lemma norm_url_spec_witness :
  @norm_url simple_url "  https://a.com/x?q=1 " = Some "https://a.com/x?q=1"
  ∧ @norm_url simple_url "https://a.com/x?q=1" = Some "https://a.com/x?q=1"
  ∧ @norm_url simple_url "https://a.com/x#y" = Some "https://a.com/x".
Proof.
  destruct (@norm_url_spec simple_url "  https://a.com/x?q=1 ")
    as (_ & _ & _ & Hplain & _).
  destruct (Hplain eq_refl) as [Hfirst Hsecond].
  split; [exact Hfirst|]. split; [exact Hsecond|].
  exact (proj2 (proj2 (proj2 (proj2 (@norm_url_spec simple_url ""))))
           eq_refl eq_refl).
Defined.

(* ===================================================================== *)
(** * Properties of rounding *)
(* ===================================================================== *)

Lemma digits2_pos_size (p : positive) : digits2_pos p = Pos.size p.
Proof. induction p as [p IH|p IH|]; cbn; congruence. Qed.

Lemma Zdigits2_bounds (m : Z) :
  0 < m → 0 < Zdigits2 m ∧ 2 ^ (Zdigits2 m - 1) ≤ m < 2 ^ Zdigits2 m.
Proof.
  destruct m as [|p|p]; try lia. intros _. cbn [Zdigits2].
  rewrite digits2_pos_size.
  pose proof (Pos.size_gt p) as Hgt. pose proof (Pos.size_le p) as Hle.
  apply Pos2Z.pos_lt_pos in Hgt. apply Pos2Z.pos_le_pos in Hle.
  rewrite Pos2Z.inj_pow in Hgt, Hle.
  split; [lia|].
  replace (Z.pos (Pos.size p)) with (Z.pos (Pos.size p) - 1 + 1) in Hle by lia.
  rewrite Z.pow_add_r in Hle by lia. lia.
Qed.

Lemma Zdigits2_le (m d : Z) : 0 < m → m < 2 ^ d → Zdigits2 m ≤ d.
Proof.
  intros Hm Hd. destruct (Zdigits2_bounds m Hm) as [Hpos [Hlo _]].
  destruct (Z.le_gt_cases (Zdigits2 m) d) as [|Hgt]; [done|exfalso].
  assert (0 ≤ d).
  { destruct (Z.le_gt_cases 0 d); [done|]. rewrite Z.pow_neg_r in Hd; lia. }
  assert (2 ^ d ≤ 2 ^ (Zdigits2 m - 1)) by (apply Z.pow_le_mono_r; lia).
  lia.
Qed.

Lemma Zdigits2_ge (m d : Z) : 0 ≤ d → 2 ^ d ≤ m → d < Zdigits2 m.
Proof.
  intros Hd Hm. assert (0 < m) as Hpos by (pose proof (Z.pow_pos_nonneg 2 d); lia).
  destruct (Zdigits2_bounds m Hpos) as [_ [_ Hhi]].
  destruct (Z.lt_ge_cases d (Zdigits2 m)) as [|Hge]; [done|exfalso].
  assert (2 ^ Zdigits2 m ≤ 2 ^ d) by (apply Z.pow_le_mono_r; lia).
  lia.
Qed.

Lemma fexp_mono (a b : Z) : a ≤ b → fexp prec emax a ≤ fexp prec emax b.
Proof. unfold fexp, emin. lia. Qed.

Lemma fexp_ge (a : Z) : a - prec ≤ fexp prec emax a ∧ -1074 ≤ fexp prec emax a.
Proof. unfold fexp, emin, prec, emax. lia. Qed.

Lemma pow2_split (a b : Z) : 0 ≤ a → 0 ≤ b → 2 ^ (a + b) = 2 ^ a * 2 ^ b.
Proof. intros. by rewrite Z.pow_add_r. Qed.

Lemma shifted_trans (k1 k2 : Z) (a b c : shr_record) :
  0 < k1 → 0 < k2 → shifted k1 a b → shifted k2 b c → shifted (k1 * k2) a c.
Proof.
  intros H1 H2 (Hb & Hab & Heb) (Hc & Hbc & Hec).
  split; [done|]. split; [nia|].
  intros Hex. destruct (Hec Hex) as [Hb'|Hb1].
  - destruct (Heb Hb') as [Ha'|Ha1]; [by left|right; nia].
  - right. nia.
Qed.

Lemma shr_1_shifted (mrs : shr_record) :
  0 ≤ shr_m mrs → shifted 2 mrs (shr_1 mrs).
Proof.
  destruct mrs as [m r s]. cbn [shr_m]. intros Hm. unfold shifted, inexact.
  destruct m as [|[p|p|]|p]; cbn [shr_1 shr_m shr_r shr_s]; try lia;
    (split; [lia|]); (split; [lia|]); cbn [orb];
    try (intros _; right; lia); intros Hf; by left.
Qed.

Lemma iter_shr_shifted (p : positive) (mrs : shr_record) :
  0 ≤ shr_m mrs → shifted (2 ^ Z.pos p) mrs (SpecFloat.iter_pos shr_1 p mrs).
Proof.
  revert mrs. induction p as [p IH|p IH|]; intros mrs Hm; cbn [SpecFloat.iter_pos].
  - pose proof (shr_1_shifted mrs Hm) as H1.
    pose proof (IH (shr_1 mrs) (proj1 H1)) as H2.
    pose proof (IH _ (proj1 H2)) as H3.
    replace (2 ^ Z.pos p~1) with (2 * 2 ^ Z.pos p * 2 ^ Z.pos p).
    2:{ replace (Z.pos p~1) with (1 + Z.pos p + Z.pos p) by lia.
        by rewrite !pow2_split by lia. }
    pose proof (Z.pow_pos_nonneg 2 (Z.pos p)).
    eapply shifted_trans; [lia|lia| |exact H3].
    eapply shifted_trans; [lia|lia|exact H1|exact H2].
  - pose proof (IH mrs Hm) as H1. pose proof (IH _ (proj1 H1)) as H2.
    replace (2 ^ Z.pos p~0) with (2 ^ Z.pos p * 2 ^ Z.pos p).
    2:{ replace (Z.pos p~0) with (Z.pos p + Z.pos p) by lia.
        by rewrite pow2_split by lia. }
    pose proof (Z.pow_pos_nonneg 2 (Z.pos p)).
    eapply shifted_trans; [lia|lia|exact H1|exact H2].
  - by apply shr_1_shifted.
Qed.

Lemma inexact_of_loc (m : Z) (l : location) :
  shr_m (shr_record_of_loc m l) = m
  ∧ (inexact (shr_record_of_loc m l) = false ↔ l = loc_Exact)
  ∧ loc_of_shr_record (shr_record_of_loc m l) = l.
Proof. destruct l as [|[]]; cbn; repeat split; try done; discriminate. Qed.

Lemma round_nearest_even_range (mrs : shr_record) :
  let m := round_nearest_even (shr_m mrs) (loc_of_shr_record mrs) in
  shr_m mrs ≤ m ≤ shr_m mrs + 1 ∧ (inexact mrs = false → m = shr_m mrs).
Proof.
  destruct mrs as [m [] []]; cbn; try destruct (Z.even m); split; try lia;
    try done; intros Hf; discriminate Hf.
Qed.

(** What [shr_fexp] does to a mantissa [m] at exponent [e]. *)
Lemma shr_fexp_spec (m e : Z) (l : location) :
  0 ≤ m →
  ∃ mrs' e' k,
    shr_fexp prec emax m e l = (mrs', e')
    ∧ e' = Z.max e (fexp prec emax (Zdigits2 m + e))
    ∧ k = 2 ^ (e' - e)
    ∧ shifted k (shr_record_of_loc m l) mrs'.
Proof.
  intros Hm. unfold shr_fexp, shr.
  destruct (inexact_of_loc m l) as (Hm' & Hex & _).
  destruct (fexp prec emax (Zdigits2 m + e) - e) as [|p|p] eqn:Hn.
  - eexists _, _, _. split; [done|]. split; [lia|]. split; [done|].
    rewrite Z.sub_diag. change (2 ^ 0) with 1.
    unfold shifted. rewrite Hm'. repeat split; try lia. by left.
  - eexists _, _, _. split; [done|]. split; [lia|]. split; [done|].
    replace (e + Z.pos p - e) with (Z.pos p) by lia.
    apply iter_shr_shifted. by rewrite Hm'.
  - eexists _, _, _. split; [done|]. split; [lia|]. split; [done|].
    rewrite Z.sub_diag. change (2 ^ 0) with 1.
    unfold shifted. rewrite Hm'. repeat split; try lia. by left.
Qed.

Lemma digits_under_bound (m e mB eB : Z) :
  0 ≤ m → 0 < mB → e ≤ eB → m ≤ mB * 2 ^ (eB - e) →
  Zdigits2 m + e ≤ Zdigits2 mB + eB.
Proof.
  intros Hm HB He Hle.
  destruct (Zdigits2_bounds mB HB) as (HdB & _ & HhiB).
  destruct (Z.eq_dec m 0) as [->|Hne]; [cbn; lia|].
  assert (Zdigits2 m ≤ Zdigits2 mB + (eB - e)); [|lia].
  apply Zdigits2_le; [lia|].
  rewrite pow2_split by lia.
  pose proof (Z.pow_pos_nonneg 2 (eB - e)). nia.
Qed.

Lemma shr_fexp_bounded (m e : Z) (l : location) (mB eB : Z) :
  float_bound mB eB →
  0 ≤ m → e ≤ eB → m ≤ mB * 2 ^ (eB - e) →
  (l ≠ loc_Exact → m < mB * 2 ^ (eB - e)) →
  ∃ mrs' e',
    shr_fexp prec emax m e l = (mrs', e')
    ∧ e ≤ e' ≤ eB
    ∧ 0 ≤ shr_m mrs' ≤ mB * 2 ^ (eB - e')
    ∧ (inexact mrs' = true → shr_m mrs' < mB * 2 ^ (eB - e')).
Proof.
  intros [HB Hcanon] Hm He Hle Hlt.
  destruct (shr_fexp_spec m e l Hm) as (mrs' & e' & k & Hshr & He' & Hk & Hsh).
  exists mrs', e'. split; [done|].
  assert (e ≤ e' ≤ eB) as Hee.
  { split; [lia|]. rewrite He'. apply Z.max_lub; [done|].
    rewrite <- Hcanon. apply fexp_mono. by apply digits_under_bound. }
  split; [done|].
  destruct (inexact_of_loc m l) as (Hm' & Hex & _).
  destruct Hsh as (H0 & Hbetween & Hexact). rewrite Hm' in Hbetween, Hexact.
  assert (2 ^ (eB - e) = 2 ^ (eB - e') * k) as Hsplit.
  { rewrite Hk, <- pow2_split by lia. f_equal. lia. }
  assert (0 < k) as Hkpos by (rewrite Hk; apply Z.pow_pos_nonneg; lia).
  pose proof (Z.pow_pos_nonneg 2 (eB - e') ltac:(lia) ltac:(lia)) as HT.
  rewrite Hsplit in Hle, Hlt.
  split; [split; [done|nia]|].
  intros Hin. destruct (Hexact Hin) as [Hl|Hcut]; [|nia].
  assert (l ≠ loc_Exact) as Hne.
  { intros ->. cbn in Hl. discriminate Hl. }
  specialize (Hlt Hne). nia.
Qed.

(** Rounding does not go past a float: a mantissa at most the bound, and
    below it when something was already cut off, is rounded to zero or to
    a float at most the bound. *)
Lemma round_bounded (s : bool) (m e : Z) (l : location) (mB eB : Z) :
  float_bound mB eB → eB ≤ emax - prec →
  0 ≤ m → e ≤ eB → m ≤ mB * 2 ^ (eB - e) →
  (l ≠ loc_Exact → m < mB * 2 ^ (eB - e)) →
  binary_round_aux prec emax s m e l = S754_zero s
  ∨ ∃ m3 e3,
      binary_round_aux prec emax s m e l = S754_finite s m3 e3
      ∧ e3 ≤ eB ∧ Z.pos m3 ≤ mB * 2 ^ (eB - e3).
Proof.
  intros HB Hmax Hm He Hle Hlt. unfold binary_round_aux.
  destruct (shr_fexp_bounded m e l mB eB HB Hm He Hle Hlt)
    as (mrs1 & e1 & -> & He1 & Hm1 & Hin1).
  destruct (round_nearest_even_range mrs1) as [Hr Hrex].
  set (m2 := round_nearest_even (shr_m mrs1) (loc_of_shr_record mrs1)) in *.
  assert (0 ≤ m2 ≤ mB * 2 ^ (eB - e1)) as Hm2.
  { split; [lia|]. destruct (inexact mrs1) eqn:Hi.
    - specialize (Hin1 eq_refl). lia.
    - rewrite (Hrex eq_refl). lia. }
  destruct (shr_fexp_bounded m2 e1 loc_Exact mB eB HB (proj1 Hm2) (proj2 He1)
              (proj2 Hm2) ltac:(done))
    as (mrs3 & e3 & -> & He3 & Hm3 & _).
  destruct (shr_m mrs3) as [|m3|m3] eqn:Hs3; [by left| |lia].
  right. exists m3, e3.
  rewrite (proj2 (Z.leb_le e3 (emax - prec))) by lia.
  split; [done|]. split; [lia|lia].
Qed.

(** A shift of a mantissa that is not subnormal keeps its digits. *)
Lemma shr_fexp_large (m e : Z) (l : location) :
  0 < m → prec - 1074 ≤ Zdigits2 m + e →
  ∃ mrs' e',
    shr_fexp prec emax m e l = (mrs', e')
    ∧ 0 < shr_m mrs' ∧ Zdigits2 m + e - prec ≤ e'
    ∧ Zdigits2 m + e ≤ Zdigits2 (shr_m mrs') + e'.
Proof.
  intros Hm Hd.
  destruct (shr_fexp_spec m e l ltac:(lia)) as (mrs' & e' & k & Hshr & He' & Hk & Hsh).
  exists mrs', e'. split; [done|].
  destruct (inexact_of_loc m l) as (Hm' & _ & _).
  destruct Hsh as (H0 & Hbetween & _). rewrite Hm' in Hbetween.
  destruct (fexp_ge (Zdigits2 m + e)) as [Hf1 Hf2].
  destruct (Zdigits2_bounds m Hm) as (Hdpos & Hlo & Hhi).
  assert (fexp prec emax (Zdigits2 m + e) = Zdigits2 m + e - prec) as Hfexp.
  { unfold fexp, emin, prec, emax in *. lia. }
  rewrite Hfexp in He'.
  assert (0 < k) as Hkpos by (rewrite Hk; apply Z.pow_pos_nonneg; lia).
  assert (e' - e ≤ Zdigits2 m - 1) as Hshift by (unfold prec in *; lia).
  assert (2 ^ (Zdigits2 m - 1) = 2 ^ (Zdigits2 m - 1 - (e' - e)) * k) as Hsplit.
  { rewrite Hk, <- pow2_split by lia. f_equal. lia. }
  pose proof (Z.pow_pos_nonneg 2 (Zdigits2 m - 1 - (e' - e)) ltac:(lia) ltac:(lia)).
  assert (2 ^ (Zdigits2 m - 1 - (e' - e)) ≤ shr_m mrs') as Hlow by nia.
  split; [lia|]. split; [lia|].
  apply Zdigits2_ge in Hlow; lia.
Qed.

(** Rounding a mantissa of more than [emax] digits gives an infinity. *)
Lemma round_overflows (s : bool) (m e : Z) (l : location) :
  0 < m → emax < Zdigits2 m + e →
  binary_round_aux prec emax s m e l = S754_infinity s.
Proof.
  intros Hm Hd. unfold binary_round_aux.
  destruct (shr_fexp_large m e l Hm ltac:(unfold prec, emax in *; lia))
    as (mrs1 & e1 & -> & Hm1 & He1 & Hd1).
  destruct (round_nearest_even_range mrs1) as [Hr _].
  set (m2 := round_nearest_even (shr_m mrs1) (loc_of_shr_record mrs1)) in *.
  assert (0 < m2) as Hm2 by lia.
  assert (Zdigits2 (shr_m mrs1) ≤ Zdigits2 m2) as Hd2.
  { destruct (Zdigits2_bounds _ Hm1) as (? & Hlo & _).
    assert (Zdigits2 (shr_m mrs1) - 1 < Zdigits2 m2); [|lia].
    apply Zdigits2_ge; lia. }
  destruct (shr_fexp_large m2 e1 loc_Exact Hm2 ltac:(unfold prec, emax in *; lia))
    as (mrs3 & e3 & -> & Hm3 & He3 & _).
  destruct (shr_m mrs3) as [|m3|m3] eqn:Hs3; [lia| |lia].
  destruct (Z.leb_spec e3 (emax - prec)) as [Hle|]; [|done].
  unfold prec, emax in *. lia.
Qed.

(** The parts of the quotient of two positive [int]s. *)
Lemma div_core_spec (a b : Z) :
  0 < a → 0 < b →
  ∃ q r e,
    SFdiv_core_binary prec emax a 0 b 0 = (q, e, new_location b r)
    ∧ e = Z.min (fexp prec emax (Zdigits2 a - Zdigits2 b)) 0
    ∧ a * 2 ^ (- e) = q * b + r ∧ 0 ≤ r < b ∧ 0 ≤ q.
Proof.
  intros Ha Hb. unfold SFdiv_core_binary.
  rewrite !Z.add_0_r, !Z.sub_0_l, !Z.sub_0_r.
  set (e := Z.min (fexp prec emax (Zdigits2 a - Zdigits2 b)) 0).
  set (m' := match - e with Z.pos _ => Z.shiftl a (- e) | Z0 => a | Z.neg _ => 0 end).
  assert (m' = a * 2 ^ (- e)) as Hm'.
  { subst m'. assert (0 ≤ - e) as Hs by lia.
    destruct (- e) as [|p|p] eqn:Hse; [cbn; lia| |lia].
    by rewrite Z.shiftl_mul_pow2. }
  pose proof (Z_div_mod m' b ltac:(lia)) as Hdiv.
  destruct (Z.div_eucl m' b) as [q r]. destruct Hdiv as [Heq Hr].
  exists q, r, e. split; [done|]. split; [done|].
  split; [lia|]. split; [done|].
  pose proof (Z.pow_pos_nonneg 2 (- e) ltac:(lia) ltac:(lia)). nia.
Qed.

Lemma new_location_exact (b r : Z) : new_location b r = loc_Exact ↔ r = 0.
Proof.
  unfold new_location, new_location_even, new_location_odd.
  destruct (Z.even b); destruct (Z.eqb_spec r 0); split; try done.
Qed.

(** A quotient below [2^1023] in magnitude is a float. *)
Lemma quotient_finite (a b : Z) :
  b ≠ 0 → Z.abs a < 2 ^ 1023 * Z.abs b →
  truediv a b = Some (quotient a b).
Proof.
  intros Hb Hlt. unfold truediv. rewrite (proj2 (Z.eqb_neq b 0) Hb).
  unfold quotient. destruct (Z.eq_dec a 0) as [->|Ha]; [done|].
  destruct (div_core_spec (Z.abs a) (Z.abs b) ltac:(lia) ltac:(lia))
    as (q & r & e & -> & He & Hqr & Hr & Hq).
  assert (float_bound (2 ^ 52) 971) as HB.
  { split; [done|]. by vm_compute. }
  assert (e ≤ 0) as He0 by lia.
  assert (q < 2 ^ 52 * 2 ^ (971 - e)) as Hbound.
  { replace (971 - e) with (971 + - e) by lia.
    rewrite pow2_split by lia.
    pose proof (Z.pow_pos_nonneg 2 (- e) ltac:(lia) ltac:(lia)).
    change (2 ^ 1023) with (2 ^ 52 * 2 ^ 971) in Hlt. nia. }
  destruct (round_bounded (xorb (a <? 0) (b <? 0)) q e (new_location (Z.abs b) r)
              (2 ^ 52) 971 HB ltac:(done) Hq ltac:(lia) ltac:(lia)
              ltac:(intros _; exact Hbound))
    as [Hz|(m3 & e3 & Hf & _)].
  - destruct a; [done| |]; by rewrite Hz.
  - destruct a; [done| |]; by rewrite Hf.
Qed.

(** A quotient of at least [2^1024] in magnitude is too large. *)
Lemma quotient_overflows (a b : Z) :
  b ≠ 0 → 2 ^ 1024 * Z.abs b ≤ Z.abs a → truediv a b = None.
Proof.
  intros Hb Hge. unfold truediv. rewrite (proj2 (Z.eqb_neq b 0) Hb).
  unfold quotient. destruct (Z.eq_dec a 0) as [->|Ha]; [cbn in Hge; lia|].
  destruct (div_core_spec (Z.abs a) (Z.abs b) ltac:(lia) ltac:(lia))
    as (q & r & e & -> & He & Hqr & Hr & Hq).
  assert (e ≤ 0) as He0 by lia.
  assert (2 ^ (1024 + - e) ≤ q) as Hbig.
  { rewrite pow2_split by lia.
    pose proof (Z.pow_pos_nonneg 2 (- e) ltac:(lia) ltac:(lia)).
    pose proof (Z.pow_pos_nonneg 2 1024 ltac:(lia) ltac:(lia)).
    assert (2 ^ 1024 * 2 ^ (- e) * Z.abs b ≤ q * Z.abs b + r) as H1 by nia.
    destruct (Z.le_gt_cases (2 ^ 1024 * 2 ^ (- e)) q) as [|Hgt]; [done|]. nia. }
  apply Zdigits2_ge in Hbig; [|lia].
  assert (0 < q) as Hqpos.
  { destruct (Z.eq_dec q 0) as [->|]; [cbn in Hbig; lia|lia]. }
  rewrite (round_overflows _ q e _ Hqpos ltac:(unfold emax; lia)).
  by destruct a.
Qed.

(** The share of a count in a total is a float between 0 and 1. *)
Lemma quotient_share (k n : Z) :
  0 ≤ k ≤ n → 0 < n →
  truediv k n = Some (quotient k n) ∧ at_most (2 ^ 52) (-52) (quotient k n).
Proof.
  intros Hk Hn. split.
  { apply quotient_finite; [lia|].
    pose proof (Z.pow_pos_nonneg 2 1023 ltac:(lia) ltac:(lia)). nia. }
  unfold quotient. destruct (Z.eq_dec k 0) as [->|Hk0].
  { left. by rewrite (proj2 (Z.ltb_ge n 0)) by lia. }
  destruct (div_core_spec (Z.abs k) (Z.abs n) ltac:(lia) ltac:(lia))
    as (q & r & e & -> & He & Hqr & Hr & Hq).
  rewrite !Z.abs_eq in * by lia.
  rewrite (proj2 (Z.ltb_ge k 0)), (proj2 (Z.ltb_ge n 0)) by lia. cbn [xorb].
  assert (float_bound (2 ^ 52) (-52)) as HB.
  { split; [done|]. by vm_compute. }
  assert (Zdigits2 k ≤ Zdigits2 n) as Hd.
  { destruct (Zdigits2_bounds n Hn) as (_ & _ & Hhi).
    apply Zdigits2_le; lia. }
  assert (e ≤ -52) as He52.
  { rewrite He. unfold fexp, emin, prec, emax. lia. }
  assert (2 ^ 52 * 2 ^ (-52 - e) = 2 ^ (- e)) as Hone.
  { rewrite <- pow2_split by lia. f_equal. lia. }
  pose proof (Z.pow_pos_nonneg 2 (- e) ltac:(lia) ltac:(lia)) as Hpow.
  assert (q ≤ 2 ^ (- e)) as Hle by nia.
  assert (r ≠ 0 → q < 2 ^ (- e)) as Hlt by nia.
  destruct (round_bounded false q e (new_location n r) (2 ^ 52) (-52) HB
              ltac:(done) Hq He52 ltac:(lia)
              ltac:(rewrite new_location_exact, Hone; exact Hlt))
    as [Hz|(m3 & e3 & Hf & Hbound)].
  - destruct k; [done| |lia]. rewrite Hz. by left.
  - destruct k; [done| |lia]. rewrite Hf. right. by exists m3, e3.
Qed.

Lemma of_int_100 : of_int 100 = S754_finite false 7036874417766400 (-46).
Proof. by vm_compute. Qed.

(** A hundred times a float between 0 and 1 is at most 100. *)
Lemma percent_at_most (x : float) :
  at_most (2 ^ 52) (-52) x → 0 ≤ to_int (fmul x (of_int 100)) ≤ 100.
Proof.
  rewrite of_int_100. intros [->|(m & e & -> & He & Hm)]; [done|].
  cbn [fmul SFmul xorb].
  assert (float_bound 7036874417766400 (-46)) as HB.
  { split; [done|]. by vm_compute. }
  assert (2 ^ 52 * 2 ^ (-52 - e) = 2 ^ (- e)) as Hone.
  { rewrite <- pow2_split by lia. f_equal. lia. }
  rewrite Hone in Hm.
  pose proof (Z.pow_pos_nonneg 2 (- e) ltac:(lia) ltac:(lia)) as Hpow.
  destruct (round_bounded false (Z.pos (m * 7036874417766400)) (e + -46)
              loc_Exact 7036874417766400 (-46) HB ltac:(done) ltac:(lia)
              ltac:(lia)) as [->|(m3 & e3 & -> & He3 & Hm3)]; [| |done|].
  - replace (-46 - (e + -46)) with (- e) by lia. rewrite Pos2Z.inj_mul. nia.
  - done.
  - cbn [to_int cond_Zopp]. unfold trunc_mag.
    destruct e3 as [|p|p]; [lia|lia|].
    replace (-46 - Z.neg p) with (Z.pos p - 46) in Hm3 by lia.
    pose proof (Z.pow_pos_nonneg 2 (Z.pos p) ltac:(lia) ltac:(lia)) as Hp.
    split; [apply Z.div_pos; lia|].
    apply Z.div_le_upper_bound; [lia|].
    assert (Z.pos p = 46 + (Z.pos p - 46)) as Hsplit by lia.
    rewrite Hsplit at 1. rewrite pow2_split by lia.
    change (7036874417766400) with (100 * 2 ^ 46) in Hm3. lia.
Qed.

(* ===================================================================== *)
(** * Properties of the page scorer *)
(* ===================================================================== *)

Lemma clamp_range (n lo hi : Z) : lo ≤ hi → lo ≤ clamp n lo hi ≤ hi.
Proof. unfold clamp. lia. Qed.

Lemma clamp_id (n lo hi : Z) : lo ≤ n ≤ hi → clamp n lo hi = n.
Proof. unfold clamp. lia. Qed.

(** The dictionary [score_page] builds, with its six assignments done. *)
Lemma score_page_breakdown (p : PageAudit.t) :
  score_page p =
  lm ← links_media_points p;
  Some (clamp (meta_points p) 0 25 + clamp (content_points p) 0 25
        + clamp (structure_points p) 0 15 + clamp (schema_points p) 0 15
        + clamp lm 0 10 + clamp (basics_perf_points p) 0 10,
        [("meta", clamp (meta_points p) 0 25);
         ("content", clamp (content_points p) 0 25);
         ("structure", clamp (structure_points p) 0 15);
         ("schema", clamp (schema_points p) 0 15);
         ("links_media", clamp lm 0 10);
         ("basics_perf", clamp (basics_perf_points p) 0 10)]).
Proof.
  unfold score_page. destruct (links_media_points p) as [lm|]; [|done].
  cbn [mbind option_bind].
  generalize (clamp (meta_points p) 0 25) (clamp (content_points p) 0 25)
    (clamp (structure_points p) 0 15) (clamp (schema_points p) 0 15)
    (clamp lm 0 10) (clamp (basics_perf_points p) 0 10).
  intros m c s sc l bp. reflexivity.
Qed.

(** The only thing that can raise in [score_page] is the quotient of the
    two image counts. *)
Lemma links_media_points_None (p : PageAudit.t) :
  links_media_points p = None
  ↔ PageAudit.images p ≠ 0
    ∧ truediv (PageAudit.images_missing_alt p) (Z.max 1 (PageAudit.images p))
      = None.
Proof.
  unfold links_media_points.
  destruct (Z.eqb_spec (PageAudit.images p) 0) as [Hz|Hnz].
  { cbn [mbind option_bind]. split; [done|]. by intros [? _]. }
  destruct (truediv _ _) as [ratio|]; cbn [mbind option_bind].
  - split; [done|]. by intros [_ ?].
  - done.
Qed.

Lemma score_page_None (p : PageAudit.t) :
  score_page p = None ↔ links_media_points p = None.
Proof.
  rewrite score_page_breakdown.
  by destruct (links_media_points p) as [lm|].
Qed.

(** [score_page] returns when the ratio of the image counts is below
    [2^1023], and raises when it is [2^1024] or more. *)
Lemma score_page_returns (p : PageAudit.t) :
  PageAudit.images p = 0
  ∨ Z.abs (PageAudit.images_missing_alt p)
    < 2 ^ 1023 * Z.max 1 (PageAudit.images p) →
  is_Some (score_page p).
Proof.
  intros Hfits. destruct (score_page p) as [r|] eqn:Hscore; [by eexists|].
  apply score_page_None, links_media_points_None in Hscore as [Hnz Hdiv].
  destruct Hfits as [Hz|Hlt]; [done|].
  rewrite quotient_finite in Hdiv; [done|lia|].
  by rewrite (Z.abs_eq (Z.max 1 _)) by lia.
Qed.

Lemma score_page_raises (p : PageAudit.t) :
  PageAudit.images p ≠ 0 →
  2 ^ 1024 * Z.max 1 (PageAudit.images p)
  ≤ Z.abs (PageAudit.images_missing_alt p) →
  score_page p = None.
Proof.
  intros Hnz Hbig. apply score_page_None, links_media_points_None.
  split; [done|]. apply quotient_overflows; [lia|].
  by rewrite (Z.abs_eq (Z.max 1 _)) by lia.
Qed.

(** [score_page] returns on every record whose image counts are those of
    a page: no more images without [alt] than images. *)
Lemma score_page_counts (p : PageAudit.t) :
  0 ≤ PageAudit.images_missing_alt p ≤ PageAudit.images p →
  is_Some (score_page p).
Proof.
  intros Hcounts. apply score_page_returns.
  destruct (Z.eq_dec (PageAudit.images p) 0) as [Hz|Hnz]; [by left|right].
  pose proof (Z.pow_pos_nonneg 2 1023 ltac:(lia) ltac:(lia)). nia.
Qed.

(** C1, amended. [score_page] returns for every record whose ratio of
    images without [alt] fits a float, that is with no image at all or
    with [|images_missing_alt| < 2^1023 * max(1, images)], and it raises
    when there are images and the ratio is [2^1024] or more. When it
    returns, the breakdown has the six categories as its keys, each value
    lies between 0 and the ceiling of its category, and the total is the
    sum of the six values and lies between 0 and 100. *)
Theorem score_page_total_and_breakdown (p : PageAudit.t) :
  (PageAudit.images p = 0
   ∨ Z.abs (PageAudit.images_missing_alt p)
     < 2 ^ 1023 * Z.max 1 (PageAudit.images p) →
   is_Some (score_page p))
  ∧ (PageAudit.images p ≠ 0 →
     2 ^ 1024 * Z.max 1 (PageAudit.images p)
     ≤ Z.abs (PageAudit.images_missing_alt p) →
     score_page p = None)
  ∧ (∀ (total : Z) (breakdown : PyDict.dict Z),
       score_page p = Some (total, breakdown) →
       PyDict.keys breakdown = categories
       ∧ Forall2 (λ v ceiling, 0 ≤ v ≤ ceiling) (PyDict.values breakdown) ceilings
       ∧ total = zsum (PyDict.values breakdown)
       ∧ 0 ≤ total ≤ 100).
Proof.
  split; [apply score_page_returns|]. split; [apply score_page_raises|].
  intros total breakdown. rewrite score_page_breakdown.
  destruct (links_media_points p) as [lm|]; [|done].
  cbn [mbind option_bind]. intros [= <- <-].
  pose proof (clamp_range (meta_points p) 0 25 ltac:(lia)).
  pose proof (clamp_range (content_points p) 0 25 ltac:(lia)).
  pose proof (clamp_range (structure_points p) 0 15 ltac:(lia)).
  pose proof (clamp_range (schema_points p) 0 15 ltac:(lia)).
  pose proof (clamp_range lm 0 10 ltac:(lia)).
  pose proof (clamp_range (basics_perf_points p) 0 10 ltac:(lia)).
  split; [reflexivity|].
  split; [unfold ceilings; cbn [PyDict.values map snd]; repeat constructor; lia|].
  split; [|lia].
  unfold zsum. cbn [PyDict.values map snd fold_left]. lia.
Qed.

(** C1, as the specification states it, fails: a record with one image
    and [10^400] images without [alt] is rejected, for the ratio of the
    two counts is too large for a float. *)
Lemma huge_alt_ratio_rejected :
  PageAudit.images huge_alt_page = 1
  ∧ PageAudit.images_missing_alt huge_alt_page = 10 ^ 400
  ∧ score_page huge_alt_page = None.
Proof. split; [done|]. split; [done|]. by vm_compute. Qed.

Lemma score_page_total_and_breakdown_witness :
  is_Some (score_page (degraded "https://a.com/"))
  ∧ score_page huge_alt_page = None
  ∧ score_page (degraded "https://a.com/")
    = Some (8, [("meta", 0); ("content", 0); ("structure", 0); ("schema", 0);
                ("links_media", 2); ("basics_perf", 6)])
  ∧ 0 ≤ 8 ≤ 100.
Proof.
  assert (score_page (degraded "https://a.com/")
          = Some (8, [("meta", 0); ("content", 0); ("structure", 0);
                      ("schema", 0); ("links_media", 2); ("basics_perf", 6)]))
    as Hscore by by vm_compute.
  split; [|split; [|split; [exact Hscore|]]].
  - apply (proj1 (score_page_total_and_breakdown (degraded "https://a.com/"))).
    by left.
  - apply (proj1 (proj2 (score_page_total_and_breakdown huge_alt_page))).
    + done.
    + vm_compute. intros Hgt. discriminate Hgt.
  - exact (proj2 (proj2 (proj2
             (proj2 (proj2 (score_page_total_and_breakdown
                              (degraded "https://a.com/"))) _ _ Hscore)))).
Defined.

(* ===================================================================== *)
(** * Properties of the site aggregator *)
(* ===================================================================== *)

Lemma count_if_range (cond : PageAudit.t → bool) (pages : list PageAudit.t) :
  0 ≤ count_if cond pages ≤ len pages.
Proof.
  unfold count_if, zsum, len.
  assert (∀ (l : list PageAudit.t) (a : Z),
            fold_left Z.add (map (λ _ : PageAudit.t, 1) l) a
            = a + Z.of_nat (length l)) as Hsum.
  { induction l as [|x l IH]; intros a; cbn [map fold_left length]; [lia|].
    rewrite IH. lia. }
  rewrite Hsum.
  pose proof (length_filter (λ p, Is_true (cond p)) pages). lia.
Qed.

(** On a site with pages no share raises, and every share is a float
    between 0 and 1. *)
Lemma share_quotient (cond : PageAudit.t → bool) (pages : list PageAudit.t) :
  pages ≠ [] →
  share cond pages = Some (quotient (count_if cond pages) (len pages)).
Proof.
  intros Hpages. unfold share.
  apply quotient_share; [apply count_if_range|].
  unfold len. destruct pages; [done|]. cbn [length]. lia.
Qed.

Lemma share_at_most (cond : PageAudit.t → bool) (pages : list PageAudit.t) :
  pages ≠ [] →
  at_most (2 ^ 52) (-52) (quotient (count_if cond pages) (len pages)).
Proof.
  intros Hpages. apply quotient_share; [apply count_if_range|].
  unfold len. destruct pages; [done|]. cbn [length]. lia.
Qed.

(** What [sector_scores] returns on a site with pages. *)
Lemma sector_scores_pages (site : SiteAudit.t) :
  let pages := SiteAudit.pages site in
  let part := λ cond, quotient (count_if cond pages) (len pages) in
  pages ≠ [] →
  sector_scores site
  = Some
      {| rast :=
           clamp (0 + (if truthy_flag (SiteAudit.robots_ok site) then 34 else 0)
                  + (if truthy_flag (SiteAudit.sitemap_ok site) then 33 else 0)
                  + (if truthy_flag (SiteAudit.llms_ok site) then 33 else 0))
             0 100;
         content :=
           clamp
             (to_int
                (fadd
                   (fadd
                      (fadd
                         (fadd
                            (scale (part (λ p, len (PageAudit.h1 p) =? 1)) 25)
                            (scale (part (λ p, truthy (PageAudit.title p))) 25))
                         (scale
                            (part (λ p, truthy (PageAudit.meta_description p)))
                            20))
                      (scale (part (λ p, 150 <=? PageAudit.word_count p)) 20))
                   (scale (part (λ p, truthy (PageAudit.lang p))) 10)))
             0 100;
         schema :=
           clamp
             (to_int
                (scale
                   (part (λ p, negb (bool_decide (PageAudit.schema_types p = []))))
                   100))
             0 100;
         links_media :=
           clamp
             (to_int
                (fadd
                   (scale
                      (part (λ p, (PageAudit.images p =? 0)
                                  || (PageAudit.images_missing_alt p =? 0)))
                      50)
                   (scale (part (λ p, 1 <=? PageAudit.internal_links p)) 50)))
             0 100;
         perf :=
           (let avg := fdiv (fsum (map PageAudit.load_time_sec pages))
                         (of_int (len pages)) in
            if flt avg f2_0 then 95
            else if flt avg f4_0 then 85
            else if flt avg f6_0 then 70
            else 55);
         social :=
           to_int
             (scale
                (part (λ p, PyDict.truthy (PageAudit.og p)
                            || PyDict.truthy (PageAudit.twitter p)))
                100) |}.
Proof.
  intros pages part Hpages. subst part. unfold sector_scores. fold pages.
  destruct pages as [|p0 ps] eqn:Heq; [done|].
  rewrite !(share_quotient _ (p0 :: ps) Hpages). reflexivity.
Qed.

(** C10. On a site with at least one page the crawlability score is the
    sum, clamped to [0, 100], of 34, 33 and 33 for those of the robots,
    sitemap and llms flags that are [True]; a flag that is [None] adds 0,
    as [False] does. The sum never leaves [0, 100], so the clamp changes
    nothing. *)
Theorem sector_scores_crawlability (site : SiteAudit.t) :
  SiteAudit.pages site ≠ [] →
  ∃ sec,
    sector_scores site = Some sec
    ∧ rast sec
      = clamp (flag_points (SiteAudit.robots_ok site) 34
               + flag_points (SiteAudit.sitemap_ok site) 33
               + flag_points (SiteAudit.llms_ok site) 33) 0 100
    ∧ rast sec
      = flag_points (SiteAudit.robots_ok site) 34
        + flag_points (SiteAudit.sitemap_ok site) 33
        + flag_points (SiteAudit.llms_ok site) 33.
Proof.
  intros Hpages. eexists. split; [by apply sector_scores_pages|].
  cbn [rast].
  destruct (SiteAudit.robots_ok site) as [[]|],
    (SiteAudit.sitemap_ok site) as [[]|],
    (SiteAudit.llms_ok site) as [[]|]; by vm_compute.
Qed.

Lemma sector_scores_crawlability_witness :
  ∃ sec,
    sector_scores
      {| SiteAudit.start_url := "https://a.com/"; SiteAudit.host := "a.com";
         SiteAudit.pages := [degraded "https://a.com/"];
         SiteAudit.robots_url := "https://a.com/robots.txt";
         SiteAudit.sitemap_url := "https://a.com/sitemap.xml";
         SiteAudit.llms_url := "https://a.com/llms.txt";
         SiteAudit.robots_ok := Some true;
         SiteAudit.sitemap_ok := None;
         SiteAudit.llms_ok := Some false |} = Some sec
    ∧ rast sec = 34.
Proof.
  destruct (sector_scores_crawlability
              {| SiteAudit.start_url := "https://a.com/"; SiteAudit.host := "a.com";
                 SiteAudit.pages := [degraded "https://a.com/"];
                 SiteAudit.robots_url := "https://a.com/robots.txt";
                 SiteAudit.sitemap_url := "https://a.com/sitemap.xml";
                 SiteAudit.llms_url := "https://a.com/llms.txt";
                 SiteAudit.robots_ok := Some true;
                 SiteAudit.sitemap_ok := None;
                 SiteAudit.llms_ok := Some false |} ltac:(discriminate))
    as (sec & Hsec & _ & Hrast).
  exists sec. split; [exact Hsec|exact Hrast].
Defined.

(* ===================================================================== *)
(** * Properties of the extractor *)
(* ===================================================================== *)

Lemma fold_left_invariant {S X : Type} (I : S → Prop) (f : S → X → S)
    (xs : list X) (s : S) :
  (∀ s x, I s → I (f s x)) → I s → I (fold_left f xs s).
Proof.
  intros Hstep. revert s. induction xs as [|x xs IH]; simpl; auto.
Qed.

Lemma for_each_app {S X : Type} (body : S → X → option S) (xs ys : list X)
    (s : S) :
  for_each body (xs ++ ys) s = for_each body xs s ≫= for_each body ys.
Proof.
  revert s. induction xs as [|x xs IH]; intros s; [done|].
  cbn [for_each app]. destruct (body s x) as [s1|]; [|done]. apply IH.
Qed.

Lemma is_anchor_link_stripped (href : string) :
  truthy (strip href) = true →
  is_anchor_link (strip href)
  = startswith (strip href) "#" || startswith (strip href) "/#".
Proof.
  intros Hne. unfold is_anchor_link. rewrite Hne, strip_idem. cbn [negb].
  by destruct (startswith (strip href) "#"), (startswith (strip href) "/#").
Qed.

(** An anchor link, in the words of the specification, is an href that
    counts and passes [is_anchor_link]. *)
Lemma anchor_href_counts (href : string) :
  anchor_href href = countable_href href && is_anchor_link (strip href).
Proof.
  unfold anchor_href, countable_href.
  destruct (truthy (strip href)) eqn:Hne; [|done].
  by rewrite is_anchor_link_stripped.
Qed.

Lemma count_of_cons {X : Type} (test : X → bool) (x : X) (l : list X) :
  count_of test (x :: l) = (if test x then 1 else 0) + count_of test l.
Proof.
  unfold count_of, len. cbn [List.filter]. destruct (test x); cbn [length]; lia.
Qed.


Section Extractor.
Context `{UrlLib} `{JsonLib} `{HtmlLib}.

Lemma count_href_anchor (final_url : string) (c : link_counts) (href : string) :
  anchor_href href = true →
  count_href final_url c href = Some (add_counts c one_anchor).
Proof.
  rewrite anchor_href_counts. unfold countable_href.
  intros [[Hne Hskip%negb_true_iff]%andb_prop Hanchor]%andb_prop.
  unfold count_href. rewrite Hne, Hskip, Hanchor. cbn [negb].
  unfold add_counts, one_anchor. cbn [internal external nofollow anchors].
  do 2 f_equal; lia.
Qed.

(** What one round of the loop over [hrefs] does to the counters, when it
    does not raise. *)
Lemma count_href_step (final_url : string) (c c' : link_counts) (h : string) :
  count_href final_url c h = Some c' →
  internal c' + external c'
  = internal c + external c + (if countable_href h then 1 else 0)
  ∧ anchors c' = anchors c + (if anchor_href h then 1 else 0)
  ∧ nofollow c' = nofollow c
  ∧ internal c + (if anchor_href h then 1 else 0) ≤ internal c'
  ∧ external c ≤ external c'.
Proof.
  rewrite anchor_href_counts. unfold count_href, countable_href.
  destruct (truthy (strip h)); cbn [negb andb].
  2:{ intros [= <-]. lia. }
  destruct (is_skippable (strip h)); cbn [negb andb].
  { intros [= <-]. lia. }
  destruct (is_anchor_link (strip h)).
  { intros [= <-]. cbn [internal external anchors nofollow]. lia. }
  destruct (urljoin final_url (strip h)) as [joined|]; [|done].
  cbn [mbind option_bind].
  destruct (norm_url joined) as [absu|]; [|done]. cbn [mbind option_bind].
  destruct (if startswith absu "http" then same_host final_url absu
            else Some false) as [[]|]; [| |done]; cbn [mbind option_bind].
  { intros [= <-]. cbn [internal external anchors nofollow]. lia. }
  destruct (negb (startswith absu "http")); intros [= <-];
    cbn [internal external anchors nofollow]; lia.
Qed.

(** The same round from counters that are larger by [d]. *)
Lemma count_href_shift (final_url : string) (c c' d : link_counts) (h : string) :
  count_href final_url c h = Some c' →
  count_href final_url (add_counts c d) h = Some (add_counts c' d).
Proof.
  unfold count_href.
  destruct (truthy (strip h)); cbn [negb]; [|by intros [= <-]].
  destruct (is_skippable (strip h)); [by intros [= <-]|].
  destruct (is_anchor_link (strip h)).
  { intros [= <-]. unfold add_counts. cbn [internal external anchors nofollow].
    do 2 f_equal; lia. }
  destruct (urljoin final_url (strip h)) as [joined|]; [|done].
  cbn [mbind option_bind].
  destruct (norm_url joined) as [absu|]; [|done]. cbn [mbind option_bind].
  destruct (if startswith absu "http" then same_host final_url absu
            else Some false) as [[]|]; [| |done]; cbn [mbind option_bind].
  { intros [= <-]. unfold add_counts. cbn [internal external anchors nofollow].
    do 2 f_equal; lia. }
  destruct (negb (startswith absu "http")); intros [= <-];
    unfold add_counts; cbn [internal external anchors nofollow];
    do 2 f_equal; lia.
Qed.

Lemma count_hrefs_shift (final_url : string) (hrefs : list string)
    (c c' d : link_counts) :
  for_each (count_href final_url) hrefs c = Some c' →
  for_each (count_href final_url) hrefs (add_counts c d)
  = Some (add_counts c' d).
Proof.
  revert c. induction hrefs as [|h hrefs IH]; intros c; cbn [for_each].
  { by intros [= <-]. }
  destruct (count_href final_url c h) as [c1|] eqn:Hstep; [|done].
  rewrite (count_href_shift _ _ _ d _ Hstep). cbn [mbind option_bind].
  apply IH.
Qed.

Lemma count_rel_shift (c d : link_counts) (hr : string * list string) :
  count_rel (add_counts c d) hr = add_counts (count_rel c hr) d.
Proof.
  destruct hr as [href rels]. unfold count_rel.
  destruct (negb (truthy href)); [done|].
  destruct (is_skippable (strip href)); [done|].
  destruct (in_list "nofollow" rels); [|done].
  unfold add_counts. cbn [internal external anchors nofollow]. f_equal; lia.
Qed.

Lemma count_rels_shift (link_rel_data : list (string * list string))
    (c d : link_counts) :
  fold_left count_rel link_rel_data (add_counts c d)
  = add_counts (fold_left count_rel link_rel_data c) d.
Proof.
  revert c. induction link_rel_data as [|hr l IH]; intros c; cbn [fold_left];
    [done|]. by rewrite count_rel_shift, IH.
Qed.

(** One more anchor link among the hrefs, wherever it stands, adds
    [one_anchor] to the counters. *)
Lemma count_links_anchor (final_url : string) (hrefs1 hrefs2 : list string)
    (href : string) (link_rel_data : list (string * list string))
    (c : link_counts) :
  anchor_href href = true →
  count_links final_url (hrefs1 ++ hrefs2) link_rel_data = Some c →
  count_links final_url (hrefs1 ++ href :: hrefs2) link_rel_data
  = Some (add_counts c one_anchor).
Proof.
  intros Hanchor. unfold count_links. rewrite !for_each_app.
  destruct (for_each (count_href final_url) hrefs1 _) as [c1|]; [|done].
  cbn [mbind option_bind for_each].
  rewrite (count_href_anchor final_url c1 href Hanchor). cbn [mbind option_bind].
  destruct (for_each (count_href final_url) hrefs2 c1) as [c2|] eqn:Hrest;
    [|done].
  rewrite (count_hrefs_shift _ _ _ _ one_anchor Hrest). cbn [mbind option_bind].
  intros [= <-]. by rewrite count_rels_shift.
Qed.

(** The counters after the loop over [hrefs]. *)
Lemma count_hrefs_total (final_url : string) (hrefs : list string)
    (c c' : link_counts) :
  for_each (count_href final_url) hrefs c = Some c' →
  internal c' + external c' = internal c + external c + count_of countable_href hrefs
  ∧ anchors c' = anchors c + count_of anchor_href hrefs
  ∧ nofollow c' = nofollow c
  ∧ internal c + count_of anchor_href hrefs ≤ internal c'
  ∧ external c ≤ external c'.
Proof.
  revert c. induction hrefs as [|h hrefs IH]; intros c; cbn [for_each].
  { intros [= <-]. unfold count_of, len. cbn. lia. }
  destruct (count_href final_url c h) as [c1|] eqn:Hstep; [|done].
  cbn [mbind option_bind]. intros Hrest.
  destruct (IH c1 Hrest) as (IH1 & IH2 & IH3 & IH4 & IH5).
  destruct (count_href_step final_url c c1 h Hstep) as (Hs1 & Hs2 & Hs3 & Hs4 & Hs5).
  rewrite !count_of_cons. lia.
Qed.

Lemma count_rel_step (c : link_counts) (hr : string * list string) :
  let c' := count_rel c hr in
  internal c' = internal c ∧ external c' = external c ∧ anchors c' = anchors c
  ∧ nofollow c' = nofollow c + (if counted_nofollow hr then 1 else 0).
Proof.
  cbv zeta. destruct hr as [href rels]. unfold count_rel, counted_nofollow.
  cbn [fst snd].
  destruct (truthy href); cbn [negb andb]; [|lia].
  destruct (is_skippable (strip href)); cbn [negb andb]; [lia|].
  destruct (in_list "nofollow" rels); cbn [internal external anchors nofollow];
    lia.
Qed.

Lemma count_rel_total (link_rel_data : list (string * list string))
    (c : link_counts) :
  let c' := fold_left count_rel link_rel_data c in
  internal c' = internal c ∧ external c' = external c ∧ anchors c' = anchors c
  ∧ nofollow c' = nofollow c + count_of counted_nofollow link_rel_data.
Proof.
  cbv zeta. revert c.
  induction link_rel_data as [|hr l IH]; intros c; cbn [fold_left].
  { unfold count_of, len. cbn. lia. }
  destruct (IH (count_rel c hr)) as (IH1 & IH2 & IH3 & IH4).
  destruct (count_rel_step c hr) as (Hs1 & Hs2 & Hs3 & Hs4).
  rewrite count_of_cons. lia.
Qed.

(** The counters of both link loops. *)
Lemma count_links_total (final_url : string) (hrefs : list string)
    (link_rel_data : list (string * list string)) (c : link_counts) :
  count_links final_url hrefs link_rel_data = Some c →
  internal c + external c = count_of countable_href hrefs
  ∧ anchors c = count_of anchor_href hrefs
  ∧ nofollow c = count_of counted_nofollow link_rel_data
  ∧ anchors c ≤ internal c
  ∧ 0 ≤ external c.
Proof.
  unfold count_links.
  destruct (for_each (count_href final_url) hrefs _) as [c1|] eqn:Hfirst; [|done].
  cbn [mbind option_bind]. intros [= <-].
  destruct (count_hrefs_total _ _ _ _ Hfirst) as (Hs1 & Hs2 & Hs3 & Hs4 & Hs5).
  destruct (count_rel_total link_rel_data c1) as (Hr1 & Hr2 & Hr3 & Hr4).
  cbn [internal external anchors nofollow] in *. lia.
Qed.

(** What a record of the extractor holds. *)
Lemma audit_from_dom_Some (url final_url : string) (status : Z)
    (load_time_sec : float) (html : string) (jsonld_blocks hrefs : list string)
    (link_rel_data : list (string * list string)) (p : PageAudit.t) :
  audit_from_dom url final_url status load_time_sec html jsonld_blocks hrefs
    link_rel_data = Some p →
  ∃ c,
    count_links final_url hrefs link_rel_data = Some c
    ∧ PageAudit.url p = url ∧ PageAudit.final_url p = final_url
    ∧ PageAudit.status p = Some status
    ∧ PageAudit.load_time_sec p = load_time_sec
    ∧ PageAudit.internal_links p = internal c
    ∧ PageAudit.external_links p = external c
    ∧ PageAudit.anchor_links p = anchors c
    ∧ PageAudit.nofollow_links p = nofollow c
    ∧ PageAudit.issues p = page_issues p ∧ PageAudit.wins p = page_wins p
    ∧ PageAudit.images p = len (img_alts (parse_html html))
    ∧ PageAudit.images_missing_alt p
      = len (filter (λ a, Is_true (alt_missing a)) (img_alts (parse_html html)))
    ∧ PageAudit.word_count p
      = (if truthy (extract_visible_text (parse_html html))
         then Z.of_nat (count_words false (extract_visible_text (parse_html html)))
         else 0)
    ∧ PageAudit.og p
      = fst (fold_left social_meta (metas (parse_html html)) ([], []))
    ∧ PageAudit.twitter p
      = snd (fold_left social_meta (metas (parse_html html)) ([], [])).
Proof.
  unfold audit_from_dom.
  destruct (if attr_truthy (canonical_href _) then _ else _) as [canonical|];
    [|done].
  cbn [mbind option_bind]. destruct (fold_left social_meta _ _) as [og tw].
  destruct (count_links final_url hrefs link_rel_data) as [c|]; [|done].
  cbn [mbind option_bind]. intros [= <-]. exists c. by repeat split.
Qed.

Lemma audit_from_dom_images (url final_url : string) (status : Z)
    (load_time_sec : float) (html : string) (jsonld_blocks hrefs : list string)
    (link_rel_data : list (string * list string)) (p : PageAudit.t) :
  audit_from_dom url final_url status load_time_sec html jsonld_blocks hrefs
    link_rel_data = Some p →
  0 ≤ PageAudit.images_missing_alt p ≤ PageAudit.images p.
Proof.
  intros Hp. destruct (audit_from_dom_Some _ _ _ _ _ _ _ _ _ Hp)
    as (c & _ & _ & _ & _ & _ & _ & _ & _ & _ & _ & _ & -> & -> & _).
  unfold len. split; [lia|].
  pose proof (length_filter (λ a, Is_true (alt_missing a))
                (img_alts (parse_html html))). lia.
Qed.

(** The extractor with other hrefs: it returns as soon as the link loops
    do. *)
Lemma audit_from_dom_hrefs (url final_url : string) (status : Z)
    (load_time_sec : float) (html : string)
    (jsonld_blocks hrefs hrefs' : list string)
    (link_rel_data : list (string * list string)) (p : PageAudit.t)
    (c' : link_counts) :
  audit_from_dom url final_url status load_time_sec html jsonld_blocks hrefs
    link_rel_data = Some p →
  count_links final_url hrefs' link_rel_data = Some c' →
  is_Some (audit_from_dom url final_url status load_time_sec html
             jsonld_blocks hrefs' link_rel_data).
Proof.
  unfold audit_from_dom.
  destruct (if attr_truthy (canonical_href _) then _ else _) as [canonical|];
    [|done].
  cbn [mbind option_bind]. destruct (fold_left social_meta _ _) as [og tw].
  intros _ ->. by eexists.
Qed.

(** C3. In every record the extractor builds, one more anchor link among
    the hrefs, an href that is not empty, no [mailto:], [tel:] or
    [javascript:] link and begins with [#] or [/#], adds one to the anchor
    count and one to the internal count and leaves the external count
    alone, wherever it stands in the list. The anchor count is the number
    of anchor links among the hrefs; the internal count is at least the
    anchor count; the external count is at most the number of the other
    hrefs that count; so the internal and external counts together are at
    least the anchor count, in a record of the extractor as in the record
    of a failed fetch. *)
Theorem anchor_links_counted_internal :
  (∀ (url final_url : string) (status : Z) (load_time_sec : float)
     (html : string) (jsonld_blocks hrefs1 hrefs2 : list string)
     (href : string) (link_rel_data : list (string * list string))
     (p : PageAudit.t),
     anchor_href href = true →
     audit_from_dom url final_url status load_time_sec html jsonld_blocks
       (hrefs1 ++ hrefs2) link_rel_data = Some p →
     ∃ p',
       audit_from_dom url final_url status load_time_sec html jsonld_blocks
         (hrefs1 ++ href :: hrefs2) link_rel_data = Some p'
       ∧ PageAudit.anchor_links p' = PageAudit.anchor_links p + 1
       ∧ PageAudit.internal_links p' = PageAudit.internal_links p + 1
       ∧ PageAudit.external_links p' = PageAudit.external_links p)
  ∧ (∀ (url final_url : string) (status : Z) (load_time_sec : float)
       (html : string) (jsonld_blocks hrefs : list string)
       (link_rel_data : list (string * list string)) (p : PageAudit.t),
       audit_from_dom url final_url status load_time_sec html jsonld_blocks
         hrefs link_rel_data = Some p →
       PageAudit.anchor_links p = count_of anchor_href hrefs
       ∧ PageAudit.anchor_links p ≤ PageAudit.internal_links p
       ∧ 0 ≤ PageAudit.external_links p
         ≤ count_of countable_href hrefs - count_of anchor_href hrefs
       ∧ PageAudit.internal_links p + PageAudit.external_links p
         >= PageAudit.anchor_links p)
  ∧ (∀ url : string,
       PageAudit.internal_links (degraded url)
       + PageAudit.external_links (degraded url)
       >= PageAudit.anchor_links (degraded url)).
Proof.
  split; [|split].
  - intros url final_url status load_time_sec html jsonld_blocks hrefs1 hrefs2
      href link_rel_data p Hanchor Hp.
    destruct (audit_from_dom_Some _ _ _ _ _ _ _ _ _ Hp)
      as (c & Hc & _ & _ & _ & _ & Hi & He & Ha & _).
    pose proof (count_links_anchor _ _ _ _ _ _ Hanchor Hc) as Hc'.
    destruct (audit_from_dom_hrefs _ _ _ _ _ _ _ _ _ _ _ Hp Hc') as [p' Hp'].
    exists p'. split; [done|].
    destruct (audit_from_dom_Some _ _ _ _ _ _ _ _ _ Hp')
      as (c1 & Hc1 & _ & _ & _ & _ & Hi' & He' & Ha' & _).
    rewrite Hc' in Hc1. injection Hc1 as <-.
    rewrite Hi, He, Ha, Hi', He', Ha'. unfold add_counts, one_anchor.
    cbn [internal external anchors]. lia.
  - intros url final_url status load_time_sec html jsonld_blocks hrefs
      link_rel_data p Hp.
    destruct (audit_from_dom_Some _ _ _ _ _ _ _ _ _ Hp)
      as (c & Hc & _ & _ & _ & _ & -> & -> & -> & _).
    destruct (count_links_total _ _ _ _ Hc) as (Hsum & Ha & _ & Hle & He).
    lia.
  - intros url. cbn. lia.
Qed.

End Extractor.

Lemma anchor_links_counted_internal_witness :
  ∃ p p',
    @audit_from_dom simple_url tiny_json example_html
      "https://a.com/about" "https://a.com/about" 200 f0_0 about_html []
      (["/"] ++ ["/about#team"]) [] = Some p
    ∧ @audit_from_dom simple_url tiny_json example_html
        "https://a.com/about" "https://a.com/about" 200 f0_0 about_html []
        (["/"] ++ " /#top" :: ["/about#team"]) [] = Some p'
    ∧ PageAudit.anchor_links p = 0
    ∧ PageAudit.anchor_links p' = PageAudit.anchor_links p + 1
    ∧ PageAudit.internal_links p' = PageAudit.internal_links p + 1
    ∧ PageAudit.external_links p' = PageAudit.external_links p.
Proof.
  destruct (@audit_from_dom simple_url tiny_json example_html
              "https://a.com/about" "https://a.com/about" 200 f0_0 about_html []
              (["/"] ++ ["/about#team"]) []) as [p|] eqn:Hp;
    [|by vm_compute in Hp].
  destruct (proj1 (@anchor_links_counted_internal simple_url tiny_json
                     example_html)
              "https://a.com/about" "https://a.com/about" 200 f0_0 about_html
              [] ["/"] ["/about#team"] " /#top" [] p eq_refl Hp)
    as (p' & Hp' & Ha & Hi & He).
  exists p, p'. split; [done|]. split; [exact Hp'|].
  split; [|by split].
  destruct (proj1 (proj2 (@anchor_links_counted_internal simple_url tiny_json
                            example_html)) _ _ _ _ _ _ _ _ _ Hp) as [-> _].
  reflexivity.
Defined.

(* ===================================================================== *)
(** * Properties of the structured-data extraction *)
(* ===================================================================== *)

Section SchemaTypes.
Context `{JsonLib}.

Lemma elem_of_collected (blocks : list string) (acc : gset string) (x : string) :
  x ∈ fold_left (λ types raw, types ∪ block_types raw) blocks acc
  ↔ x ∈ acc ∨ ∃ raw, raw ∈ blocks ∧ x ∈ block_types raw.
Proof.
  revert acc. induction blocks as [|b blocks IH]; intros acc; simpl.
  - split; [auto|]. intros [?|(raw & Hraw & _)]; [done|]. by apply elem_of_nil in Hraw.
  - rewrite IH, elem_of_union. split.
    + intros [[?|?]|(raw & Hraw & Hx)]; [by left|right..].
      * exists b. split; [apply list_elem_of_here|done].
      * exists raw. split; [by apply list_elem_of_further|done].
    + intros [?|(raw & Hraw & Hx)]; [by left; left|].
      apply elem_of_cons in Hraw as [->|Hraw]; [by left; right|].
      right. by exists raw.
Qed.




End SchemaTypes.


(* ===================================================================== *)
(** * The second end-to-end scenario *)
(* ===================================================================== *)

Lemma f2_0_bits : f2_0 = S754_finite false 4503599627370496 (-51).
Proof. vm_compute. reflexivity. Qed.

Lemma f4_0_bits : f4_0 = S754_finite false 4503599627370496 (-50).
Proof. vm_compute. reflexivity. Qed.

Lemma f6_0_bits : f6_0 = S754_finite false 6755399441055744 (-50).
Proof. vm_compute. reflexivity. Qed.

Ltac absurd_premise := let Hf := fresh in intros Hf; discriminate Hf.

(** A load time below 2 s is below 4 s, and one below 4 s is below 6 s. *)
Lemma flt_2_4 (x : float) : flt x f2_0 = true → flt x f4_0 = true.
Proof.
  rewrite f2_0_bits, f4_0_bits. unfold flt, SFltb.
  destruct x as [s|s| |s m e]; try destruct s; cbn [SFcompare];
    try absurd_premise; try (intros _; reflexivity).
  destruct (Z.compare_spec e (-51)) as [He|He|He];
    destruct (Z.compare_spec e (-50)) as [He'|He'|He'];
    try absurd_premise; try (intros _; reflexivity); exfalso; lia.
Qed.

(** The order on mantissas, with the comparison the float order uses. *)
Lemma compare_cont_lt_trans (m a b : positive) :
  PosDef.Pos.compare_cont Eq m a = Lt →
  PosDef.Pos.compare_cont Eq a b = Lt →
  PosDef.Pos.compare_cont Eq m b = Lt.
Proof. exact (Pos.lt_trans m a b). Qed.

Lemma flt_4_6 (x : float) : flt x f4_0 = true → flt x f6_0 = true.
Proof.
  rewrite f4_0_bits, f6_0_bits. unfold flt, SFltb.
  destruct x as [s|s| |s m e]; try destruct s; cbn [SFcompare];
    try absurd_premise; try (intros _; reflexivity).
  destruct (Z.compare_spec e (-50)) as [He|He|He];
    try absurd_premise; try (intros _; reflexivity).
  destruct (PosDef.Pos.compare_cont Eq m 4503599627370496) eqn:Hm;
    try absurd_premise.
  intros _.
  by rewrite (compare_cont_lt_trans m 4503599627370496 6755399441055744 Hm eq_refl).
Qed.

Lemma load_points_slow (x : float) : flt x f6_0 = false → load_points x = 0.
Proof.
  intros H6. unfold load_points.
  destruct (flt x f2_0) eqn:H2.
  { apply flt_2_4, flt_4_6 in H2. rewrite H2 in H6. discriminate H6. }
  destruct (flt x f4_0) eqn:H4.
  { apply flt_4_6 in H4. rewrite H4 in H6. discriminate H6. }
  by rewrite H6.
Qed.

Lemma load_points_range (x : float) : 0 ≤ load_points x ≤ 6.
Proof.
  unfold load_points.
  destruct (flt x f2_0), (flt x f4_0), (flt x f6_0); lia.
Qed.

(** The scores of a bare page, whatever built the record. *)
Lemma bare_page_scores (p : PageAudit.t) (total : Z) (breakdown : PyDict.dict Z) :
  bare_page p →
  score_page p = Some (total, breakdown) →
  ∃ lm,
    breakdown =
    [("meta", 0);
     ("content", clamp (content_points p) 0 25);
     ("structure", if PageAudit.viewport p then 5 else 0);
     ("schema", 0);
     ("links_media", clamp lm 0 10);
     ("basics_perf",
      clamp (load_points (PageAudit.load_time_sec p)
             - (if has_noindex (PageAudit.meta_robots p) then 4 else 0)) 0 10)].
Proof.
  intros (Ht & Hd & Hc & Hh1 & Hw & Hs & Hi & Hst).
  rewrite score_page_breakdown.
  destruct (links_media_points p) as [lm|]; [|done].
  cbn [mbind option_bind]. intros [= _ <-]. exists lm.
  assert (meta_points p = 0) as ->.
  { unfold meta_points. by rewrite Ht, Hd, Hc. }
  assert (structure_points p = if PageAudit.viewport p then 5 else 0) as ->.
  { unfold structure_points. rewrite Hh1. by destruct (PageAudit.viewport p). }
  assert (schema_points p = 0) as ->.
  { unfold schema_points. by rewrite Hs. }
  assert (basics_perf_points p
          = load_points (PageAudit.load_time_sec p)
            - (if has_noindex (PageAudit.meta_robots p) then 4 else 0)) as ->.
  { unfold basics_perf_points. rewrite Hst. cbn.
    destruct (has_noindex (PageAudit.meta_robots p)); lia. }
  replace (clamp (if PageAudit.viewport p then 5 else 0) 0 15)
    with (if PageAudit.viewport p then 5 else 0)
    by by destruct (PageAudit.viewport p).
  reflexivity.
Qed.

Section Scenario.
Context `{UrlLib} `{JsonLib} `{HtmlLib}.

(** C9, amended. For a page the extractor builds with no title, no
    description, no canonical link, no H1, fifty words, no structured
    data, no internal link and status 0, [score_page] returns; the page
    scores 0 for meta and for schema; its structure score is 5 when the
    page has a viewport and 0 otherwise; its basics_perf score is the
    load-time term (6, 4, 2 or 0) less 4 for a noindex directive, not
    below 0, hence 0 when the load time is not under 6 s; its issues hold
    the missing-title and the missing-H1 finding. *)
Theorem bare_page_scenario (url final_url : string) (status : Z)
    (load_time_sec : float) (html : string) (jsonld_blocks hrefs : list string)
    (link_rel_data : list (string * list string)) (p : PageAudit.t) :
  audit_from_dom url final_url status load_time_sec html jsonld_blocks hrefs
    link_rel_data = Some p →
  bare_page p →
  ∃ (total : Z) (breakdown : PyDict.dict Z),
    score_page p = Some (total, breakdown)
    ∧ PyDict.get breakdown "meta" = Some 0
    ∧ PyDict.get breakdown "schema" = Some 0
    ∧ PyDict.get breakdown "structure"
      = Some (if PageAudit.viewport p then 5 else 0)
    ∧ PyDict.get breakdown "basics_perf"
      = Some (clamp (load_points load_time_sec
                     - (if has_noindex (PageAudit.meta_robots p) then 4 else 0))
                0 10)
    ∧ (flt load_time_sec f6_0 = false →
       PyDict.get breakdown "basics_perf" = Some 0)
    ∧ issue_title_missing ∈ PageAudit.issues p
    ∧ issue_h1_missing ∈ PageAudit.issues p.
Proof.
  intros Hp Hbare.
  destruct (score_page_counts p (audit_from_dom_images _ _ _ _ _ _ _ _ _ Hp))
    as [[total breakdown] Hscore].
  exists total, breakdown. split; [done|].
  destruct (audit_from_dom_Some _ _ _ _ _ _ _ _ _ Hp)
    as (c & _ & _ & _ & _ & Hload & _ & _ & _ & _ & Hissues & _).
  destruct (bare_page_scores p total breakdown Hbare Hscore) as [lm ->].
  rewrite Hload.
  split; [reflexivity|]. split; [reflexivity|]. split; [reflexivity|].
  split; [reflexivity|]. split.
  { intros Hslow. cbn. f_equal. rewrite (load_points_slow _ Hslow).
    by destruct (has_noindex (PageAudit.meta_robots p)). }
  rewrite Hissues.
  destruct Hbare as (Ht & _ & _ & Hh1 & _).
  unfold page_issues. rewrite Ht, Hh1. cbn [truthy len length Z.of_nat Z.eqb].
  split; [apply list_elem_of_here|].
  rewrite !elem_of_app. right. right. right. left. apply list_elem_of_here.
Qed.

End Scenario.

(** C9, as the specification states it, fails on the thin page: the page
    has a viewport and loads in no time, so its structure score is 5 and
    its basics_perf score is 6, not 0. *)
Lemma bare_page_not_all_zero :
  ∃ (p : PageAudit.t) (total : Z) (breakdown : PyDict.dict Z),
    thin_page = Some p ∧ bare_page p
    ∧ score_page p = Some (total, breakdown)
    ∧ ¬ (PyDict.get breakdown "meta" = Some 0
         ∧ PyDict.get breakdown "structure" = Some 0
         ∧ PyDict.get breakdown "schema" = Some 0
         ∧ PyDict.get breakdown "basics_perf" = Some 0
         ∧ issue_title_missing ∈ PageAudit.issues p
         ∧ issue_h1_missing ∈ PageAudit.issues p).
Proof.
  destruct thin_page as [p|] eqn:Hp; [|by vm_compute in Hp].
  destruct (score_page p) as [[total breakdown]|] eqn:Hscore.
  2:{ vm_compute in Hp. injection Hp as <-. by vm_compute in Hscore. }
  exists p, total, breakdown. split; [done|].
  vm_compute in Hp. injection Hp as <-. split; [by vm_compute|].
  split; [done|]. vm_compute in Hscore. injection Hscore as <- <-.
  intros (_ & Hstructure & _). vm_compute in Hstructure. discriminate Hstructure.
Qed.

Lemma bare_page_scenario_witness :
  ∃ (p : PageAudit.t) (total : Z) (breakdown : PyDict.dict Z),
    thin_page = Some p ∧ bare_page p
    ∧ score_page p = Some (total, breakdown)
    ∧ PyDict.get breakdown "structure" = Some 5
    ∧ PyDict.get breakdown "basics_perf" = Some 6
    ∧ issue_title_missing ∈ PageAudit.issues p
    ∧ issue_h1_missing ∈ PageAudit.issues p.
Proof.
  destruct thin_page as [p|] eqn:Hp; [|by vm_compute in Hp].
  assert (bare_page p) as Hbare.
  { vm_compute in Hp. injection Hp as <-. by vm_compute. }
  destruct (@bare_page_scenario simple_url tiny_json example_html
              "https://a.com/thin" "https://a.com/thin" 0 f0_0 thin_html
              [] [] [] p Hp Hbare)
    as (total & breakdown & Hscore & _ & _ & Hs & Hb & _ & Ht & Hh).
  exists p, total, breakdown. split; [done|]. split; [exact Hbare|].
  split; [exact Hscore|].
  vm_compute in Hp. injection Hp as <-.
  split; [exact Hs|]. split; [exact Hb|]. split; [exact Ht|exact Hh].
Defined.

(* ===================================================================== *)
(** * Properties of the crawl *)
(* ===================================================================== *)

Section Discovery.
Context `{UrlLib}.

(** Where a discovered link comes from. *)
Lemma discover_loop_origin (final_url : string) (max_new : Z)
    (hrefs links result : list string) (lk : string) :
  discover_loop final_url max_new hrefs links = Some result →
  lk ∈ result →
  lk ∈ links
  ∨ ∃ href, href ∈ hrefs
      ∧ truthy (strip href) = true
      ∧ is_skippable (strip href) = false
      ∧ startswith (strip href) "#" = false
      ∧ urljoin final_url (strip href) ≫= norm_url = Some lk
      ∧ same_host final_url lk = Some true.
Proof.
  revert links. induction hrefs as [|a rest IH]; intros links; cbn [discover_loop].
  { intros [= <-]. by left. }
  assert (∀ links0,
            discover_loop final_url max_new rest links0 = Some result →
            lk ∈ result →
            lk ∈ links0
            ∨ ∃ href, href ∈ a :: rest
                ∧ truthy (strip href) = true
                ∧ is_skippable (strip href) = false
                ∧ startswith (strip href) "#" = false
                ∧ urljoin final_url (strip href) ≫= norm_url = Some lk
                ∧ same_host final_url lk = Some true) as Hrest.
  { intros links0 Hloop Hlk.
    destruct (IH links0 Hloop Hlk) as [?|(href & ? & ?)]; [by left|right].
    exists href. split; [by apply list_elem_of_further|done]. }
  destruct (truthy (strip a)) eqn:Hne; cbn [negb orb]; [|apply Hrest].
  destruct (is_skippable (strip a)) eqn:Hskip; cbn [orb]; [apply Hrest|].
  destruct (startswith (strip a) "#") eqn:Hhash; [apply Hrest|].
  destruct (urljoin final_url (strip a)) as [joined|] eqn:Hjoin; [|done].
  cbn [mbind option_bind].
  destruct (norm_url joined) as [absu|] eqn:Hnorm; [|done].
  cbn [mbind option_bind].
  destruct (same_host final_url absu) as [same|] eqn:Hsame; [|done].
  cbn [mbind option_bind].
  assert (∀ lk', lk' ∈ (if same then (links ++ [absu])%list else links) →
          lk' ∈ links
          ∨ ∃ href, href ∈ a :: rest
              ∧ truthy (strip href) = true
              ∧ is_skippable (strip href) = false
              ∧ startswith (strip href) "#" = false
              ∧ urljoin final_url (strip href) ≫= norm_url = Some lk'
              ∧ same_host final_url lk' = Some true) as Hnew.
  { intros lk'. destruct same; [|by left].
    intros [?| ->%list_elem_of_singleton]%elem_of_app; [by left|right].
    exists a. split; [apply list_elem_of_here|].
    rewrite Hjoin. cbn [mbind option_bind]. done. }
  destruct (max_new <=? len _).
  { intros [= <-]. apply Hnew. }
  intros Hloop Hlk. destruct (Hrest _ Hloop Hlk) as [?|?]; [by apply Hnew|by right].
Qed.

(** [discover_internal_links] returns at most [max_new] links, and at most
    one when [max_new] is below 1. *)
Lemma discover_loop_bounded (final_url : string) (max_new : Z)
    (hrefs links result : list string) :
  len links < Z.max 1 max_new →
  discover_loop final_url max_new hrefs links = Some result →
  len result ≤ Z.max 1 max_new.
Proof.
  unfold len. revert links.
  induction hrefs as [|a rest IH]; intros links Hlen; cbn [discover_loop].
  { intros [= <-]. lia. }
  destruct (negb (truthy (strip a)) || is_skippable (strip a)
            || startswith (strip a) "#"); [by apply IH|].
  destruct (urljoin final_url (strip a)) as [joined|]; [|done].
  cbn [mbind option_bind].
  destruct (norm_url joined) as [absu|]; [|done]. cbn [mbind option_bind].
  destruct (same_host final_url absu) as [same|]; [|done].
  cbn [mbind option_bind].
  set (links' := if same then (links ++ [absu])%list else links).
  assert (Z.of_nat (length links') ≤ Z.max 1 max_new) as Hlen'.
  { subst links'. destruct same; rewrite ?length_app; cbn [length]; lia. }
  unfold len. destruct (Z.leb_spec max_new (Z.of_nat (length links'))).
  { by intros [= <-]. }
  apply IH. lia.
Qed.

Lemma discover_internal_links_length (final_url : string) (soup : Soup)
    (links : list string) :
  discover_internal_links final_url soup 80 = Some links →
  (length links ≤ 80)%nat.
Proof.
  intros Hlinks%discover_loop_bounded; unfold len in *; cbn [length] in *; lia.
Qed.

(** What the loop over [new_links] appends to the queue. *)
Lemma enqueue_all_spec (start_url : string) (visited : gset string)
    (new_links queue queue' : list string) :
  enqueue_all start_url visited queue new_links = Some queue' →
  ∃ added,
    queue' = (queue ++ added)%list
    ∧ (length added ≤ length new_links)%nat
    ∧ (NoDup queue → NoDup (queue ++ added))
    ∧ ∀ lk, lk ∈ added →
        lk ∈ new_links ∧ (lk ∉ visited) ∧ (lk ∉ queue)
        ∧ same_host start_url lk = Some true.
Proof.
  unfold enqueue_all. revert queue.
  induction new_links as [|lk rest IH]; intros queue; cbn [for_each].
  { intros [= <-]. exists []. rewrite app_nil_r. split; [done|]. split; [done|].
    split; [done|]. intros lk Hlk. by apply elem_of_nil in Hlk. }
  assert (for_each (enqueue start_url visited) rest queue = Some queue' →
          ∃ added,
            queue' = (queue ++ added)%list
            ∧ (length added ≤ length (lk :: rest))%nat
            ∧ (NoDup queue → NoDup (queue ++ added))
            ∧ ∀ lk', lk' ∈ added →
                lk' ∈ lk :: rest ∧ (lk' ∉ visited) ∧ (lk' ∉ queue)
                ∧ same_host start_url lk' = Some true) as Hskip.
  { intros (added & -> & Hlen & Hnd & Hadded)%IH.
    exists added. split; [done|]. split; [simpl; lia|]. split; [done|].
    intros lk' Hlk'. destruct (Hadded lk' Hlk') as (? & ? & ? & ?).
    split; [by apply list_elem_of_further|done]. }
  destruct (enqueue start_url visited queue lk) as [queue1|] eqn:Hq1; [|done].
  cbn [mbind option_bind]. intros Hrest. unfold enqueue in Hq1.
  destruct (bool_decide (lk ∉ visited)) eqn:Hv; cbn [andb] in Hq1;
    [|injection Hq1 as <-; by apply Hskip].
  destruct (bool_decide (lk ∉ queue)) eqn:Hq; cbn [andb] in Hq1;
    [|injection Hq1 as <-; by apply Hskip].
  destruct (same_host start_url lk) as [[]|] eqn:Hs; cbn [mbind option_bind] in Hq1;
    [|injection Hq1 as <-; by apply Hskip|done].
  injection Hq1 as <-.
  apply bool_decide_eq_true in Hv, Hq.
  apply IH in Hrest as (added & -> & Hlen & Hnd & Hadded).
  exists (lk :: added). rewrite <- app_assoc. split; [done|].
  split; [simpl; lia|]. split.
  { intros Hqueue. change (lk :: added) with ([lk] ++ added)%list.
    rewrite app_assoc. apply Hnd. apply NoDup_app. split; [done|].
    split; [|apply NoDup_singleton].
    intros x Hx ->%list_elem_of_singleton. done. }
  intros lk' [->|Hlk']%elem_of_cons.
  { split; [apply list_elem_of_here|done]. }
  destruct (Hadded lk' Hlk') as (? & ? & Hnot & ?).
  split; [by apply list_elem_of_further|]. split; [done|]. split; [|done].
  intros ?. apply Hnot. apply elem_of_app. by left.
Qed.

End Discovery.

Section CrawlFacts.
Context `{UrlLib} `{JsonLib} `{HtmlLib} {world : Type} `{Browser world}.
Variables (max_pages timeout_ms : Z) (cookie_accept_text : string).

Local Abbreviation round := (crawl_round max_pages timeout_ms cookie_accept_text).
Local Abbreviation loop := (crawl_loop max_pages timeout_ms cookie_accept_text).

(** The three ways a round can end without raising: the URL was visited
    already, the fetch raised, or the page was fetched and audited. *)
Inductive round_kind (st st' : crawl world) : Prop :=
  | round_skipped (q : string) (rest : list string) (url : string) :
      queue st = q :: rest →
      norm_url q = Some url →
      url ∈ visited st →
      st' = Build_crawl (site st) (visited st) rest (session st) →
      round_kind st st'
  | round_failed (q : string) (rest : list string) (url : string) (w' : world) :
      queue st = q :: rest →
      norm_url q = Some url →
      url ∉ visited st →
      fetch_page_dom (session st) url timeout_ms cookie_accept_text
      = (w', None) →
      st' = Build_crawl (append_page (site st) (degraded url))
              ({[ url ]} ∪ visited st) rest w' →
      round_kind st st'
  | round_fetched (q : string) (rest : list string) (url : string) (w' : world)
      (r : Fetched) (pd : PageAudit.t) (new_links queue' : list string) :
      queue st = q :: rest →
      norm_url q = Some url →
      url ∉ visited st →
      fetch_page_dom (session st) url timeout_ms cookie_accept_text
      = (w', Some r) →
      audit_from_dom url (f_final_url r) (f_status r) (f_load_time r)
        (f_html r) (f_jsonld_blocks r) (f_hrefs r) (f_link_rel_data r)
      = Some pd →
      discover_internal_links (f_final_url r) (parse_html (f_html r)) 80
      = Some new_links →
      enqueue_all (SiteAudit.start_url (site st)) ({[ url ]} ∪ visited st)
        rest new_links = Some queue' →
      st' = Build_crawl (append_page (site st) pd) ({[ url ]} ∪ visited st)
              queue' w' →
      round_kind st st'.

Lemma crawl_round_ends (st st' : crawl world) :
  round st = round_ends st' →
  len (SiteAudit.pages (site st)) < max_pages ∧ round_kind st st'.
Proof.
  unfold crawl_round. destruct (queue st) as [|q rest] eqn:Hq; [done|].
  destruct (Z.ltb_spec (len (SiteAudit.pages (site st))) max_pages) as [Hlt|];
    [|done].
  destruct (norm_url q) as [url|] eqn:Hurl; [|done].
  intros Hround. split; [done|].
  destruct (bool_decide (url ∈ visited st)) eqn:Hv.
  { apply bool_decide_eq_true in Hv. injection Hround as <-.
    by eapply round_skipped. }
  apply bool_decide_eq_false in Hv.
  destruct (fetch_page_dom (session st) url timeout_ms cookie_accept_text)
    as [w' [r|]] eqn:Hfetch.
  2:{ injection Hround as <-. by eapply round_failed. }
  destruct (audit_from_dom url _ _ _ _ _ _ _) as [pd|] eqn:Hpd; [|done].
  destruct (discover_internal_links _ _ _) as [new_links|] eqn:Hlinks; [|done].
  destruct (enqueue_all _ _ _ _) as [queue'|] eqn:Hqueue; [|done].
  injection Hround as <-. by eapply round_fetched.
Qed.

Lemma crawl_round_exits (st : crawl world) :
  round st = loop_exits →
  queue st = [] ∨ max_pages ≤ len (SiteAudit.pages (site st)).
Proof.
  unfold crawl_round. destruct (queue st) as [|q rest]; [by left|].
  destruct (Z.ltb_spec (len (SiteAudit.pages (site st))) max_pages) as [Hlt|];
    [|by right].
  destruct (norm_url q) as [url|]; [|done].
  destruct (bool_decide _); [done|].
  destruct (fetch_page_dom _ _ _ _) as [w' [r|]]; [|done].
  destruct (audit_from_dom url _ _ _ _ _ _ _) as [pd|]; [|done].
  destruct (discover_internal_links _ _ _) as [new_links|]; [|done].
  by destruct (enqueue_all _ _ _ _) as [queue'|].
Qed.

Lemma page_urls_append (st : crawl world) (pd : PageAudit.t)
    (v : gset string) (q : list string) (w : world) :
  page_urls (Build_crawl (append_page (site st) pd) v q w)
  = (page_urls st ++ [PageAudit.url pd])%list.
Proof. unfold page_urls. cbn. by rewrite map_app. Qed.

Lemma audit_from_dom_url (url final_url : string) (status : Z)
    (load_time_sec : float) (html : string) (jsonld_blocks hrefs : list string)
    (link_rel_data : list (string * list string)) (p : PageAudit.t) :
  audit_from_dom url final_url status load_time_sec html jsonld_blocks hrefs
    link_rel_data = Some p →
  PageAudit.url p = url.
Proof. by intros (c & _ & ? & _)%audit_from_dom_Some. Qed.

(** The head of the queue of a state that is [crawl_ok] is normalised to
    its trimmed text, which is its own normal form. *)
Lemma crawl_ok_head (st : crawl world) (q : string) (rest : list string)
    (url : string) :
  crawl_ok st → queue st = q :: rest → norm_url q = Some url →
  norm_url url = Some url.
Proof.
  intros (_ & _ & _ & Hqueue & _) Hq Hurl.
  destruct (Hqueue q) as [x Hx]; [rewrite Hq; apply list_elem_of_here|].
  rewrite (norm_url_again x q Hx) in Hurl. injection Hurl as <-.
  by eapply norm_url_fixed.
Qed.

(** A round keeps [crawl_ok]. *)
Lemma crawl_ok_visit (st : crawl world) (q : string) (rest queue' : list string)
    (url : string) (pd : PageAudit.t) (w' : world) :
  crawl_ok st → queue st = q :: rest → norm_url q = Some url →
  url ∉ visited st →
  PageAudit.url pd = url → NoDup queue' →
  (∀ lk, lk ∈ queue' → ∃ x, norm_url x = Some lk) →
  crawl_ok (Build_crawl (append_page (site st) pd)
              ({[ url ]} ∪ visited st) queue' w').
Proof.
  intros Hok Hq Hnorm Hfresh Hurl Hnd' Hqueue'.
  pose proof (crawl_ok_head st q rest url Hok Hq Hnorm) as Hfix.
  destruct Hok as (Hnd & Hvis & Hfixed & Hqueue & Hndq).
  unfold crawl_ok. rewrite page_urls_append, Hurl. cbn [visited queue].
  split; [|split; [|split; [|split; [done|done]]]].
  - apply NoDup_app. split; [done|]. split; [|apply NoDup_singleton].
    intros u Hu ->%list_elem_of_singleton. by apply Hfresh, Hvis.
  - intros u [Hu| ->%list_elem_of_singleton]%elem_of_app.
    + apply elem_of_union. right. by apply Hvis.
    + apply elem_of_union. left. by apply elem_of_singleton.
  - intros u [->%elem_of_singleton|Hu]%elem_of_union; [done|by apply Hfixed].
Qed.

Lemma crawl_round_ok (st st' : crawl world) :
  crawl_ok st → round st = round_ends st' → crawl_ok st'.
Proof.
  intros Hok [_ Hkind]%crawl_round_ends.
  pose proof Hok as (Hnd & Hvis & Hfixed & Hqueue & Hndq).
  destruct Hkind as [q rest url Hq Hurl Hv ->|q rest url w' Hq Hurl Hv Hfetch ->
                    |q rest url w' r pd new_links queue' Hq Hurl Hv Hfetch Hpd
                       Hlinks Hqueue' ->].
  - unfold crawl_ok, page_urls. cbn. rewrite Hq in Hndq, Hqueue.
    apply NoDup_cons in Hndq as [_ Hrest]. repeat split; try done.
    intros lk Hlk. apply Hqueue. by apply list_elem_of_further.
  - rewrite Hq in Hndq, Hqueue. apply NoDup_cons in Hndq as [_ Hrest].
    eapply crawl_ok_visit; try done.
    intros lk Hlk. apply Hqueue. by apply list_elem_of_further.
  - rewrite Hq in Hndq, Hqueue. apply NoDup_cons in Hndq as [_ Hrest].
    destruct (enqueue_all_spec _ _ _ _ _ Hqueue') as (added & -> & _ & Hkeep & Hadded).
    eapply crawl_ok_visit; try done.
    + by eapply audit_from_dom_url.
    + by apply Hkeep.
    + intros lk [Hlk|Hlk]%elem_of_app.
      * apply Hqueue. by apply list_elem_of_further.
      * destruct (Hadded lk Hlk) as (Hdisc & _).
        destruct (discover_loop_origin _ _ _ _ _ _ Hlinks Hdisc)
          as [Hnil|(href & _ & _ & _ & _ & Hlk' & _)].
        { by apply elem_of_nil in Hnil. }
        destruct (urljoin (f_final_url r) (strip href)) as [joined|]; [|done].
        by exists joined.
Qed.

Lemma crawl_loop_ok (fuel : nat) (st st' : crawl world) :
  crawl_ok st → loop fuel st = returned st' → crawl_ok st'.
Proof.
  revert st. induction fuel as [|fuel IH]; intros st Hok; cbn [crawl_loop];
    destruct (round st) as [|st1|] eqn:Hround; try congruence.
  intros Hloop. eapply IH; [|done]. by eapply crawl_round_ok.
Qed.

(** Every round uses up [rounds_left]. *)
Lemma crawl_round_decreases (st st' : crawl world) :
  round st = round_ends st' →
  (rounds_left max_pages st' < rounds_left max_pages st)%nat.
Proof.
  intros [Hlt Hkind]%crawl_round_ends. unfold rounds_left, len in *.
  destruct Hkind as [q rest url Hq Hurl Hv ->|q rest url w' Hq Hurl Hv Hfetch ->
                    |q rest url w' r pd new_links queue' Hq Hurl Hv Hfetch Hpd
                       Hlinks Hqueue' ->];
    rewrite Hq; cbn [queue site append_page SiteAudit.pages length].
  - lia.
  - rewrite length_app. cbn [length]. lia.
  - rewrite length_app. cbn [length].
    destruct (enqueue_all_spec _ _ _ _ _ Hqueue') as (added & -> & Hadded & _).
    pose proof (discover_internal_links_length _ _ _ Hlinks).
    rewrite length_app. lia.
Qed.

(** The loop ends: with [rounds_left] rounds it returns or raises. *)
Lemma crawl_loop_ends (fuel : nat) (st : crawl world) :
  (rounds_left max_pages st ≤ fuel)%nat → loop fuel st ≠ unfinished.
Proof.
  revert st. induction fuel as [|fuel IH]; intros st Hfuel; cbn [crawl_loop];
    destruct (round st) as [|st1|] eqn:Hround; try done.
  - apply crawl_round_decreases in Hround. lia.
  - apply IH. apply crawl_round_decreases in Hround. lia.
Qed.

(** When the loop returns its condition is false. *)
Lemma crawl_loop_final (fuel : nat) (st st' : crawl world) :
  loop fuel st = returned st' → round st' = loop_exits.
Proof.
  revert st. induction fuel as [|fuel IH]; intros st; cbn [crawl_loop];
    destruct (round st) as [|st1|] eqn:Hround; try congruence.
  apply IH.
Qed.

End CrawlFacts.

Section RunFacts.
Context `{UrlLib} `{JsonLib} `{HtmlLib} {world : Type} `{Browser world}.

(** [run_audit] reaches its loop when [urllib.parse] accepts the start
    URL, and then the loop starts from the normalised start URL alone. *)
Lemma crawl_init_Some (w : world) (start_url : string) (timeout_sec : Z)
    (st : crawl world) :
  crawl_init w start_url timeout_sec = Some st →
  ∃ s0 parts,
    norm_url start_url = Some s0 ∧ urlparse s0 = Some parts
    ∧ visited st = ∅ ∧ queue st = [s0]
    ∧ SiteAudit.pages (site st) = []
    ∧ SiteAudit.start_url (site st) = s0
    ∧ SiteAudit.host (site st) = lower (ParseResult.netloc parts)
    ∧ SiteAudit.robots_url (site st)
      = (ParseResult.scheme parts ++ "://" ++ lower (ParseResult.netloc parts))
        ++ "/robots.txt"
    ∧ SiteAudit.sitemap_url (site st)
      = (ParseResult.scheme parts ++ "://" ++ lower (ParseResult.netloc parts))
        ++ "/sitemap.xml"
    ∧ SiteAudit.llms_url (site st)
      = (ParseResult.scheme parts ++ "://" ++ lower (ParseResult.netloc parts))
        ++ "/llms.txt"
    ∧ is_Some (SiteAudit.robots_ok (site st))
    ∧ is_Some (SiteAudit.sitemap_ok (site st))
    ∧ is_Some (SiteAudit.llms_ok (site st)).
Proof.
  unfold crawl_init, host.
  destruct (norm_url start_url) as [s0|]; [|done]. cbn [mbind option_bind].
  destruct (urlparse s0) as [parts|] eqn:Hparts; [|done].
  cbn [mbind option_bind].
  destruct (check_endpoint_ok w _ _) as [w1 b1].
  destruct (check_endpoint_ok w1 _ _) as [w2 b2].
  destruct (check_endpoint_ok w2 _ _) as [w3 b3].
  intros [= <-]. exists s0, parts. cbn.
  do 10 (split; [done|]). split; [|split]; by eexists.
Qed.


Lemma crawl_init_ok (w : world) (start_url : string) (timeout_sec : Z)
    (st : crawl world) :
  crawl_init w start_url timeout_sec = Some st → crawl_ok st.
Proof.
  intros (s0 & parts & Hs0 & _ & Hv & Hq & Hp & _)%crawl_init_Some.
  unfold crawl_ok, page_urls. rewrite Hq, Hp, Hv. cbn [map].
  split; [apply NoDup_nil_2|].
  split; [intros u Hu; by apply elem_of_nil in Hu|].
  split; [intros u Hu; by apply not_elem_of_empty in Hu|].
  split; [|apply NoDup_singleton].
  intros q ->%list_elem_of_singleton. by exists start_url.
Qed.

Lemma crawl_init_rounds (w : world) (start_url : string)
    (max_pages timeout_sec : Z) (st : crawl world) :
  crawl_init w start_url timeout_sec = Some st →
  (rounds_left max_pages st ≤ enough_fuel max_pages)%nat.
Proof.
  intros (s0 & parts & _ & _ & _ & Hq & Hp & _)%crawl_init_Some.
  unfold rounds_left, enough_fuel, len. rewrite Hq, Hp. cbn [length]. lia.
Qed.

(** [run_audit] ends: with the rounds of [enough_fuel] it returns or
    raises. *)
Lemma run_audit_ends (w : world) (start_url : string)
    (max_pages timeout_sec : Z) (cookie_accept_text : string) :
  run_audit (enough_fuel max_pages) w start_url max_pages timeout_sec
    cookie_accept_text ≠ unfinished.
Proof.
  unfold run_audit.
  destruct (crawl_init w start_url timeout_sec) as [st0|] eqn:Hinit; [|done].
  pose proof (crawl_loop_ends max_pages (timeout_sec * 1000) cookie_accept_text
                (enough_fuel max_pages) st0
                (crawl_init_rounds _ _ _ _ _ Hinit)) as Hends.
  by destruct (crawl_loop _ _ _ _ st0).
Qed.

(** The states behind a result of [run_audit]. *)
Lemma run_audit_state (fuel : nat) (w : world) (start_url : string)
    (max_pages timeout_sec : Z) (cookie_accept_text : string)
    (s : SiteAudit.t) (w' : world) :
  run_audit fuel w start_url max_pages timeout_sec cookie_accept_text
  = returned (s, w') →
  ∃ st0 st,
    crawl_init w start_url timeout_sec = Some st0
    ∧ crawl_loop max_pages (timeout_sec * 1000) cookie_accept_text fuel st0
      = returned st
    ∧ site st = s ∧ session st = w' ∧ crawl_ok st.
Proof.
  unfold run_audit.
  destruct (crawl_init w start_url timeout_sec) as [st0|] eqn:Hinit; [|done].
  destruct (crawl_loop _ _ _ _ _) as [st| |] eqn:Hloop; [|done|done].
  intros [= <- <-]. exists st0, st. split; [done|]. split; [done|].
  split; [done|]. split; [done|].
  eapply crawl_loop_ok; [by eapply crawl_init_ok|done].
Qed.

(** The records of a run have pairwise different URLs, each its own
    normal form. *)
Lemma run_audit_distinct (fuel : nat) (w : world) (start_url : string)
    (max_pages timeout_sec : Z) (cookie_accept_text : string)
    (s : SiteAudit.t) (w' : world) :
  run_audit fuel w start_url max_pages timeout_sec cookie_accept_text
  = returned (s, w') →
  NoDup (map PageAudit.url (SiteAudit.pages s))
  ∧ ∀ p, p ∈ SiteAudit.pages s →
         norm_url (PageAudit.url p) = Some (PageAudit.url p).
Proof.
  intros (st0 & st & _ & _ & <- & _ & Hnd & Hvis & Hfixed & _)%run_audit_state.
  split; [done|]. intros p Hp. apply Hfixed, Hvis.
  unfold page_urls. by apply list_elem_of_fmap_2.
Qed.

(** Pages are only ever appended. *)
Lemma crawl_round_pages (max_pages timeout_ms : Z) (cookie_accept_text : string)
    (st st' : crawl world) :
  crawl_round max_pages timeout_ms cookie_accept_text st = round_ends st' →
  ∃ more, SiteAudit.pages (site st') = (SiteAudit.pages (site st) ++ more)%list.
Proof.
  intros [_ Hkind]%crawl_round_ends.
  destruct Hkind as [q rest url Hq Hurl Hv ->|q rest url w' Hq Hurl Hv Hfetch ->
                    |q rest url w' r pd new_links queue' Hq Hurl Hv Hfetch Hpd
                       Hlinks Hqueue' ->]; cbn.
  - exists []. by rewrite app_nil_r.
  - by eexists.
  - by eexists.
Qed.

Lemma crawl_loop_pages (max_pages timeout_ms : Z) (cookie_accept_text : string)
    (fuel : nat) (st st' : crawl world) :
  crawl_loop max_pages timeout_ms cookie_accept_text fuel st = returned st' →
  ∃ more, SiteAudit.pages (site st') = (SiteAudit.pages (site st) ++ more)%list.
Proof.
  revert st. induction fuel as [|fuel IH]; intros st; cbn [crawl_loop];
    destruct (crawl_round _ _ _ st) as [|st1|] eqn:Hround; try congruence.
  - intros [= <-]. exists []. by rewrite app_nil_r.
  - intros [= <-]. exists []. by rewrite app_nil_r.
  - intros (more & ->)%IH. apply crawl_round_pages in Hround as [more1 ->].
    exists (more1 ++ more)%list. by rewrite app_assoc.
Qed.

(** With a budget of at least one page, the first record of a run that
    returns is the one of the start URL. *)
Lemma run_audit_first_page (fuel : nat) (w : world) (start_url : string)
    (max_pages timeout_sec : Z) (cookie_accept_text : string)
    (s : SiteAudit.t) (w' : world) :
  1 ≤ max_pages →
  run_audit fuel w start_url max_pages timeout_sec cookie_accept_text
  = returned (s, w') →
  ∃ s0 p rest,
    norm_url start_url = Some s0
    ∧ SiteAudit.pages s = p :: rest
    ∧ norm_url s0 = Some (PageAudit.url p).
Proof.
  intros Hbudget (st0 & st & Hinit & Hloop & <- & _ & _)%run_audit_state.
  destruct (crawl_init_Some _ _ _ _ Hinit) as (s0 & parts & Hs0 & _ & Hv & Hq & Hp & _).
  exists s0.
  destruct (crawl_round max_pages (timeout_sec * 1000) cookie_accept_text st0)
    as [|st1|] eqn:Hround.
  - apply crawl_round_exits in Hround as [Hempty|Hfull].
    + by rewrite Hq in Hempty.
    + rewrite Hp in Hfull. unfold len in Hfull. cbn in Hfull. lia.
  - assert (∃ p, SiteAudit.pages (site st1) = [p]
                 ∧ norm_url s0 = Some (PageAudit.url p)) as (p & Hp1 & Hurl).
    { apply crawl_round_ends in Hround as [_ Hkind].
      destruct Hkind as [q rest url Hq' Hurl Hvis ->
                        |q rest url w1 Hq' Hurl Hvis Hfetch ->
                        |q rest url w1 r pd new_links queue' Hq' Hurl Hvis Hfetch
                           Hpd Hlinks Hqueue' ->];
        rewrite Hq in Hq'; injection Hq' as <- <-.
      - rewrite Hv in Hvis. by apply not_elem_of_empty in Hvis.
      - eexists. cbn. rewrite Hp. split; [done|]. by rewrite Hurl.
      - eexists. cbn. rewrite Hp. split; [done|].
        by rewrite Hurl, (audit_from_dom_url _ _ _ _ _ _ _ _ _ Hpd). }
    destruct fuel as [|fuel]; cbn [crawl_loop] in Hloop; rewrite Hround in Hloop;
      [done|].
    apply crawl_loop_pages in Hloop as [more ->]. rewrite Hp1.
    by exists p, more.
  - destruct fuel as [|fuel]; cbn [crawl_loop] in Hloop; by rewrite Hround in Hloop.
Qed.

End RunFacts.

Section Frontier.
Context `{UrlLib} `{JsonLib} `{HtmlLib} {world : Type} `{Browser world}.

(** C2, amended. In every run that returns no two page records have the
    same URL, and the URL of each record is its own normal form: the head
    of the queue is normalised before it is looked up in the visited set,
    and a link is normalised before the queue and the visited set are
    consulted for it. A link is appended to the queue only when its text
    is neither visited nor queued, so the queue never holds a text twice
    and a round never adds a visited URL; a queued text whose normal form
    is visited is dropped without a record. These facts hold when the loop
    is entered and after every round, also in a run that raises later. The
    run ends: it returns or raises. The visited set starts empty in each
    run: with a budget of at least one page the start URL gets the first
    record of every run that returns. *)
Theorem frontier_visits_each_url_once :
  (∀ (fuel : nat) (w : world) (start_url : string) (max_pages timeout_sec : Z)
     (cookie_accept_text : string) (s : SiteAudit.t) (w' : world),
     run_audit fuel w start_url max_pages timeout_sec cookie_accept_text
     = returned (s, w') →
     NoDup (map PageAudit.url (SiteAudit.pages s))
     ∧ (∀ p, p ∈ SiteAudit.pages s →
             norm_url (PageAudit.url p) = Some (PageAudit.url p))
     ∧ (1 ≤ max_pages →
        ∃ s0 p rest, norm_url start_url = Some s0
                     ∧ SiteAudit.pages s = p :: rest
                     ∧ norm_url s0 = Some (PageAudit.url p)))
  ∧ (∀ (w : world) (start_url : string) (max_pages timeout_sec : Z)
       (cookie_accept_text : string),
       run_audit (enough_fuel max_pages) w start_url max_pages timeout_sec
         cookie_accept_text ≠ unfinished)
  ∧ (∀ (w : world) (start_url : string) (timeout_sec : Z) (st0 : crawl world),
       crawl_init w start_url timeout_sec = Some st0 →
       crawl_ok st0 ∧ visited st0 = ∅
       ∧ ∃ s0, norm_url start_url = Some s0 ∧ queue st0 = [s0])
  ∧ (∀ (max_pages timeout_ms : Z) (cookie_accept_text : string)
       (st st' : crawl world),
       crawl_ok st →
       crawl_round max_pages timeout_ms cookie_accept_text st = round_ends st' →
       crawl_ok st'
       ∧ visited st ⊆ visited st'
       ∧ (∃ q rest url, queue st = q :: rest
            ∧ norm_url q = Some url
            ∧ (url ∈ visited st → page_urls st' = page_urls st)
            ∧ url ∈ visited st'
            ∧ ∀ lk, lk ∈ queue st' →
                lk ∈ rest ∨ ((lk ∉ visited st') ∧ (lk ∉ rest)
                             ∧ ∃ x, norm_url x = Some lk))).
Proof.
  split; [|split; [|split]].
  - intros fuel w start_url max_pages timeout_sec cookie s w' Hrun.
    destruct (run_audit_distinct _ _ _ _ _ _ _ _ Hrun) as [Hnd Hnorm].
    split; [done|]. split; [done|]. intros Hbudget.
    by eapply run_audit_first_page.
  - apply run_audit_ends.
  - intros w start_url timeout_sec st0 Hinit.
    split; [by eapply crawl_init_ok|].
    destruct (crawl_init_Some _ _ _ _ Hinit)
      as (s0 & parts & Hs0 & _ & Hv & Hq & _).
    split; [done|]. by exists s0.
  - intros max_pages timeout_ms cookie st st' Hok Hround.
    split; [by eapply crawl_round_ok|].
    apply crawl_round_ends in Hround as [_ Hkind].
    destruct Hkind as [q rest url Hq Hurl Hv ->|q rest url w' Hq Hurl Hv Hfetch ->
                      |q rest url w' r pd new_links queue' Hq Hurl Hv Hfetch Hpd
                         Hlinks Hqueue' ->]; cbn [visited queue].
    + split; [done|]. exists q, rest, url. split; [done|]. split; [done|].
      split; [done|]. split; [done|]. intros lk Hlk. by left.
    + split; [apply union_subseteq_r|]. exists q, rest, url. split; [done|].
      split; [done|]. split; [done|].
      split; [apply elem_of_union; left; by apply elem_of_singleton|].
      intros lk Hlk. by left.
    + split; [apply union_subseteq_r|]. exists q, rest, url. split; [done|].
      split; [done|]. split; [done|].
      split; [apply elem_of_union; left; by apply elem_of_singleton|].
      intros lk.
      destruct (enqueue_all_spec _ _ _ _ _ Hqueue') as (added & -> & _ & _ & Hadded).
      intros [?|Hlk]%elem_of_app; [by left|right].
      destruct (Hadded lk Hlk) as (Hdisc & ? & ? & _).
      split; [done|]. split; [done|].
      destruct (discover_loop_origin _ _ _ _ _ _ Hlinks Hdisc)
        as [Hnil|(href & _ & _ & _ & _ & Hlk' & _)].
      * by apply elem_of_nil in Hnil.
      * destruct (urljoin (f_final_url r) (strip href)) as [joined|]; [|done].
        by exists joined.
Qed.

(** C6, amended. A URL enters the queue in a round only as the normal
    form, hence without fragment, of an href of the fetched page that is
    not empty, begins with none of [mailto:], [tel:], [javascript:] and
    [#], and resolves to the host of the page and to the host of the start
    URL, and only when it is neither visited nor queued. An href that
    begins with [#] is never a candidate. *)
Theorem frontier_candidates :
  (∀ (final_url : string) (soup : Soup) (max_new : Z) (links : list string)
     (lk : string),
     discover_internal_links final_url soup max_new = Some links →
     lk ∈ links →
     ∃ href, href ∈ anchor_hrefs soup
             ∧ truthy (strip href) = true
             ∧ is_skippable (strip href) = false
             ∧ startswith (strip href) "#" = false
             ∧ urljoin final_url (strip href) ≫= norm_url = Some lk
             ∧ same_host final_url lk = Some true)
  ∧ (∀ (max_pages timeout_ms : Z) (cookie_accept_text : string)
       (st st' : crawl world) (lk : string),
       crawl_round max_pages timeout_ms cookie_accept_text st = round_ends st' →
       lk ∈ queue st' →
       lk ∈ queue st
       ∨ ∃ q rest url w' r href,
           queue st = q :: rest
           ∧ norm_url q = Some url
           ∧ fetch_page_dom (session st) url timeout_ms cookie_accept_text
             = (w', Some r)
           ∧ href ∈ anchor_hrefs (parse_html (f_html r))
           ∧ truthy (strip href) = true
           ∧ is_skippable (strip href) = false
           ∧ startswith (strip href) "#" = false
           ∧ urljoin (f_final_url r) (strip href) ≫= norm_url = Some lk
           ∧ same_host (f_final_url r) lk = Some true
           ∧ same_host (SiteAudit.start_url (site st)) lk = Some true
           ∧ (lk ∉ visited st') ∧ (lk ∉ rest)).
Proof.
  split.
  - intros final_url soup max_new links lk Hlinks Hlk.
    destruct (discover_loop_origin _ _ _ _ _ _ Hlinks Hlk) as [Hnil|?]; [|done].
    by apply elem_of_nil in Hnil.
  - intros max_pages timeout_ms cookie st st' lk [_ Hkind]%crawl_round_ends.
    destruct Hkind as [q rest url Hq Hurl Hv ->|q rest url w' Hq Hurl Hv Hfetch ->
                      |q rest url w' r pd new_links queue' Hq Hurl Hv Hfetch Hpd
                         Hlinks Hqueue' ->]; cbn [visited queue];
      rewrite Hq.
    + intros Hlk. left. by apply list_elem_of_further.
    + intros Hlk. left. by apply list_elem_of_further.
    + destruct (enqueue_all_spec _ _ _ _ _ Hqueue') as (added & -> & _ & _ & Hadded).
      intros [?|Hlk]%elem_of_app; [left; by apply list_elem_of_further|right].
      destruct (Hadded lk Hlk) as (Hdisc & ? & ? & ?).
      destruct (discover_loop_origin _ _ _ _ _ _ Hlinks Hdisc)
        as [Hnil|(href & ? & ? & ? & ? & ? & ?)].
      { by apply elem_of_nil in Hnil. }
      by exists q, rest, url, w', r, href.
Qed.

End Frontier.

(** C2, as the specification states it, fails: the page of
    [https://a.com/] links to [/x] and to [/x #y], and after its round the
    queue holds [https://a.com/x] and the same text with a space after it,
    two entries with one normal form. *)
Lemma queued_url_added_again :
  ∃ st0 st1,
    @crawl_init simple_url _ (links_browser twice_html twice_hrefs) []
      "https://a.com/" 25 = Some st0
    ∧ @crawl_round simple_url tiny_json (links_parser twice_html twice_hrefs) _
        (links_browser twice_html twice_hrefs) 5 25000 "" st0 = round_ends st1
    ∧ queue st1 = ["https://a.com/x"; "https://a.com/x "]
    ∧ @norm_url simple_url "https://a.com/x" = Some "https://a.com/x"
    ∧ @norm_url simple_url "https://a.com/x " = Some "https://a.com/x"
    ∧ ¬ @queue_normal_forms_distinct simple_url _ st1.
Proof.
  destruct (@crawl_init simple_url _ (links_browser twice_html twice_hrefs) []
              "https://a.com/" 25) as [st0|] eqn:Hinit;
    [|by vm_compute in Hinit].
  destruct (@crawl_round simple_url tiny_json
              (links_parser twice_html twice_hrefs) _
              (links_browser twice_html twice_hrefs) 5 25000 "" st0)
    as [|st1|] eqn:Hround.
  1,3: vm_compute in Hinit; injection Hinit as <-; by vm_compute in Hround.
  assert (queue st1 = ["https://a.com/x"; "https://a.com/x "]) as Hq.
  { vm_compute in Hinit. injection Hinit as <-.
    vm_compute in Hround. by injection Hround as <-. }
  exists st0, st1. split; [done|]. split; [done|]. split; [done|].
  split; [by vm_compute|]. split; [by vm_compute|].
  intros Hclaim.
  assert (0 = 1)%nat as Hsame; [|done].
  apply (Hclaim 0%nat 1%nat "https://a.com/x" "https://a.com/x ");
    rewrite ?Hq; by vm_compute.
Qed.

(** C6, as the specification states it, fails: the anchor link
    [/#contact] of the page [https://a.com/faq] puts [https://a.com/] in
    the queue. *)
Lemma anchor_link_reaches_frontier :
  is_anchor_link "/#contact" = true
  ∧ (∃ st0 st1,
       @crawl_init simple_url _ faq_browser [] "https://a.com/faq" 25 = Some st0
       ∧ @crawl_round simple_url tiny_json faq_parser _ faq_browser 5 25000 ""
           st0 = round_ends st1
       ∧ queue st1 = ["https://a.com/"])
  ∧ ¬ @frontier_skips_anchor_links simple_url.
Proof.
  split; [reflexivity|]. split.
  { destruct (@crawl_init simple_url _ faq_browser [] "https://a.com/faq" 25)
      as [st0|] eqn:Hinit; [|by vm_compute in Hinit].
    vm_compute in Hinit. injection Hinit as <-.
    eexists _, _. split; [done|]. split; [by vm_compute|]. done. }
  intros Hclaim.
  destruct (Hclaim "https://a.com/faq" faq_soup ["https://a.com/"]
              "https://a.com/")
    as (href & Hhref & Hanchor & _).
  { by vm_compute. }
  { apply list_elem_of_here. }
  apply list_elem_of_singleton in Hhref as ->.
  vm_compute in Hanchor. discriminate Hanchor.
Qed.

Lemma frontier_candidates_witness :
  ∃ href, href ∈ anchor_hrefs about_soup
          ∧ startswith (strip href) "#" = false
          ∧ @urljoin simple_url "https://a.com/about" (strip href)
              ≫= @norm_url simple_url
            = Some "https://a.com/about".
Proof.
  destruct (proj1 (@frontier_candidates simple_url tiny_json example_html _
                     example_browser)
              "https://a.com/about" about_soup 80
              ["https://a.com/"; "https://a.com/"; "https://a.com/about"]
              "https://a.com/about")
    as (href & Hhref & _ & _ & Hhash & Hlk & _).
  { by vm_compute. }
  { do 2 apply list_elem_of_further. apply list_elem_of_here. }
  by exists href.
Defined.

Lemma frontier_visits_each_url_once_witness :
  ∃ s w',
    @run_audit simple_url tiny_json example_html _ example_browser
      (enough_fuel 10) [] " https://a.com/#start" 10 25 "" = returned (s, w')
    ∧ NoDup (map PageAudit.url (SiteAudit.pages s)).
Proof.
  destruct (@run_audit simple_url tiny_json example_html _ example_browser
              (enough_fuel 10) [] " https://a.com/#start" 10 25 "")
    as [[s w']| |] eqn:Hrun; [|by vm_compute in Hrun|by vm_compute in Hrun].
  exists s, w'. split; [done|].
  exact (proj1 (proj1 (@frontier_visits_each_url_once simple_url tiny_json
                         example_html _ example_browser)
                  _ _ _ _ _ _ _ _ Hrun)).
Defined.

Section FetchFailure.
Context `{UrlLib} `{JsonLib} `{HtmlLib} {world : Type} `{Browser world}.





End FetchFailure.



(* ===================================================================== *)
(** * Properties of the overall score *)
(* ===================================================================== *)

Lemma sf_eqb_eq (x y : float) : sf_eqb x y = true → x = y.
Proof.
  destruct x as [a|a| |a m e], y as [b|b| |b m' e']; cbn; try discriminate.
  - by intros ->%Bool.eqb_prop.
  - by intros ->%Bool.eqb_prop.
  - done.
  - intros [[->%Bool.eqb_prop ->%Pos.eqb_eq]%andb_prop ->%Z.eqb_eq]%andb_prop.
    done.
Qed.

Lemma add_sum_new (N : Z) (x : float) (M : sums) :
  0 ≤ N → has_sum N x (add_sum N x M).
Proof.
  intros HN. split; [done|]. unfold add_sum.
  destruct (PositiveMap.find (sum_key N) M) as [l|] eqn:Hfind.
  - destruct (existsb (sf_eqb x) l) eqn:Hex.
    + exists l. split; [done|].
      apply existsb_exists in Hex as (y & Hy & ->%sf_eqb_eq). done.
    + exists (x :: l). split; [apply PositiveMap.gss|by left].
  - exists [x]. split; [apply PositiveMap.gss|by left].
Qed.

Lemma add_sum_old (N N' : Z) (x x' : float) (M : sums) :
  has_sum N' x' M → has_sum N' x' (add_sum N x M).
Proof.
  intros (HN' & l' & Hfind' & Hin). split; [done|]. unfold add_sum.
  destruct (PositiveMap.find (sum_key N) M) as [l|] eqn:Hfind.
  - destruct (existsb (sf_eqb x) l); [by exists l'|].
    destruct (Pos.eq_dec (sum_key N) (sum_key N')) as [Heq|Hne].
    + rewrite Heq in Hfind. rewrite Hfind in Hfind'. injection Hfind' as <-.
      exists (x :: l). split; [rewrite Heq; apply PositiveMap.gss|by right].
    + exists l'. split; [|done]. by rewrite PositiveMap.gso.
  - destruct (Pos.eq_dec (sum_key N) (sum_key N')) as [Heq|Hne].
    + rewrite Heq in Hfind. by rewrite Hfind in Hfind'.
    + exists l'. split; [|done]. by rewrite PositiveMap.gso.
Qed.

(** A fold whose steps only add sums keeps what it starts from and holds
    what each step adds. *)
Lemma fold_left_adds {Y : Type} (f : sums → Y → sums)
    (T : Y → Z → float → Prop) :
  (∀ acc y N x, has_sum N x acc → has_sum N x (f acc y)) →
  (∀ acc y N x, T y N x → has_sum N x (f acc y)) →
  ∀ ys acc,
    (∀ N x, has_sum N x acc → has_sum N x (fold_left f ys acc))
    ∧ (∀ y N x, In y ys → T y N x → has_sum N x (fold_left f ys acc)).
Proof.
  intros Hkeep Hadd ys. induction ys as [|y0 ys IH]; intros acc; cbn [fold_left].
  { split; [done|]. intros y N x []. }
  destruct (IH (f acc y0)) as [IHkeep IHadd]. split.
  - intros N x Hacc. by apply IHkeep, Hkeep.
  - intros y N x [->|Hy] HT; [by apply IHkeep, Hadd|by eapply IHadd].
Qed.

Lemma weighted_in (w : float) (vs : list Z) (v : Z) :
  In v vs → In (v, fmul (of_int v) w) (weighted w vs).
Proof.
  intros Hv. unfold weighted. apply in_map_iff. by exists v.
Qed.

Lemma first_term_has (W : Z) (w : float) (vs : list Z) (v : Z) :
  0 ≤ W → (∀ u, In u vs → 0 ≤ u) → In v vs →
  has_sum (W * v) (fmul (of_int v) w) (first_term W (weighted w vs)).
Proof.
  intros HW Hvs Hv. unfold first_term.
  refine (proj2 (fold_left_adds
                   (λ acc vt, add_sum (W * fst vt) (snd vt) acc)
                   (λ vt N x, 0 ≤ fst vt ∧ N = W * fst vt ∧ x = snd vt)
                   _ _ _ _) (v, fmul (of_int v) w) _ _ (weighted_in w vs v Hv) _).
  - intros acc y N x. apply add_sum_old.
  - intros acc y N x (Hy & -> & ->). apply add_sum_new. lia.
  - cbn. split; [by apply Hvs|done].
Qed.

Lemma add_term_has (W : Z) (w : float) (vs : list Z) (M : sums) (N v : Z)
    (x : float) :
  0 ≤ W → (∀ u, In u vs → 0 ≤ u) →
  has_sum N x M → In v vs →
  has_sum (N + W * v) (fadd x (fmul (of_int v) w))
    (add_term W (weighted w vs) M).
Proof.
  intros HW Hvs (HN & l & Hfind & Hx) Hv. unfold add_term.
  rewrite PositiveMap.fold_1.
  apply PositiveMap.elements_correct in Hfind.
  set (inner := λ (k : positive) (x0 : float) (acc : sums) (vt : Z * float),
         add_sum (Z.pos k - 1 + W * fst vt) (fadd x0 (snd vt)) acc).
  set (middle := λ (k : positive) (acc : sums) (x0 : float),
         fold_left (inner k x0) (weighted w vs) acc).
  assert (∀ k x0 acc,
            (∀ N' x', has_sum N' x' acc →
                      has_sum N' x' (fold_left (inner k x0) (weighted w vs) acc))
            ∧ (∀ vt N' x', In vt (weighted w vs) →
                 (0 ≤ Z.pos k - 1 + W * fst vt
                  ∧ N' = Z.pos k - 1 + W * fst vt ∧ x' = fadd x0 (snd vt)) →
                 has_sum N' x' (fold_left (inner k x0) (weighted w vs) acc)))
    as Hinner.
  { intros k x0. apply fold_left_adds.
    - intros acc y N' x'. apply add_sum_old.
    - intros acc y N' x' (Hy & -> & ->). by apply add_sum_new. }
  assert (∀ k l0 acc,
            (∀ N' x', has_sum N' x' acc →
                      has_sum N' x' (fold_left (middle k) l0 acc))
            ∧ (∀ x0 N' x', In x0 l0 →
                 (∃ vt, In vt (weighted w vs)
                        ∧ 0 ≤ Z.pos k - 1 + W * fst vt
                        ∧ N' = Z.pos k - 1 + W * fst vt
                        ∧ x' = fadd x0 (snd vt)) →
                 has_sum N' x' (fold_left (middle k) l0 acc)))
    as Hmiddle.
  { intros k l0. apply fold_left_adds.
    - intros acc x0 N' x'. apply Hinner.
    - intros acc x0 N' x' (vt & Hvt & Hrest). by eapply Hinner. }
  refine (proj2 (fold_left_adds
                   (λ acc (p : positive * list float), 
                      fold_left (middle (fst p)) (snd p) acc)
                   (λ p N' x', ∃ x0 vt, In x0 (snd p) ∧ In vt (weighted w vs)
                                 ∧ 0 ≤ Z.pos (fst p) - 1 + W * fst vt
                                 ∧ N' = Z.pos (fst p) - 1 + W * fst vt
                                 ∧ x' = fadd x0 (snd vt))
                   _ _ _ _) (sum_key N, l) _ _ Hfind _).
  - intros acc p N' x'. apply Hmiddle.
  - intros acc p N' x' (x0 & vt & Hx0 & Hvt & Hrest).
    eapply Hmiddle; [done|]. by exists vt.
  - exists x, (v, fmul (of_int v) w). cbn [fst snd].
    split; [done|]. split; [by apply weighted_in|].
    assert (Z.pos (sum_key N) - 1 = N) as ->.
    { unfold sum_key. rewrite Z2Pos.id; lia. }
    pose proof (Hvs v Hv). split; [nia|done].
Qed.

Lemma fold_left_andb {Y : Type} (g : Y → bool) (ys : list Y) (b : bool) :
  fold_left (λ acc y, acc && g y) ys b = true →
  b = true ∧ ∀ y, In y ys → g y = true.
Proof.
  revert b. induction ys as [|y0 ys IH]; intros b; cbn [fold_left].
  { intros ->. split; [done|]. intros y []. }
  intros [[-> Hy0]%andb_prop Hys]%IH. split; [done|].
  intros y [->|Hy]; [done|by apply Hys].
Qed.

Lemma all_round_to_nearest_has (M : sums) (N : Z) (x : float) :
  all_round_to_nearest M = true → has_sum N x M →
  nearest_to N (PyFloat.round x).
Proof.
  unfold all_round_to_nearest. rewrite PositiveMap.fold_1.
  intros [_ Hall]%(fold_left_andb
                     (λ p : positive * list float,
                        forallb (rounds_to_nearest (Z.pos (fst p) - 1)) (snd p)))
         (HN & l & Hfind & Hx).
  apply PositiveMap.elements_correct in Hfind.
  specialize (Hall _ Hfind). cbn [fst snd] in Hall.
  rewrite forallb_forall in Hall. specialize (Hall x Hx).
  assert (Z.pos (sum_key N) - 1 = N) as Hkey.
  { unfold sum_key. rewrite Z2Pos.id; lia. }
  rewrite Hkey in Hall. unfold rounds_to_nearest in Hall.
  by apply Z.leb_le in Hall.
Qed.

(** Every sum the program can reach rounds to an integer nearest to the
    exact weighted sum: checked on each of them. *)
Lemma sums_6_round_to_nearest : all_round_to_nearest sums_6 = true.
Proof. vm_compute. reflexivity. Qed.

Lemma in_score_range (v : Z) : 0 ≤ v ≤ 100 → In v score_range.
Proof.
  intros Hv. unfold score_range. apply in_map_iff. exists (Z.to_nat v).
  split; [lia|]. apply in_seq. lia.
Qed.

Lemma score_range_nonneg (v : Z) : In v score_range → 0 ≤ v.
Proof.
  unfold score_range. intros (n & <- & _)%in_map_iff. lia.
Qed.

Lemma rast_values_nonneg (v : Z) : In v rast_values → 0 ≤ v.
Proof. unfold rast_values. cbn. intros Hv. repeat destruct Hv as [<-|Hv]; try lia; done. Qed.

Lemma perf_values_nonneg (v : Z) : In v perf_values → 0 ≤ v.
Proof. unfold perf_values. cbn. intros Hv. repeat destruct Hv as [<-|Hv]; try lia; done. Qed.

(** The float the program rounds is one of the sums of [sums_6], filed
    under the exact weighted sum. *)
Lemma weighted_sum_reached (sec : sectors) :
  In (rast sec) rast_values → In (content sec) score_range →
  In (schema sec) score_range → In (links_media sec) score_range →
  In (perf sec) perf_values → In (social sec) score_range →
  has_sum (weighted_hundredths sec) (weighted_sum sec) sums_6.
Proof.
  intros Hr Hc Hs Hl Hp Ho. unfold weighted_hundredths, weighted_sum.
  unfold sums_6.
  apply add_term_has; [lia|apply score_range_nonneg| |done].
  unfold sums_5.
  apply add_term_has; [lia|apply perf_values_nonneg| |done].
  unfold sums_4.
  apply add_term_has; [lia|apply score_range_nonneg| |done].
  unfold sums_3.
  apply add_term_has; [lia|apply score_range_nonneg| |done].
  unfold sums_2.
  apply add_term_has; [lia|apply score_range_nonneg| |done].
  unfold sums_1.
  apply first_term_has; [lia|apply rast_values_nonneg|done].
Qed.


(** The sector scores lie where [sums_6] expects them, on every site:
    [sector_scores] raises on none. The social score, which alone is not
    clamped, is the integer part of a hundred times a share. *)
Lemma sector_scores_values (site : SiteAudit.t) :
  ∃ sec,
    sector_scores site = Some sec
    ∧ In (rast sec) rast_values ∧ In (content sec) score_range
    ∧ In (schema sec) score_range ∧ In (links_media sec) score_range
    ∧ In (perf sec) perf_values ∧ In (social sec) score_range.
Proof.
  destruct (SiteAudit.pages site) as [|p0 pages] eqn:Hpages.
  { eexists. split; [unfold sector_scores; by rewrite Hpages|].
    cbn [rast content schema links_media perf social].
    split; [by left|]. split; [by apply in_score_range|].
    split; [by apply in_score_range|]. split; [by apply in_score_range|].
    split; [by left|by apply in_score_range]. }
  assert (SiteAudit.pages site ≠ []) as Hne by by rewrite Hpages.
  eexists. split; [by apply sector_scores_pages|].
  cbn [rast content schema links_media perf social].
  split.
  { destruct (SiteAudit.robots_ok site) as [[]|],
      (SiteAudit.sitemap_ok site) as [[]|],
      (SiteAudit.llms_ok site) as [[]|]; vm_compute; tauto. }
  split; [apply in_score_range, clamp_range; lia|].
  split; [apply in_score_range, clamp_range; lia|].
  split; [apply in_score_range, clamp_range; lia|].
  split.
  { destruct (flt _ f2_0); [cbn; tauto|].
    destruct (flt _ f4_0); [cbn; tauto|].
    destruct (flt _ f6_0); cbn; tauto. }
  apply in_score_range, percent_at_most. by apply share_at_most.
Qed.

(** C5. On every site [overall_score] returns an integer nearest to the
    weighted sum of the six sector scores with the weights 0.20, 0.25,
    0.20, 0.15, 0.10 and 0.10: it differs from the exact sum by at most
    one half. The sum is counted in hundredths, [20 * rast + 25 * content
    + 20 * schema + 15 * links_media + 10 * perf + 10 * social]. *)
Theorem overall_score_nearest (site : SiteAudit.t) :
  ∃ sec z,
    sector_scores site = Some sec
    ∧ overall_score site = Some z
    ∧ nearest_to (weighted_hundredths sec) z.
Proof.
  destruct (sector_scores_values site)
    as (sec & Hsec & Hr & Hc & Hs & Hl & Hp & Ho).
  exists sec, (PyFloat.round (weighted_sum sec)). split; [done|].
  split; [unfold overall_score; by rewrite Hsec|].
  apply (all_round_to_nearest_has sums_6); [apply sums_6_round_to_nearest|].
  by apply weighted_sum_reached.
Qed.

(* ===================================================================== *)
(** * Further properties: grades and site scores *)
(* ===================================================================== *)

(** X1. The letter of [grade] never gets worse when the score grows, and
    the letters change exactly at 90, 80, 70 and 55. *)
Theorem grade_monotone (a b : Z) :
  a ≤ b →
  letter_rank (grade b) ≤ letter_rank (grade a)
  ∧ (grade a = A ↔ 90 ≤ a) ∧ (grade a = B ↔ 80 ≤ a < 90)
  ∧ (grade a = C ↔ 70 ≤ a < 80) ∧ (grade a = D ↔ 55 ≤ a < 70)
  ∧ (grade a = E ↔ a < 55).
Proof.
  intros Hab. unfold grade.
  destruct (Z.leb_spec 90 a), (Z.leb_spec 80 a), (Z.leb_spec 70 a),
    (Z.leb_spec 55 a), (Z.leb_spec 90 b), (Z.leb_spec 80 b),
    (Z.leb_spec 70 b), (Z.leb_spec 55 b);
    cbn [letter_rank]; try lia;
    (split; [lia|]); repeat split; (congruence || lia || discriminate).
Qed.

Lemma grade_monotone_witness :
  letter_rank (grade 91) ≤ letter_rank (grade 54) ∧ (grade 54 = E ↔ 54 < 55).
Proof.
  destruct (grade_monotone 54 91 ltac:(lia)) as (Hrank & _ & _ & _ & _ & HE).
  split; [exact Hrank|exact HE].
Defined.

(** X2. On a site without any page all six sector scores are 0 and the
    overall score is 0, whatever the reachability flags say. *)
Theorem no_pages_all_zero (site : SiteAudit.t) :
  SiteAudit.pages site = [] →
  sector_scores site
  = Some {| rast := 0; content := 0; schema := 0; links_media := 0;
            perf := 0; social := 0 |}
  ∧ overall_score site = Some 0.
Proof.
  intros Hpages.
  assert (sector_scores site
          = Some {| rast := 0; content := 0; schema := 0; links_media := 0;
                    perf := 0; social := 0 |}) as Hsec.
  { unfold sector_scores. by rewrite Hpages. }
  split; [done|]. unfold overall_score. rewrite Hsec. by vm_compute.
Qed.

Lemma no_pages_all_zero_witness :
  overall_score (SiteAudit.new "https://a.com/" "a.com") = Some 0.
Proof.
  exact (proj2 (no_pages_all_zero (SiteAudit.new "https://a.com/" "a.com")
                  eq_refl)).
Defined.

(** X3. On every site [sector_scores] returns; the crawlability, content,
    schema and links-and-media scores lie in [0, 100], the performance
    score is one of 0, 55, 70, 85 and 95, and the social score, the one
    score that is not clamped, lies in [0, 100] as well. *)
Theorem sector_scores_in_range (site : SiteAudit.t) :
  ∃ sec,
    sector_scores site = Some sec
    ∧ 0 ≤ rast sec ≤ 100 ∧ 0 ≤ content sec ≤ 100 ∧ 0 ≤ schema sec ≤ 100
    ∧ 0 ≤ links_media sec ≤ 100
    ∧ perf sec ∈ [0; 95; 85; 70; 55]
    ∧ 0 ≤ social sec ≤ 100.
Proof.
  destruct (sector_scores_values site)
    as (sec & Hsec & Hr & Hc & Hs & Hl & Hp & Ho).
  exists sec. split; [done|].
  assert (∀ v, In v score_range → 0 ≤ v ≤ 100) as Hrange.
  { unfold score_range. intros v (n & <- & Hn%in_seq)%in_map_iff. lia. }
  split.
  { unfold rast_values in Hr. cbn in Hr.
    repeat destruct Hr as [<-|Hr]; try lia; done. }
  split; [by apply Hrange|]. split; [by apply Hrange|].
  split; [by apply Hrange|]. split; [|by apply Hrange].
  by apply list_elem_of_In.
Qed.

(* ===================================================================== *)
(** * Further properties: the crawl loop *)
(* ===================================================================== *)

Section CrawlMore.
Context `{UrlLib} `{JsonLib} `{HtmlLib} {world : Type} `{Browser world}.

Lemma crawl_round_header (max_pages timeout_ms : Z) (cookie_accept_text : string)
    (st st' : crawl world) :
  crawl_round max_pages timeout_ms cookie_accept_text st = round_ends st' →
  site_header (site st') = site_header (site st).
Proof.
  intros [_ Hkind]%crawl_round_ends.
  by destruct Hkind as [q rest url Hq Hurl Hv ->
                       |q rest url w' Hq Hurl Hv Hfetch ->
                       |q rest url w' r pd new_links queue' Hq Hurl Hv Hfetch
                          Hpd Hlinks Hqueue' ->].
Qed.

Lemma crawl_loop_header (max_pages timeout_ms : Z) (cookie_accept_text : string)
    (fuel : nat) (st st' : crawl world) :
  crawl_loop max_pages timeout_ms cookie_accept_text fuel st = returned st' →
  site_header (site st') = site_header (site st).
Proof.
  revert st. induction fuel as [|fuel IH]; intros st; cbn [crawl_loop];
    destruct (crawl_round _ _ _ st) as [|st1|] eqn:Hround; try congruence.
  intros ->%IH. by eapply crawl_round_header.
Qed.

(** X4. The site [run_audit] returns has the normal form of the start URL
    as its start URL, the host of that URL, the three endpoint URLs built
    from the scheme and the host, and each of the three reachability flags
    set to [True] or [False]: no flag is left at [None]. *)
Theorem run_audit_site_header (fuel : nat) (w : world) (start_url : string)
    (max_pages timeout_sec : Z) (cookie_accept_text : string)
    (s : SiteAudit.t) (w' : world) :
  run_audit fuel w start_url max_pages timeout_sec cookie_accept_text
  = returned (s, w') →
  ∃ s0 h parts,
    norm_url start_url = Some s0 ∧ host s0 = Some h ∧ urlparse s0 = Some parts
    ∧ let base := ParseResult.scheme parts ++ "://" ++ h in
      SiteAudit.start_url s = s0
      ∧ SiteAudit.host s = h
      ∧ SiteAudit.robots_url s = base ++ "/robots.txt"
      ∧ SiteAudit.sitemap_url s = base ++ "/sitemap.xml"
      ∧ SiteAudit.llms_url s = base ++ "/llms.txt"
      ∧ is_Some (SiteAudit.robots_ok s) ∧ is_Some (SiteAudit.sitemap_ok s)
      ∧ is_Some (SiteAudit.llms_ok s).
Proof.
  intros (st0 & st & Hinit & Hloop & <- & _ & _)%run_audit_state.
  apply crawl_loop_header in Hloop. unfold site_header in Hloop.
  injection Hloop as -> -> -> -> -> -> -> ->.
  destruct (crawl_init_Some _ _ _ _ Hinit)
    as (s0 & parts & Hs0 & Hparts & _ & _ & _ & Hstart & Hhost & Hrobots
        & Hsitemap & Hllms & Hr & Hs & Hl).
  exists s0, (lower (ParseResult.netloc parts)), parts.
  split; [done|]. split; [unfold host; by rewrite Hparts|]. split; [done|].
  cbv zeta. done.
Qed.

Lemma crawl_round_budget (max_pages timeout_ms : Z) (cookie_accept_text : string)
    (st st' : crawl world) :
  crawl_round max_pages timeout_ms cookie_accept_text st = round_ends st' →
  len (SiteAudit.pages (site st')) ≤ max_pages.
Proof.
  intros [Hlt Hkind]%crawl_round_ends. unfold len in *.
  destruct Hkind as [q rest url Hq Hurl Hv ->
                    |q rest url w' Hq Hurl Hv Hfetch ->
                    |q rest url w' r pd new_links queue' Hq Hurl Hv Hfetch
                       Hpd Hlinks Hqueue' ->]; cbn;
    rewrite ?length_app; cbn; lia.
Qed.

Lemma crawl_loop_budget (max_pages timeout_ms : Z) (cookie_accept_text : string)
    (fuel : nat) (st st' : crawl world) :
  len (SiteAudit.pages (site st)) ≤ Z.max 0 max_pages →
  crawl_loop max_pages timeout_ms cookie_accept_text fuel st = returned st' →
  len (SiteAudit.pages (site st')) ≤ Z.max 0 max_pages.
Proof.
  revert st. induction fuel as [|fuel IH]; intros st Hst; cbn [crawl_loop];
    destruct (crawl_round _ _ _ st) as [|st1|] eqn:Hround; try congruence.
  apply IH. apply crawl_round_budget in Hround. lia.
Qed.

(** X5. [run_audit] never returns more page records than the page budget:
    at most [max_pages], and none when [max_pages] is zero or negative. *)
Theorem run_audit_within_budget (fuel : nat) (w : world) (start_url : string)
    (max_pages timeout_sec : Z) (cookie_accept_text : string)
    (s : SiteAudit.t) (w' : world) :
  run_audit fuel w start_url max_pages timeout_sec cookie_accept_text
  = returned (s, w') →
  len (SiteAudit.pages s) ≤ Z.max 0 max_pages.
Proof.
  intros (st0 & st & Hinit & Hloop & <- & _ & _)%run_audit_state.
  eapply crawl_loop_budget; [|done].
  destruct (crawl_init_Some _ _ _ _ Hinit)
    as (s0 & parts & _ & _ & _ & _ & -> & _).
  unfold len. cbn. lia.
Qed.

(** X6. The queue is first in, first out. A round takes the head of the
    queue, keeps the rest in its order and appends the new links behind
    it; the record it appends, if any, is the one of the normalised head.
    When the loop stops, the queue is empty or the page budget is
    reached. *)
Theorem crawl_queue_fifo (max_pages timeout_ms : Z) (cookie_accept_text : string) :
  (∀ st st' : crawl world,
     crawl_round max_pages timeout_ms cookie_accept_text st = round_ends st' →
     ∃ q rest url added,
       queue st = q :: rest ∧ norm_url q = Some url
       ∧ queue st' = (rest ++ added)%list
       ∧ (page_urls st' = page_urls st
          ∨ page_urls st' = (page_urls st ++ [url])%list))
  ∧ (∀ (fuel : nat) (st st' : crawl world),
       crawl_loop max_pages timeout_ms cookie_accept_text fuel st
       = returned st' →
       queue st' = [] ∨ max_pages ≤ len (SiteAudit.pages (site st'))).
Proof.
  split.
  - intros st st' [_ Hkind]%crawl_round_ends.
    destruct Hkind as [q rest url Hq Hurl Hv ->
                      |q rest url w' Hq Hurl Hv Hfetch ->
                      |q rest url w' r pd new_links queue' Hq Hurl Hv Hfetch
                         Hpd Hlinks Hqueue' ->].
    + exists q, rest, url, []. rewrite app_nil_r. split; [done|].
      split; [done|]. split; [done|]. by left.
    + exists q, rest, url, []. rewrite app_nil_r. split; [done|].
      split; [done|]. split; [done|]. right. by rewrite page_urls_append.
    + destruct (enqueue_all_spec _ _ _ _ _ Hqueue') as (added & Hadded & _).
      exists q, rest, url, added. split; [done|]. split; [done|].
      split; [exact Hadded|].
      right. by rewrite page_urls_append, (audit_from_dom_url _ _ _ _ _ _ _ _ _ Hpd).
  - intros fuel st st' Hloop.
    by apply crawl_loop_final, crawl_round_exits in Hloop.
Qed.

End CrawlMore.

Lemma run_audit_site_header_witness :
  ∃ s w',
    @run_audit simple_url tiny_json example_html _ example_browser
      (enough_fuel 10) [] " https://a.com/#start" 10 25 "" = returned (s, w')
    ∧ SiteAudit.start_url s = "https://a.com/"
    ∧ SiteAudit.robots_url s = "https://a.com/robots.txt"
    ∧ is_Some (SiteAudit.llms_ok s).
Proof.
  destruct (@run_audit simple_url tiny_json example_html _ example_browser
              (enough_fuel 10) [] " https://a.com/#start" 10 25 "")
    as [[s w']| |] eqn:Hrun; [|by vm_compute in Hrun|by vm_compute in Hrun].
  exists s, w'. split; [done|].
  destruct (@run_audit_site_header simple_url tiny_json example_html _
              example_browser _ _ _ _ _ _ _ _ Hrun)
    as (s0 & h & parts & Hs0 & Hh & Hparts & Hstart & _ & Hrobots & _ & _ & _
        & _ & Hllms).
  vm_compute in Hs0. injection Hs0 as <-.
  vm_compute in Hparts. injection Hparts as <-.
  vm_compute in Hh. injection Hh as <-.
  split; [exact Hstart|]. split; [exact Hrobots|exact Hllms].
Defined.

Lemma run_audit_within_budget_witness :
  ∃ s w',
    @run_audit simple_url tiny_json example_html _ example_browser
      (enough_fuel 1) [] "https://a.com/" 1 25 "" = returned (s, w')
    ∧ len (SiteAudit.pages s) ≤ 1.
Proof.
  destruct (@run_audit simple_url tiny_json example_html _ example_browser
              (enough_fuel 1) [] "https://a.com/" 1 25 "")
    as [[s w']| |] eqn:Hrun; [|by vm_compute in Hrun|by vm_compute in Hrun].
  exists s, w'. split; [done|].
  exact (@run_audit_within_budget simple_url tiny_json example_html _
           example_browser _ _ _ _ _ _ _ _ Hrun).
Defined.

Lemma crawl_queue_fifo_witness :
  ∃ st0 st' q rest added,
    @crawl_init simple_url _ example_browser [] "https://a.com/" 25 = Some st0
    ∧ @crawl_round simple_url tiny_json example_html _ example_browser
        5 25000 "" st0 = round_ends st'
    ∧ queue st0 = q :: rest
    ∧ queue st' = (rest ++ added)%list.
Proof.
  destruct (@crawl_init simple_url _ example_browser [] "https://a.com/" 25)
    as [st0|] eqn:Hinit; [|by vm_compute in Hinit].
  destruct (@crawl_round simple_url tiny_json example_html _ example_browser
              5 25000 "" st0) as [|st'|] eqn:Hround.
  1,3: vm_compute in Hinit; injection Hinit as <-; by vm_compute in Hround.
  destruct (proj1 (@crawl_queue_fifo simple_url tiny_json example_html _
                     example_browser 5 25000 "") _ _ Hround)
    as (q & rest & url & added & Hq & _ & Hq' & _).
  by exists st0, st', q, rest, added.
Defined.

(* ===================================================================== *)
(** * Further properties: the scorer and the extractor *)
(* ===================================================================== *)

(** X7. The clamps of [score_page] change one thing only: the sub-terms
    of meta, content, structure, schema and links_media already add up to
    a value between 0 and the ceiling of the category (schema is 0, 12 or
    15, links_media at least 1), and the sub-terms of basics_perf add up
    to a value between -4 and 10, which the clamp lifts to 0 when it is
    negative. The links_media term is the one that can raise; the
    breakdown is the one of a call that returns. *)
Theorem score_page_raw_points (p : PageAudit.t) :
  0 ≤ meta_points p ≤ 25 ∧ 0 ≤ content_points p ≤ 25
  ∧ 0 ≤ structure_points p ≤ 15
  ∧ schema_points p ∈ [0; 12; 15]
  ∧ -4 ≤ basics_perf_points p ≤ 10
  ∧ (∀ lm, links_media_points p = Some lm → 1 ≤ lm ≤ 10)
  ∧ (∀ total breakdown,
       score_page p = Some (total, breakdown) →
       ∃ lm, links_media_points p = Some lm
             ∧ breakdown
               = [("meta", meta_points p); ("content", content_points p);
                  ("structure", structure_points p);
                  ("schema", schema_points p); ("links_media", lm);
                  ("basics_perf", Z.max 0 (basics_perf_points p))]).
Proof.
  assert (0 ≤ meta_points p ≤ 25) as Hm.
  { unfold meta_points.
    repeat (match goal with |- context [if ?b then _ else _] => destruct b end);
      lia. }
  assert (0 ≤ content_points p ≤ 25) as Hc.
  { unfold content_points, MIN_WORDS_OK.
    repeat (match goal with |- context [if ?b then _ else _] => destruct b end);
      lia. }
  assert (0 ≤ structure_points p ≤ 15) as Hs.
  { unfold structure_points.
    repeat (match goal with |- context [if ?b then _ else _] => destruct b end);
      lia. }
  assert (schema_points p = 0 ∨ schema_points p = 12 ∨ schema_points p = 15)
    as Hsc.
  { unfold schema_points. destruct (PageAudit.schema_types p); [by left|].
    destruct (existsb _ _); tauto. }
  assert (∀ lm, links_media_points p = Some lm → 1 ≤ lm ≤ 10) as Hl.
  { intros lm. unfold links_media_points.
    destruct (PageAudit.images p =? 0); cbn [mbind option_bind].
    - intros [= <-].
      repeat (match goal with |- context [if ?b then _ else _] => destruct b end);
        lia.
    - destruct (truediv _ _) as [ratio|]; cbn [mbind option_bind]; [|done].
      intros [= <-].
      repeat (match goal with |- context [if ?b then _ else _] => destruct b end);
        lia. }
  assert (-4 ≤ basics_perf_points p ≤ 10) as Hb.
  { unfold basics_perf_points.
    pose proof (load_points_range (PageAudit.load_time_sec p)).
    repeat (match goal with |- context [if ?b then _ else _] => destruct b end);
      lia. }
  split; [done|]. split; [done|]. split; [done|].
  split.
  { destruct Hsc as [->|[->| ->]]; [apply list_elem_of_here| |].
    - apply list_elem_of_further, list_elem_of_here.
    - do 2 apply list_elem_of_further. apply list_elem_of_here. }
  split; [done|]. split; [done|].
  intros total breakdown. rewrite score_page_breakdown.
  destruct (links_media_points p) as [lm|]; [|done].
  cbn [mbind option_bind]. intros [= <- <-]. exists lm. split; [done|].
  pose proof (Hl lm eq_refl).
  rewrite !clamp_id by lia.
  replace (clamp (schema_points p) 0 15) with (schema_points p)
    by (unfold clamp; lia).
  replace (clamp (basics_perf_points p) 0 10)
    with (Z.max 0 (basics_perf_points p)) by (unfold clamp; lia).
  reflexivity.
Qed.

Lemma score_page_raw_points_witness :
  links_media_points (degraded "https://a.com/") = Some 2 ∧ 1 ≤ 2 ≤ 10.
Proof.
  split; [reflexivity|].
  apply (proj1 (proj2 (proj2 (proj2 (proj2 (proj2
           (score_page_raw_points (degraded "https://a.com/")))))))).
  reflexivity.
Defined.


Section FindingsAndCounts.
Context `{UrlLib} `{JsonLib} `{HtmlLib}.

(** X8. The rule list of the extractor files between 7 and 10 findings:
    one per rule for the title, the description, the canonical link, the
    H1, the structured data, the images and the social metadata, and one
    more for each of: fewer than 3 internal links, fewer than 80 words, a
    noindex directive. At most 7 of them are wins. *)
Theorem findings_count (url final_url : string) (status : Z)
    (load_time_sec : float) (html : string) (jsonld_blocks hrefs : list string)
    (link_rel_data : list (string * list string)) (p : PageAudit.t) :
  audit_from_dom url final_url status load_time_sec html jsonld_blocks hrefs
    link_rel_data = Some p →
  len (PageAudit.wins p) + len (PageAudit.issues p)
  = 7 + (if PageAudit.internal_links p <? 3 then 1 else 0)
      + (if PageAudit.word_count p <? 80 then 1 else 0)
      + (if has_noindex (PageAudit.meta_robots p) then 1 else 0)
  ∧ 7 ≤ len (PageAudit.wins p) + len (PageAudit.issues p) ≤ 10
  ∧ len (PageAudit.wins p) ≤ 7
  ∧ 0 < len (PageAudit.wins p) + len (PageAudit.issues p).
Proof.
  intros Hp.
  destruct (audit_from_dom_Some _ _ _ _ _ _ _ _ _ Hp)
    as (c & _ & _ & _ & _ & _ & _ & _ & _ & _ & Hissues & Hwins & _).
  rewrite Hissues, Hwins.
  unfold page_wins, page_issues, len. rewrite !length_app.
  destruct (truthy (PageAudit.title p)),
    (truthy (PageAudit.meta_description p)),
    (truthy (PageAudit.canonical p)),
    (negb (bool_decide (PageAudit.schema_types p = []))),
    ((0 <? PageAudit.images p) && (0 <? PageAudit.images_missing_alt p)),
    (PyDict.truthy (PageAudit.og p) || PyDict.truthy (PageAudit.twitter p)),
    (has_noindex (PageAudit.meta_robots p)),
    (PageAudit.word_count p <? 80);
    destruct (Z.of_nat (length (PageAudit.h1 p)) =? 1);
    destruct (Z.of_nat (length (PageAudit.h1 p)) =? 0);
    destruct (Z.eqb_spec (PageAudit.internal_links p) 0) as [Hi|Hi];
    destruct (Z.ltb_spec (PageAudit.internal_links p) 3);
    cbn [length]; lia.
Qed.


End FindingsAndCounts.

Lemma count_words_collapse (in_word in_ws : bool) (t : string) :
  (in_ws = true → in_word = false) →
  count_words in_word (collapse_ws in_ws t) = count_words in_word t.
Proof.
  revert in_word in_ws. induction t as [|c t IH]; intros in_word in_ws Hstate;
    [done|].
  cbn [collapse_ws count_words]. destruct (py_isspace c) eqn:Hc.
  - destruct in_ws.
    + rewrite (Hstate eq_refl). by apply IH.
    + cbn [count_words]. assert (py_isspace " " = true) as -> by done.
      by apply IH.
  - cbn [count_words]. rewrite Hc.
    destruct in_word; rewrite IH; done.
Qed.

Lemma count_words_lstrip (t : string) :
  count_words false (lstrip t) = count_words false t.
Proof.
  induction t as [|c t IH]; [done|]. cbn [lstrip count_words].
  destruct (py_isspace c) eqn:Hc; [done|]. cbn [count_words]. by rewrite Hc.
Qed.

Lemma count_words_cons (in_word : bool) (c : ascii) (t : string) :
  count_words in_word (String c t)
  = if py_isspace c then count_words false t
    else if in_word then count_words true t else S (count_words true t).
Proof. reflexivity. Qed.

Lemma count_words_rstrip (in_word : bool) (t : string) :
  count_words in_word (rstrip t) = count_words in_word t.
Proof.
  revert in_word. induction t as [|c t IH]; intros in_word; [done|].
  cbn [rstrip]. destruct (rstrip t) as [|d r] eqn:Hr.
  - rewrite (count_words_cons in_word c t), <- !IH.
    destruct (py_isspace c) eqn:Hc; [done|].
    rewrite count_words_cons, Hc. done.
  - by rewrite (count_words_cons in_word c t),
      (count_words_cons in_word c (String d r)), !IH.
Qed.

Lemma count_words_strip (t : string) :
  count_words false (strip t) = count_words false t.
Proof. unfold strip. by rewrite count_words_rstrip, count_words_lstrip. Qed.

Section Signals.
Context `{UrlLib} `{JsonLib} `{HtmlLib}.

(** X10. The word count of a record is the number of white-space
    separated tokens of the visible text as the parser gives it: the
    collapsing of white space and the trimming in [extract_visible_text]
    do not change it. The image counts satisfy
    [0 <= images_missing_alt <= images]. *)
Theorem word_and_image_counts (url final_url : string) (status : Z)
    (load_time_sec : float) (html : string) (jsonld_blocks hrefs : list string)
    (link_rel_data : list (string * list string)) (p : PageAudit.t) :
  audit_from_dom url final_url status load_time_sec html jsonld_blocks hrefs
    link_rel_data = Some p →
  PageAudit.word_count p
  = Z.of_nat (count_words false (visible_text (parse_html html)))
  ∧ PageAudit.images p = len (img_alts (parse_html html))
  ∧ 0 ≤ PageAudit.images_missing_alt p ≤ PageAudit.images p.
Proof.
  intros Hp.
  pose proof (audit_from_dom_images _ _ _ _ _ _ _ _ _ Hp) as Himages.
  destruct (audit_from_dom_Some _ _ _ _ _ _ _ _ _ Hp)
    as (c & _ & _ & _ & _ & _ & _ & _ & _ & _ & _ & _ & Hi & _ & Hw & _).
  split; [|by split].
  rewrite Hw.
  assert (count_words false (extract_visible_text (parse_html html))
          = count_words false (visible_text (parse_html html))) as Hcount.
  { unfold extract_visible_text.
    rewrite count_words_strip. by apply count_words_collapse. }
  destruct (extract_visible_text (parse_html html)) as [|ch t] eqn:Htext.
  - cbn [truthy]. by rewrite <- Hcount.
  - cbn [truthy]. by rewrite <- Hcount.
Qed.

End Signals.

Lemma dict_set_keys {V : Type} (d : PyDict.dict V) (k : string) (v : V) :
  PyDict.keys (PyDict.set d k v)
  = if bool_decide (k ∈ PyDict.keys d) then PyDict.keys d
    else (PyDict.keys d ++ [k])%list.
Proof.
  unfold PyDict.keys. induction d as [|[k' v'] d IH]; cbn [PyDict.set map fst].
  { rewrite bool_decide_eq_false_2; [done|]. apply not_elem_of_nil. }
  destruct (String.eqb_spec k' k) as [->|Hne].
  - cbn [map fst]. rewrite bool_decide_eq_true_2; [done|apply list_elem_of_here].
  - cbn [map fst]. rewrite IH.
    destruct (bool_decide (k ∈ map fst d)) eqn:Hin.
    + apply bool_decide_eq_true in Hin.
      rewrite bool_decide_eq_true_2; [done|by apply list_elem_of_further].
    + apply bool_decide_eq_false in Hin.
      rewrite bool_decide_eq_false_2; [done|].
      intros [?|?]%elem_of_cons; [by subst|done].
Qed.

Lemma dict_get_set {V : Type} (d : PyDict.dict V) (k k' : string) (v : V) :
  PyDict.get (PyDict.set d k v) k'
  = if String.eqb k k' then Some v else PyDict.get d k'.
Proof.
  induction d as [|[k0 v0] d IH]; cbn [PyDict.set PyDict.get].
  { done. }
  destruct (String.eqb_spec k0 k) as [->|Hne]; cbn [PyDict.get].
  - destruct (String.eqb_spec k k'); done.
  - destruct (String.eqb_spec k0 k') as [->|Hne'].
    + destruct (String.eqb_spec k k'); [by subst|done].
    + exact IH.
Qed.

Lemma social_meta_keys_ok (acc : PyDict.dict string * PyDict.dict string)
    (m : MetaTag) :
  social_keys_ok acc → social_keys_ok (social_meta acc m).
Proof.
  destruct acc as [og tw]. intros (Hog & Htw & Hndo & Hndt).
  unfold social_meta.
  destruct (negb (attr_truthy _) || negb (attr_truthy (meta_content m)));
    [done|].
  set (prop := strip (attr_or_empty _)). set (content := strip (attr_or_empty _)).
  unfold social_keys_ok. cbn [fst snd].
  assert (∀ (d : PyDict.dict string) (pre : string),
            (∀ k, k ∈ PyDict.keys d → startswith k pre = true) →
            NoDup (PyDict.keys d) →
            (∀ k, k ∈ PyDict.keys (if startswith prop pre
                                   then PyDict.set d prop content else d) →
                  startswith k pre = true)
            ∧ NoDup (PyDict.keys (if startswith prop pre
                                  then PyDict.set d prop content else d)))
    as Hone.
  { intros d pre Hd Hnd. destruct (startswith prop pre) eqn:Hpre; [|done].
    rewrite dict_set_keys. destruct (bool_decide (prop ∈ PyDict.keys d)) eqn:Hin;
      [done|]. apply bool_decide_eq_false in Hin. split.
    - intros k [?| ->%list_elem_of_singleton]%elem_of_app; [by apply Hd|done].
    - apply NoDup_app. split; [done|]. split; [|apply NoDup_singleton].
      intros k Hk ->%list_elem_of_singleton. done. }
  destruct (Hone og "og:" Hog Hndo) as [? ?].
  destruct (Hone tw "twitter:" Htw Hndt) as [? ?]. done.
Qed.

Section Social.
Context `{UrlLib} `{JsonLib} `{HtmlLib}.

(** X11. In a record of the extractor every key of the Open Graph
    dictionary begins with [og:], every key of the Twitter dictionary
    with [twitter:], and no key occurs twice. When the last meta element
    of the page has a non-empty property whose trimmed text begins with
    [og:] and a non-empty content, the dictionary holds the trimmed
    content under the trimmed property: the last occurrence wins. *)
Theorem social_metadata_keys (url final_url : string) (status : Z)
    (load_time_sec : float) (html : string) (jsonld_blocks hrefs : list string)
    (link_rel_data : list (string * list string)) (p : PageAudit.t) :
  audit_from_dom url final_url status load_time_sec html jsonld_blocks hrefs
    link_rel_data = Some p →
  (∀ k, k ∈ PyDict.keys (PageAudit.og p) → startswith k "og:" = true)
  ∧ (∀ k, k ∈ PyDict.keys (PageAudit.twitter p) →
          startswith k "twitter:" = true)
  ∧ NoDup (PyDict.keys (PageAudit.og p))
  ∧ NoDup (PyDict.keys (PageAudit.twitter p))
  ∧ (∀ (before : list MetaTag) (name : option string) (prop content : string),
       metas (parse_html html)
       = (before ++ [{| meta_property := Some prop; meta_name := name;
                        meta_content := Some content |}])%list →
       truthy prop = true → truthy content = true →
       startswith (strip prop) "og:" = true →
       PyDict.get (PageAudit.og p) (strip prop) = Some (strip content)).
Proof.
  intros Hp.
  destruct (audit_from_dom_Some _ _ _ _ _ _ _ _ _ Hp)
    as (c & _ & _ & _ & _ & _ & _ & _ & _ & _ & _ & _ & _ & _ & _ & -> & ->).
  assert (social_keys_ok (fold_left social_meta (metas (parse_html html))
                            ([], []))) as (Hog & Htw & Hndo & Hndt).
  { apply fold_left_invariant; [apply social_meta_keys_ok|].
    unfold social_keys_ok. cbn.
    repeat split; try apply NoDup_nil_2;
      intros k Hk; by apply elem_of_nil in Hk. }
  split; [done|]. split; [done|]. split; [done|]. split; [done|].
  intros before name prop content -> Hprop Hcontent Hog'.
  rewrite fold_left_app. cbn [fold_left].
  destruct (fold_left social_meta before ([], [])) as [og tw].
  unfold social_meta.
  cbn [meta_property meta_name meta_content attr_truthy attr_or_empty].
  rewrite Hprop, Hcontent. cbn [negb orb attr_truthy attr_or_empty].
  rewrite Hprop. cbn [negb orb]. rewrite Hog'. cbn [fst].
  rewrite dict_get_set. by rewrite String.eqb_refl.
Qed.

End Social.

Lemma findings_count_witness :
  ∃ p, thin_page = Some p
       ∧ 7 ≤ len (PageAudit.wins p) + len (PageAudit.issues p) ≤ 10.
Proof.
  destruct thin_page as [p|] eqn:Hp; [|by vm_compute in Hp].
  exists p. split; [done|]. unfold thin_page in Hp.
  exact (proj1 (proj2 (@findings_count simple_url tiny_json example_html
                         _ _ _ _ _ _ _ _ _ Hp))).
Defined.


Lemma word_and_image_counts_witness :
  ∃ p, thin_page = Some p
       ∧ 0 ≤ PageAudit.images_missing_alt p ≤ PageAudit.images p.
Proof.
  destruct thin_page as [p|] eqn:Hp; [|by vm_compute in Hp].
  exists p. split; [done|]. unfold thin_page in Hp.
  exact (proj2 (proj2 (@word_and_image_counts simple_url tiny_json example_html
                         _ _ _ _ _ _ _ _ _ Hp))).
Defined.

Lemma social_metadata_keys_witness :
  ∃ p,
    @audit_from_dom simple_url tiny_json
      {| parse_html := λ _,
           {| html_lang := None; has_viewport := false;
              title_text := None; description_content := None;
              robots_content := None; canonical_href := None;
              metas := [{| meta_property := Some "og:title";
                           meta_name := None;
                           meta_content := Some "First" |};
                        {| meta_property := Some " og:title ";
                           meta_name := None;
                           meta_content := Some "Second " |}];
              h1_texts := []; h2_texts := []; h3_texts := [];
              visible_text := ""; img_alts := [];
              anchor_hrefs := [] |} |}
      "https://a.com/" "https://a.com/" 200 f0_0 "" [] [] [] = Some p
    ∧ PyDict.get (PageAudit.og p) "og:title" = Some "Second".
Proof.
  destruct (audit_from_dom _ _ _ _ _ _ _ _) as [p|] eqn:Hp;
    [|by vm_compute in Hp].
  exists p. split; [done|].
  refine (proj2 (proj2 (proj2 (proj2
            (@social_metadata_keys simple_url tiny_json _
               "https://a.com/" "https://a.com/" 200 f0_0 "" [] [] [] p Hp))))
            [{| meta_property := Some "og:title"; meta_name := None;
                meta_content := Some "First" |}]
            None " og:title " "Second " _ _ _ _); reflexivity.
Defined.

Lemma replace_newlines_none (s : string) :
  has_char "010" (replace_newlines s) = false.
Proof.
  induction s as [|c s IH]; [done|]. cbn [replace_newlines has_char].
  destruct (Ascii.eqb c "010") eqn:Hc; [by rewrite IH|].
  by rewrite Ascii.eqb_sym, Hc, IH.
Qed.

Lemma replace_newlines_id (s : string) :
  has_char "010" s = false → replace_newlines s = s.
Proof.
  induction s as [|c s IH]; [done|]. cbn [replace_newlines has_char].
  intros [Hc Hs]%orb_false_elim. rewrite Ascii.eqb_sym, Hc. by rewrite IH.
Qed.

(** X12. [md_escape] returns a text without any newline and without
    white space at either end; applied to its own result it changes
    nothing, and it turns [None] and the empty string into the empty
    string. *)
Theorem md_escape_clean (s : option string) :
  has_char "010" (md_escape s) = false
  ∧ strip (md_escape s) = md_escape s
  ∧ md_escape (Some (md_escape s)) = md_escape s
  ∧ md_escape None = "" ∧ md_escape (Some "") = "".
Proof.
  unfold md_escape.
  assert (has_char "010" (strip (replace_newlines (attr_or_empty s))) = false)
    as Hclean by apply has_char_strip, replace_newlines_none.
  split; [done|]. split; [apply strip_idem|]. split; [|done].
  cbn [attr_or_empty]. rewrite (replace_newlines_id _ Hclean). apply strip_idem.
Qed.

(* ===================================================================== *)
(** * Further properties: structured data *)
(* ===================================================================== *)

Section SchemaMore.
Context `{JsonLib}.

(** X13. The list of type names depends on the set of blocks only: two
    lists with the same blocks, in any order and any number of copies,
    give the same result. A block that is blank adds nothing. *)
Theorem schema_types_order_free (blocks blocks' : list string) :
  (∀ b, b ∈ blocks ↔ b ∈ blocks') →
  extract_schema_types_from_jsonld_blocks blocks
  = extract_schema_types_from_jsonld_blocks blocks'
  ∧ (∀ raw, strip raw = "" →
            extract_schema_types_from_jsonld_blocks (raw :: blocks)
            = extract_schema_types_from_jsonld_blocks blocks).
Proof.
  intros Hsame.
  assert (∀ l l' : list string,
            (∀ x, (∃ raw, raw ∈ l ∧ x ∈ block_types raw)
                  ↔ (∃ raw, raw ∈ l' ∧ x ∈ block_types raw)) →
            extract_schema_types_from_jsonld_blocks l
            = extract_schema_types_from_jsonld_blocks l') as Hext.
  { intros l l' Hl. unfold extract_schema_types_from_jsonld_blocks. f_equal.
    apply set_eq. intros x. rewrite !elem_of_collected.
    split; (intros [Hx|Hx]; [by apply not_elem_of_empty in Hx|right]);
      by apply Hl. }
  split.
  - apply Hext. intros x.
    split; intros (raw & Hraw & Hx); exists raw; (split; [by apply Hsame|done]).
  - intros raw Hblank. apply Hext. intros x. split.
    + intros (b & [->|Hb]%elem_of_cons & Hx).
      * unfold block_types in Hx. rewrite Hblank in Hx. cbn in Hx.
        by apply not_elem_of_empty in Hx.
      * by exists b.
    + intros (b & Hb & Hx). exists b. split; [by apply list_elem_of_further|done].
Qed.

End SchemaMore.

Lemma schema_types_order_free_witness :
  @extract_schema_types_from_jsonld_blocks tiny_json [truncated_block; "{}"]
  = @extract_schema_types_from_jsonld_blocks tiny_json
      ["{}"; truncated_block; "{}"].
Proof.
  refine (proj1 (@schema_types_order_free tiny_json
                   [truncated_block; "{}"] ["{}"; truncated_block; "{}"] _)).
  intros b. rewrite !elem_of_cons, !elem_of_nil. tauto.
Defined.

Lemma span_not_clean (stop : ascii) (s : string) :
  has_char stop (fst (span_not stop s)) = false.
Proof.
  induction s as [|c s IH]; [done|]. cbn [span_not].
  destruct (Ascii.eqb c stop) eqn:Hc; [done|].
  destruct (span_not stop s) as [a b]. cbn [fst has_char] in *.
  by rewrite Ascii.eqb_sym, Hc, IH.
Qed.

Lemma delimited_clean (open close : ascii) (s g : string) (n : nat) :
  delimited open close s = Some (g, n) →
  g ≠ "" ∧ has_char close g = false.
Proof.
  unfold delimited. destruct s as [|c s]; [done|].
  destruct (Ascii.eqb c open); [|done].
  pose proof (span_not_clean close s) as Hclean.
  destruct (span_not close s) as [body rest]. cbn [fst] in Hclean.
  destruct body as [|b body]; [done|]. destruct rest as [|r rest]; [done|].
  intros [= <- _]. done.
Qed.

Lemma findall_quoted_clean (skip : nat) (s t : string) :
  In t (findall_quoted skip s) → clean_name t.
Proof.
  revert skip. induction s as [|c s IH]; intros skip; cbn [findall_quoted];
    [done|].
  destruct skip as [|k]; [|apply IH].
  destruct (delimited dquote dquote (String c s)) as [[g n]|] eqn:Hd;
    [|apply IH].
  intros [<-|Ht]; [by eapply delimited_clean|by eapply IH].
Qed.

Lemma finditer_clean (skip : nat) (s g : string) :
  In (single g) (finditer skip s) → clean_name g.
Proof.
  revert skip. induction s as [|c s IH]; intros skip; cbn [finditer]; [done|].
  destruct skip as [|k]; [|apply IH].
  destruct (match_type_at (String c s)) as [[m n]|] eqn:Hm; [|apply IH].
  intros [->|Hg]; [|by eapply IH].
  unfold match_type_at in Hm.
  destruct (ci_prefix _ _) as [s1|]; [|done].
  destruct (skip_ws s1) as [n1 s2]. destruct s2 as [|c2 s3]; [done|].
  destruct (Ascii.eqb_spec c2 ":") as [->|Hne].
  2:{ destruct c2 as [[] [] [] [] [] [] [] []]; try done. }
  destruct (skip_ws s3) as [n2 s4].
  destruct (delimited dquote dquote s4) as [[g' n']|] eqn:Hd.
  - injection Hm as -> _. by eapply delimited_clean.
  - by destruct (delimited "[" "]" s4) as [[g' n']|].
Qed.

(** X14. Every type name the fallback pattern yields, from a quoted value
    as from a bracketed list, is non-empty and holds no double quote. *)
Theorem fallback_names_clean (raw t : string) :
  t ∈ fallback_types raw → clean_name t.
Proof.
  unfold fallback_types.
  assert (∀ ms : list type_match,
            (∀ g, In (single g) ms → clean_name g) →
            t ∈ foldr (λ m acc,
                         match m with
                         | single g2 => {[ g2 ]} ∪ acc
                         | bracketed g3 =>
                             list_to_set (findall_quoted 0 g3) ∪ acc
                         end) (∅ : gset string) ms →
            clean_name t) as Hfold.
  { induction ms as [|m ms IH]; intros Hms; cbn [foldr].
    { intros Ht. by apply not_elem_of_empty in Ht. }
    destruct m as [g2|g3].
    - intros [->%elem_of_singleton|Ht]%elem_of_union.
      + apply Hms. by left.
      + apply IH; [|done]. intros g Hg. apply Hms. by right.
    - intros [Ht%elem_of_list_to_set|Ht]%elem_of_union.
      + apply list_elem_of_In in Ht. by eapply findall_quoted_clean.
      + apply IH; [|done]. intros g Hg. apply Hms. by right. }
  apply Hfold. intros g Hg. by eapply finditer_clean.
Qed.

Lemma fallback_names_clean_witness : clean_name "Organization".
Proof.
  apply (fallback_names_clean truncated_block "Organization").
  by vm_compute.
Defined.

Lemma walk_list_item (items : list json) (it : json) :
  In it items → walk it ⊆ walk (JList items).
Proof.
  cbn [walk]. induction items as [|i0 items IH]; [done|].
  intros [->|Hit]; [apply union_subseteq_l|].
  etrans; [by apply IH|apply union_subseteq_r].
Qed.

Lemma walk_dict_field (fields : list (string * json)) (k : string) (x : json) :
  In (k, x) fields → walk x ⊆ walk (JDict fields).
Proof.
  cbn [walk]. intros Hin. etrans; [|apply union_subseteq_r].
  induction fields as [|[k0 v0] fields IH]; [done|].
  destruct Hin as [[= -> ->]|Hin]; [apply union_subseteq_l|].
  etrans; [by apply IH|apply union_subseteq_r].
Qed.

Lemma walk_dict_own (fields : list (string * json)) :
  own_types fields ⊆ walk (JDict fields).
Proof. cbn [walk]. apply union_subseteq_l. Qed.

Lemma type_strings_elem (ts : list json) (t : string) :
  t ∈ type_strings ts ↔ In (JStr t) ts.
Proof.
  induction ts as [|j ts IH]; cbn [type_strings In].
  { split; [intros Ht; by apply not_elem_of_empty in Ht|done]. }
  destruct j as [|b|n|x|s|items|fields];
    try (rewrite IH; split; [tauto|intros [Hj|?]; [discriminate Hj|done]]).
  rewrite elem_of_union, elem_of_singleton, IH. split.
  - intros [->|?]; [by left|by right].
  - intros [[= ->]|?]; [by left|by right].
Qed.

(** X15. [walk] finds the types at every depth: when a dictionary occurs
    anywhere in the parsed value and holds a string under the key [@type],
    the string is collected, and when it holds a list under that key,
    every string of the list is collected. *)
Theorem walk_finds_nested_types (obj : json) (fields : list (string * json))
    (t : string) :
  inside (JDict fields) obj →
  (PyDict.get fields at_type = Some (JStr t) → t ∈ walk obj)
  ∧ (∀ ts, PyDict.get fields at_type = Some (JList ts) →
           In (JStr t) ts → t ∈ walk obj).
Proof.
  intros Hinside.
  assert (walk (JDict fields) ⊆ walk obj) as Hsub.
  { induction Hinside as [|items it Hit _ IH|fs k x Hx _ IH]; [done| |].
    - etrans; [exact IH|by apply walk_list_item].
    - etrans; [exact IH|by eapply walk_dict_field]. }
  split.
  - intros Hget. apply Hsub, walk_dict_own. unfold own_types. rewrite Hget.
    by apply elem_of_singleton.
  - intros ts Hget Hin. apply Hsub, walk_dict_own. unfold own_types.
    rewrite Hget. by apply type_strings_elem.
Qed.

Lemma walk_finds_nested_types_witness :
  "Person" ∈ walk (JList [JInt 1;
                          JDict [("@graph",
                                  JList [JDict [("@type", JStr "Person")]])]]).
Proof.
  refine (proj1 (walk_finds_nested_types _ [("@type", JStr "Person")] "Person" _)
            eq_refl).
  eapply inside_item; [right; left; reflexivity|].
  eapply inside_field; [left; reflexivity|].
  eapply inside_item; [left; reflexivity|]. apply inside_here.
Defined.

(* ===================================================================== *)
(** * Further properties: recommended actions *)
(* ===================================================================== *)

(** X16. [build_site_actions] returns the six actions in the fixed order
    of its checks, each at most once and exactly when its condition holds:
    the loop that drops duplicates never drops anything. An endpoint asks
    for an action only when its flag is [False]; a flag that is [None] or
    [True] asks for none. *)
Theorem build_site_actions_spec (site : SiteAudit.t) :
  build_site_actions site = List.filter (action_due site) all_actions
  ∧ build_site_actions site = site_actions site
  ∧ NoDup (build_site_actions site)
  ∧ (act_robots ∈ build_site_actions site
     ↔ SiteAudit.robots_ok site = Some false)
  ∧ (act_sitemap ∈ build_site_actions site
     ↔ SiteAudit.sitemap_ok site = Some false)
  ∧ (act_llms ∈ build_site_actions site
     ↔ SiteAudit.llms_ok site = Some false).
Proof.
  assert (build_site_actions site = List.filter (action_due site) all_actions
          ∧ build_site_actions site = site_actions site) as [Hfilter Hsame].
  { unfold build_site_actions, site_actions, all_actions, action_due.
    cbn [List.filter].
    destruct (is_false (SiteAudit.robots_ok site)),
      (is_false (SiteAudit.sitemap_ok site)),
      (is_false (SiteAudit.llms_ok site)),
      (existsb (λ p, bool_decide (PageAudit.schema_types p = []))
         (SiteAudit.pages site)),
      (existsb (λ p, PageAudit.internal_links p <? 3) (SiteAudit.pages site)),
      (existsb (λ p, (0 <? PageAudit.images p)
                     && (0 <? PageAudit.images_missing_alt p))
         (SiteAudit.pages site)); by vm_compute. }
  split; [done|]. split; [done|].
  assert (∀ a, a ∈ build_site_actions site ↔ action_due site a = true) as Hdue.
  { intros a. rewrite Hfilter, list_elem_of_In, filter_In.
    split; [tauto|]. intros Ha. split; [|done].
    unfold all_actions. destruct a; cbn; tauto. }
  split.
  { rewrite Hfilter. apply NoDup_ListNoDup, List.NoDup_filter.
    unfold all_actions. repeat constructor; cbn; intuition discriminate. }
  split; [|split]; rewrite Hdue; cbn [action_due]; unfold is_false.
  - destruct (SiteAudit.robots_ok site) as [[]|]; split; congruence.
  - destruct (SiteAudit.sitemap_ok site) as [[]|]; split; congruence.
  - destruct (SiteAudit.llms_ok site) as [[]|]; split; congruence.
Qed.

(* ===================================================================== *)
(** * Further properties: link discovery *)
(* ===================================================================== *)

Section DiscoveryMore.
Context `{UrlLib}.

(** X17. [discover_internal_links] returns at most [max_new] links, and
    at most one when [max_new] is below 1. Every link it returns is free
    of [#] and has the host of the page. *)
Theorem discover_internal_links_bounded (final_url : string) (soup : Soup)
    (max_new : Z) (links : list string) :
  discover_internal_links final_url soup max_new = Some links →
  len links ≤ Z.max 1 max_new
  ∧ ∀ lk, lk ∈ links →
          has_char "#" lk = false ∧ same_host final_url lk = Some true.
Proof.
  intros Hlinks. split.
  - eapply discover_loop_bounded; [|exact Hlinks]. unfold len. cbn. lia.
  - intros lk Hlk.
    destruct (discover_loop_origin _ _ _ _ _ _ Hlinks Hlk)
      as [Hnil|(href & _ & _ & _ & _ & Hjoin & Hhost)].
    + by apply elem_of_nil in Hnil.
    + split; [|done].
      destruct (urljoin final_url (strip href)) as [joined|]; [|done].
      by apply (norm_url_no_hash joined).
Qed.

End DiscoveryMore.

Lemma discover_internal_links_bounded_witness :
  has_char "#" "https://a.com/about" = false
  ∧ @same_host simple_url "https://a.com/about" "https://a.com/about"
    = Some true.
Proof.
  apply (proj2 (@discover_internal_links_bounded simple_url
                  "https://a.com/about" about_soup 80
                  ["https://a.com/"; "https://a.com/"; "https://a.com/about"]
                  ltac:(by vm_compute))).
  do 2 apply list_elem_of_further. apply list_elem_of_here.
Defined.
